(** * pit/users: the account store, embedded in Rocq

    The Go package [users] keeps accounts in one DynamoDB table.  Every
    account is one item: the hash key [uid] and the string attributes [key]
    (credential digest), [info] (JSON of the exported fields), [logs] (JSON of
    the activity map) and [enabled].

    The embedding follows the source function by function.  What the source
    takes from libraries is modelled next to it:
    - [utf8], [utf16], [strconv], [json]: the parts of the Go standard
      library that [json.Marshal] and [json.Unmarshal] run for the two types
      stored here ([*User] and [map[string][]*LogLine]);
    - [sha256], [hmac], [pbkdf2], [base64]: the digest of [HashPassword];
    - [dynamodb]: the table as a finite map, with an oracle that says which
      of the coming requests fail;
    - [time.Now().Unix()]: an oracle of coming clock readings.

    Go strings are byte sequences: [string] here, one [ascii] per byte. *)

From Stdlib Require Import ZArith Ascii String List Lia.
From stdpp Require Import base option list gmap strings sorting.

Local Open Scope Z_scope.
Set Warnings "-register-all".
Set Default Proof Using "Type".

(** ** Bytes *)

(** A byte as the number Go computes with. *)
Definition b2z (c : ascii) : Z := Z.of_N (N_of_ascii c).

(** Go's conversion [byte(x)]: the low eight bits. *)
Definition z2b (z : Z) : ascii := ascii_of_N (Z.to_N (Z.land z 255)).

Definition bytes (s : string) : list ascii := list_ascii_of_string s.
Definition str (l : list ascii) : string := string_of_list_ascii l.

(** ** unicode/utf8 *)

Module utf8.

Definition RuneError : Z := 0xFFFD.
Definition RuneSelf : Z := 0x80.
Definition MaxRune : Z := 0x10FFFF.
Definition surrogateMin : Z := 0xD800.
Definition surrogateMax : Z := 0xDFFF.

Definition maskx : Z := 0x3F.
Definition mask2 : Z := 0x1F.
Definition mask3 : Z := 0x0F.
Definition mask4 : Z := 0x07.
Definition tx : Z := 0x80.
Definition t2 : Z := 0xC0.
Definition t3 : Z := 0xE0.
Definition t4 : Z := 0xF0.
Definition locb : Z := 0x80.
Definition hicb : Z := 0xBF.

(** The table [first] with [acceptRanges] looked up: for a leading byte of
    a multi-byte sequence, the fuel_of of the sequence and the range accepted
    for the second byte; [None] for ASCII ([as]) and invalid ([xx])
    leading bytes. *)
Definition first (p0 : Z) : option (nat * Z * Z) :=
  if p0 <? 0xC2 then None
  else if p0 <? 0xE0 then Some (2%nat, locb, hicb)
  else if p0 =? 0xE0 then Some (3%nat, 0xA0, hicb)
  else if p0 <? 0xED then Some (3%nat, locb, hicb)
  else if p0 =? 0xED then Some (3%nat, locb, 0x9F)
  else if p0 <? 0xF0 then Some (3%nat, locb, hicb)
  else if p0 =? 0xF0 then Some (4%nat, 0x90, hicb)
  else if p0 <? 0xF4 then Some (4%nat, locb, hicb)
  else if p0 =? 0xF4 then Some (4%nat, locb, 0x8F)
  else None.

Definition cont (b : Z) : bool := (locb <=? b) && (b <=? hicb).

(** [utf8.DecodeRune]: the rune at the head of [p] and its width in
    bytes; [(RuneError, 1)] for an invalid or short encoding and
    [(RuneError, 0)] for the empty input. *)
Definition DecodeRune (p : list ascii) : Z * nat :=
  match p with
  | [] => (RuneError, 0%nat)
  | c0 :: p1 =>
    let p0 := b2z c0 in
    match first p0 with
    | None => (if p0 <? RuneSelf then p0 else RuneError, 1%nat)
    | Some (sz, lo, hi) =>
      match p1 with
      | [] => (RuneError, 1%nat)
      | c1 :: p2 =>
        let b1 := b2z c1 in
        if (b1 <? lo) || (hi <? b1) then (RuneError, 1%nat)
        else if (sz <=? 2)%nat then
          (Z.lor (Z.shiftl (Z.land p0 mask2) 6) (Z.land b1 maskx), 2%nat)
        else
          match p2 with
          | [] => (RuneError, 1%nat)
          | c2 :: p3 =>
            let b2 := b2z c2 in
            if negb (cont b2) then (RuneError, 1%nat)
            else if (sz <=? 3)%nat then
              (Z.lor (Z.lor (Z.shiftl (Z.land p0 mask3) 12)
                            (Z.shiftl (Z.land b1 maskx) 6))
                     (Z.land b2 maskx), 3%nat)
            else
              match p3 with
              | [] => (RuneError, 1%nat)
              | c3 :: _ =>
                let b3 := b2z c3 in
                if negb (cont b3) then (RuneError, 1%nat)
                else
                  (Z.lor (Z.lor (Z.lor (Z.shiftl (Z.land p0 mask4) 18)
                                       (Z.shiftl (Z.land b1 maskx) 12))
                                (Z.shiftl (Z.land b2 maskx) 6))
                         (Z.land b3 maskx), 4%nat)
              end
          end
      end
    end
  end.

(** [utf8.EncodeRune], for the non-negative runes the decoder produces. *)
Definition EncodeRune (r : Z) : list ascii :=
  let three (r : Z) :=
    [ z2b (Z.lor t3 (Z.land (Z.shiftr r 12) 255));
      z2b (Z.lor tx (Z.land (Z.shiftr r 6) maskx));
      z2b (Z.lor tx (Z.land r maskx)) ] in
  if r <=? 0x7F then [ z2b r ]
  else if r <=? 0x7FF then
    [ z2b (Z.lor t2 (Z.land (Z.shiftr r 6) 255));
      z2b (Z.lor tx (Z.land r maskx)) ]
  else if (MaxRune <? r) || ((surrogateMin <=? r) && (r <=? surrogateMax))
    then three RuneError
  else if r <=? 0xFFFF then three r
  else
    [ z2b (Z.lor t4 (Z.land (Z.shiftr r 18) 255));
      z2b (Z.lor tx (Z.land (Z.shiftr r 12) maskx));
      z2b (Z.lor tx (Z.land (Z.shiftr r 6) maskx));
      z2b (Z.lor tx (Z.land r maskx)) ].

(** [utf8.Valid]: no position decodes to an encoding error. *)
Fixpoint Valid_loop (fuel : nat) (p : list ascii) : bool :=
  match fuel with
  | O => true
  | S fuel =>
    match p with
    | [] => true
    | c :: t =>
      if b2z c <? RuneSelf then Valid_loop fuel t
      else
        let '(r, fuel_of) := DecodeRune p in
        if (r =? RuneError) && (fuel_of =? 1)%nat then false
        else Valid_loop fuel (drop fuel_of p)
    end
  end.

Definition Valid (p : list ascii) : bool := Valid_loop (length p) p.
Definition ValidString (s : string) : bool := Valid (bytes s).

End utf8.

(** ** unicode/utf16 *)

Module utf16.

Definition surr1 : Z := 0xD800.
Definition surr2 : Z := 0xDC00.
Definition surr3 : Z := 0xE000.
Definition surrSelf : Z := 0x10000.
Definition replacementChar : Z := 0xFFFD.

Definition IsSurrogate (r : Z) : bool := (surr1 <=? r) && (r <? surr3).

Definition DecodeRune (r1 r2 : Z) : Z :=
  if (surr1 <=? r1) && (r1 <? surr2) && (surr2 <=? r2) && (r2 <? surr3)
  then Z.lor (Z.shiftl (r1 - surr1) 10) (r2 - surr2) + surrSelf
  else replacementChar.

End utf16.

(** ** strconv *)

Module strconv.

Definition isDigit (c : ascii) : bool := (48 <=? b2z c) && (b2z c <=? 57).

Definition digit (n : Z) : ascii := z2b (48 + n).

(** The digits of [n], least significant first. *)
Fixpoint digits_rev (fuel : nat) (n : Z) : list ascii :=
  match fuel with
  | O => []
  | S fuel =>
    digit (n mod 10) :: (if n <? 10 then [] else digits_rev fuel (n / 10))
  end.

Definition FormatUint (n : Z) : list ascii :=
  rev (digits_rev (S (Z.to_nat (Z.log2 n))) n).

(** [strconv.FormatInt(i, 10)]. *)
Definition FormatInt (i : Z) : list ascii :=
  if i <? 0 then "-"%char :: FormatUint (- i) else FormatUint i.

(** The value of a run of decimal digits, [None] when one of the
    characters is no digit or there is none. *)
Fixpoint parse_digits (acc : Z) (s : list ascii) : option Z :=
  match s with
  | [] => Some acc
  | c :: t => if isDigit c then parse_digits (acc * 10 + (b2z c - 48)) t
              else None
  end.

Definition ParseUint (s : list ascii) : option Z :=
  match s with
  | [] => None
  | _ => parse_digits 0 s
  end.

Definition minInt64 : Z := - 2 ^ 63.
Definition maxInt64 : Z := 2 ^ 63 - 1.

(** [strconv.ParseInt(s, 10, 64)]: an optional sign, decimal digits, and
    the value within the range of [int64]; [None] is Go's error. *)
Definition ParseInt (s : list ascii) : option Z :=
  let checked (z : Z) :=
    if (minInt64 <=? z) && (z <=? maxInt64) then Some z else None in
  match s with
  | [] => None
  | c :: t =>
    if (c =? "-")%char then n ← ParseUint t; checked (- n)
    else if (c =? "+")%char then n ← ParseUint t; checked n
    else n ← ParseUint s; checked n
  end.

End strconv.

(** ** encoding/json *)

Module json.

Definition dquote : ascii := "034"%char.
Definition backslash : ascii := "\"%char.

(** A JSON text as the scanner of encoding/json splits it.  A number keeps
    its literal: the decoder converts it by the type of its target. *)
Inductive value :=
| JNull
| JBool (b : bool)
| JNumber (lit : list ascii)
| JString (s : list ascii)
| JArray (elems : list value)
| JObject (members : list (list ascii * value)).

(** *** Encoding *)

Definition hexdigit (n : Z) : ascii :=
  nth (Z.to_nat n) (bytes "0123456789abcdef") "0"%char.

(** [htmlSafeSet]: the ASCII bytes a string literal carries as they
    are. *)
Definition htmlSafe (b : Z) : bool :=
  (0x20 <=? b) && negb ((b =? 0x22) || (b =? 0x26) || (b =? 0x3C)
                        || (b =? 0x3E) || (b =? 0x5C)).

(** The escape of an ASCII byte outside [htmlSafeSet]. *)
Definition escape (c : ascii) : list ascii :=
  let b := b2z c in
  if (b =? 0x5C) || (b =? 0x22) then [backslash; c]
  else if b =? 0x08 then [backslash; "b"%char]
  else if b =? 0x0C then [backslash; "f"%char]
  else if b =? 0x0A then [backslash; "n"%char]
  else if b =? 0x0D then [backslash; "r"%char]
  else if b =? 0x09 then [backslash; "t"%char]
  else [backslash; "u"%char; "0"%char; "0"%char;
        hexdigit (Z.shiftr b 4); hexdigit (Z.land b 0xF)].

(** One pass of the loop of [appendString] (with [escapeHTML], as
    [Marshal] sets it): what is written for the head of [src], and the
    rest of [src].  Invalid UTF-8 becomes the escape of U+FFFD, U+2028 and
    U+2029 are escaped, everything else above ASCII is copied. *)
Definition appendString_step (src : list ascii)
  : list ascii * list ascii :=
  match src with
  | [] => ([], [])
  | c :: t =>
    if b2z c <? utf8.RuneSelf then
      (if htmlSafe (b2z c) then [c] else escape c, t)
    else
      let '(r, fuel_of) := utf8.DecodeRune src in
      (if (r =? utf8.RuneError) && (fuel_of =? 1)%nat then
         backslash :: bytes "ufffd"
       else if (r =? 0x2028) || (r =? 0x2029) then
         backslash :: bytes "u202" ++ [hexdigit (Z.land r 0xF)]
       else take fuel_of src,
       drop fuel_of src)
  end.

Fixpoint appendString_loop (fuel : nat) (src : list ascii) : list ascii :=
  match fuel with
  | O => []
  | S fuel =>
    match src with
    | [] => []
    | _ :: _ =>
      let '(e, src') := appendString_step src in
      e ++ appendString_loop fuel src'
    end
  end.

Definition appendString (src : list ascii) : list ascii :=
  dquote :: appendString_loop (length src) src ++ [dquote].

(** The compact text [Marshal] writes. *)
Fixpoint render (v : value) : list ascii :=
  match v with
  | JNull => bytes "null"
  | JBool true => bytes "true"
  | JBool false => bytes "false"
  | JNumber lit => lit
  | JString s => appendString s
  | JArray elems =>
    "["%char ::
      (fix go (l : list value) : list ascii :=
         match l with
         | [] => []
         | [x] => render x
         | x :: l' => render x ++ ","%char :: go l'
         end) elems ++ ["]"%char]
  | JObject members =>
    "{"%char ::
      (fix go (l : list (list ascii * value)) : list ascii :=
         match l with
         | [] => []
         | [(k, x)] => appendString k ++ ":"%char :: render x
         | (k, x) :: l' =>
           appendString k ++ ":"%char :: render x ++ ","%char :: go l'
         end) members ++ ["}"%char]
  end.

(** *** Decoding *)

Definition isSpace (c : ascii) : bool :=
  ((c =? " ") || (c =? "009") || (c =? "013") || (c =? "010"))%char.

Fixpoint skipSpace (s : list ascii) : list ascii :=
  match s with
  | c :: t => if isSpace c then skipSpace t else s
  | [] => []
  end.

Definition unhex (c : ascii) : option Z :=
  let b := b2z c in
  if (48 <=? b) && (b <=? 57) then Some (b - 48)
  else if (97 <=? b) && (b <=? 102) then Some (b - 97 + 10)
  else if (65 <=? b) && (b <=? 70) then Some (b - 65 + 10)
  else None.

(** [getu4]: the code unit of a [\uXXXX] escape at the head of [s], or
    [-1]. *)
Definition getu4 (s : list ascii) : Z :=
  match s with
  | c0 :: c1 :: h1 :: h2 :: h3 :: h4 :: _ =>
    if ((c0 =? backslash) && (c1 =? "u"))%char then
      match unhex h1, unhex h2, unhex h3, unhex h4 with
      | Some a, Some b, Some c, Some d => ((a * 16 + b) * 16 + c) * 16 + d
      | _, _, _, _ => -1
      end
    else -1
  | _ => -1
  end.

(** One pass of the loop of [unquoteBytes], with the scanner's check of
    the literal: the bytes written for the head of [s], and the rest of
    [s].  Raw bytes above ASCII are decoded and encoded again, which
    coerces them to valid UTF-8. *)
Definition unquote_step (s : list ascii)
  : option (list ascii * list ascii) :=
  match s with
  | [] => None
  | c :: t =>
    if (c =? backslash)%char then
      match t with
      | [] => None
      | e :: t' =>
        if ((e =? dquote) || (e =? backslash) || (e =? "/"))%char
        then Some ([e], t')
        else if (e =? "b")%char then Some (["008"%char], t')
        else if (e =? "f")%char then Some (["012"%char], t')
        else if (e =? "n")%char then Some (["010"%char], t')
        else if (e =? "r")%char then Some (["013"%char], t')
        else if (e =? "t")%char then Some (["009"%char], t')
        else if (e =? "u")%char then
          let rr := getu4 s in
          if rr <? 0 then None
          else
            let s6 := drop 6 s in
            if utf16.IsSurrogate rr then
              let dec := utf16.DecodeRune rr (getu4 s6) in
              if negb (dec =? utf16.replacementChar)
              then Some (utf8.EncodeRune dec, drop 6 s6)
              else Some (utf8.EncodeRune utf16.replacementChar, s6)
            else Some (utf8.EncodeRune rr, s6)
        else None
      end
    else if (c =? dquote)%char || (b2z c <? 0x20) then None
    else if b2z c <? utf8.RuneSelf then Some ([c], t)
    else
      let '(rr, fuel_of) := utf8.DecodeRune s in
      Some (utf8.EncodeRune rr, drop fuel_of s)
  end.

(** A string literal after its opening quote: the decoded string and the
    input after the closing quote. *)
Fixpoint unquote (fuel : nat) (s : list ascii)
  : option (list ascii * list ascii) :=
  match fuel with
  | O => None
  | S fuel =>
    match s with
    | [] => None
    | c :: t =>
      if (c =? dquote)%char then Some ([], t)
      else
        '(w, s') ← unquote_step s;
        '(ws, r) ← unquote fuel s';
        Some (w ++ ws, r)
    end
  end.

(** What [Marshal] followed by [Unmarshal] makes of a string: every byte
    that is no part of a valid UTF-8 sequence becomes U+FFFD. *)
Definition coerce_step (s : list ascii) : list ascii * list ascii :=
  match s with
  | [] => ([], [])
  | c :: t =>
    if b2z c <? utf8.RuneSelf then ([c], t)
    else
      let '(r, fuel_of) := utf8.DecodeRune s in
      (utf8.EncodeRune r, drop fuel_of s)
  end.

Fixpoint coerce_loop (fuel : nat) (s : list ascii) : list ascii :=
  match fuel with
  | O => []
  | S fuel =>
    match s with
    | [] => []
    | _ :: _ =>
      let '(e, s') := coerce_step s in e ++ coerce_loop fuel s'
    end
  end.

Definition coerce (s : list ascii) : list ascii := coerce_loop (length s) s.

Fixpoint span_digits (s : list ascii) : list ascii * list ascii :=
  match s with
  | c :: t =>
    if strconv.isDigit c
    then let '(ds, r) := span_digits t in (c :: ds, r)
    else ([], s)
  | [] => ([], [])
  end.

(** The number grammar of the scanner, part by part: the integer part,
    the optional fraction and the optional exponent, each with what
    follows it. *)
Definition scan_int (s : list ascii) : option (list ascii * list ascii) :=
  match s with
  | [] => None
  | d :: t =>
    if (d =? "0")%char then Some ([d], t)
    else if strconv.isDigit d
         then let '(ds, r) := span_digits t in Some (d :: ds, r)
         else None
  end.

Definition scan_frac (s : list ascii) : option (list ascii * list ascii) :=
  match s with
  | c :: t =>
    if (c =? ".")%char then
      match span_digits t with
      | ([], _) => None
      | (ds, r) => Some (c :: ds, r)
      end
    else Some ([], s)
  | [] => Some ([], s)
  end.

Definition scan_exp (s : list ascii) : option (list ascii * list ascii) :=
  match s with
  | c :: t =>
    if ((c =? "e") || (c =? "E"))%char then
      let '(sg, t1) :=
        match t with
        | g :: t' => if ((g =? "+") || (g =? "-"))%char
                     then ([g], t') else ([], t)
        | [] => ([], t)
        end in
      match span_digits t1 with
      | ([], _) => None
      | (ds, r) => Some (c :: sg ++ ds, r)
      end
    else Some ([], s)
  | [] => Some ([], s)
  end.

(** A number literal and what follows it. *)
Definition scan_number (s : list ascii)
  : option (list ascii * list ascii) :=
  let '(sign, s1) :=
    match s with
    | c :: t => if (c =? "-")%char then ([c], t) else ([], s)
    | [] => ([], s)
    end in
  '(int, s2) ← scan_int s1;
  '(frac, s3) ← scan_frac s2;
  '(exp, s4) ← scan_exp s3;
  Some (sign ++ int ++ frac ++ exp, s4).

Definition literal (word : string) (v : value) (s : list ascii)
  : option (value * list ascii) :=
  let w := bytes word in
  if decide (take (length w) s = w) then Some (v, drop (length w) s)
  else None.

(** One value at the head of [s] (no leading space) and the input after
    it.  [fuel] bounds the number of values and members still to read. *)
Fixpoint parse_value (fuel : nat) (s : list ascii) {struct fuel}
  : option (value * list ascii) :=
  match fuel with
  | O => None
  | S fuel =>
    match s with
    | [] => None
    | c :: t =>
      if (c =? "{")%char then
        match skipSpace t with
        | c' :: r =>
          if (c' =? "}")%char then Some (JObject [], r)
          else '(ms, r') ← parse_members fuel (c' :: r);
               Some (JObject ms, r')
        | [] => None
        end
      else if (c =? "[")%char then
        match skipSpace t with
        | c' :: r =>
          if (c' =? "]")%char then Some (JArray [], r)
          else '(es, r') ← parse_elements fuel (c' :: r);
               Some (JArray es, r')
        | [] => None
        end
      else if (c =? dquote)%char then
        '(w, r) ← unquote (length t) t; Some (JString w, r)
      else if (c =? "t")%char then literal "true" (JBool true) s
      else if (c =? "f")%char then literal "false" (JBool false) s
      else if (c =? "n")%char then literal "null" JNull s
      else '(lit, r) ← scan_number s; Some (JNumber lit, r)
    end
  end
with parse_members (fuel : nat) (s : list ascii) {struct fuel}
  : option (list (list ascii * value) * list ascii) :=
  match fuel with
  | O => None
  | S fuel =>
    match s with
    | [] => None
    | c :: t =>
      if (c =? dquote)%char then
        '(k, r) ← unquote (length t) t;
        match skipSpace r with
        | c1 :: r1 =>
          if (c1 =? ":")%char then
            '(v, r2) ← parse_value fuel (skipSpace r1);
            match skipSpace r2 with
            | c3 :: r3 =>
              if (c3 =? ",")%char then
                '(ms, r4) ← parse_members fuel (skipSpace r3);
                Some ((k, v) :: ms, r4)
              else if (c3 =? "}")%char then Some ([(k, v)], r3)
              else None
            | [] => None
            end
          else None
        | [] => None
        end
      else None
    end
  end
with parse_elements (fuel : nat) (s : list ascii) {struct fuel}
  : option (list value * list ascii) :=
  match fuel with
  | O => None
  | S fuel =>
    '(v, r) ← parse_value fuel s;
    match skipSpace r with
    | c1 :: r1 =>
      if (c1 =? ",")%char then
        '(es, r2) ← parse_elements fuel (skipSpace r1);
        Some (v :: es, r2)
      else if (c1 =? "]")%char then Some ([v], r1)
      else None
    | [] => None
    end
  end.

(** The whole text is one value between optional spaces; [None] is the
    [SyntaxError] of [Unmarshal]. *)
Definition parse (text : list ascii) : option value :=
  '(v, r) ← parse_value (S (length text)) (skipSpace text);
  match skipSpace r with
  | [] => Some v
  | _ :: _ => None
  end.

End json.

(** ** crypto/sha256 *)

Module sha256.

Definition Size : nat := 32.
Definition BlockSize : nat := 64.

(** Arithmetic of [uint32]. *)
Definition u32 (x : Z) : Z := x mod 2 ^ 32.
Definition add32 (x y : Z) : Z := u32 (x + y).
Definition not32 (x : Z) : Z := Z.lxor x 0xFFFFFFFF.
(** [bits.RotateLeft32(x, -n)]. *)
Definition rotr (x n : Z) : Z :=
  Z.lor (Z.shiftr x n) (u32 (Z.shiftl x (32 - n))).

(** The table [_K] of sha256block.go is written here row by row, eight
    words of eight hexadecimal digits in each string. *)
Definition nibble (c : ascii) : Z :=
  let n := b2z c in if n <? 58 then n - 48 else n - 87.
Definition word_of_hex (l : list ascii) : Z :=
  fold_left (fun a c => 16 * a + nibble c) l 0.
Fixpoint hexwords (n : nat) (l : list ascii) : list Z :=
  match n with
  | O => []
  | S n => word_of_hex (take 8 l) :: hexwords n (drop 8 l)
  end.

Definition _K : list Z :=
  Eval vm_compute in
    concat (map (fun row => hexwords 8 (bytes row))
      [ "428a2f9871374491b5c0fbcfe9b5dba53956c25b59f111f1923f82a4ab1c5ed5";
        "d807aa9812835b01243185be550c7dc372be5d7480deb1fe9bdc06a7c19bf174";
        "e49b69c1efbe47860fc19dc6240ca1cc2de92c6f4a7484aa5cb0a9dc76f988da";
        "983e5152a831c66db00327c8bf597fc7c6e00bf3d5a7914706ca635114292967";
        "27b70a852e1b21384d2c6dfc53380d13650a7354766a0abb81c2c92e92722c85";
        "a2bfe8a1a81a664bc24b8b70c76c51a3d192e819d6990624f40e3585106aa070";
        "19a4c1161e376c082748774c34b0bcb5391c0cb34ed8aa4a5b9cca4f682e6ff3";
        "748f82ee78a5636f84c878148cc7020890befffaa4506cebbef9a3f7c67178f2" ]).

(** The chaining value [h0 .. h7] of a digest. *)
Definition state : Type := Z * Z * Z * Z * Z * Z * Z * Z.

Definition init : state :=
  (0x6a09e667, 0xbb67ae85, 0x3c6ef372, 0xa54ff53a,
   0x510e527f, 0x9b05688c, 0x1f83d9ab, 0x5be0cd19).

(** Big-endian words of a chunk: [w[i]] for [i < 16]. *)
Fixpoint words (p : list Z) : list Z :=
  match p with
  | b0 :: b1 :: b2 :: b3 :: t =>
    Z.lor (Z.lor (Z.lor (Z.shiftl b0 24) (Z.shiftl b1 16)) (Z.shiftl b2 8))
          b3 :: words t
  | _ => []
  end.

(** [w[i]] for [16 <= i < 64], from the window [w[i-16 .. i-1]]. *)
Fixpoint schedule (n : nat) (win : list Z) : list Z :=
  match n with
  | O => []
  | S n =>
    let v1 := nth 14 win 0 in
    let t1 := Z.lxor (Z.lxor (rotr v1 17) (rotr v1 19)) (Z.shiftr v1 10) in
    let v2 := nth 1 win 0 in
    let t2 := Z.lxor (Z.lxor (rotr v2 7) (rotr v2 18)) (Z.shiftr v2 3) in
    let wi := add32 (add32 (add32 t1 (nth 9 win 0)) t2) (nth 0 win 0) in
    wi :: schedule n (tl win ++ [wi])
  end.

Definition round (s : state) (kw : Z * Z) : state :=
  let '(a, b, c, d, e, f, g, h) := s in
  let '(k, w) := kw in
  let t1 :=
    add32 (add32 (add32 (add32 h
      (Z.lxor (Z.lxor (rotr e 6) (rotr e 11)) (rotr e 25)))
      (Z.lxor (Z.land e f) (Z.land (not32 e) g))) k) w in
  let t2 :=
    add32 (Z.lxor (Z.lxor (rotr a 2) (rotr a 13)) (rotr a 22))
          (Z.lxor (Z.lxor (Z.land a b) (Z.land a c)) (Z.land b c)) in
  (add32 t1 t2, a, b, c, add32 d t1, e, f, g).

(** One pass of the loop of [blockGeneric] over a 64-byte chunk. *)
Definition block (s : state) (p : list Z) : state :=
  let w16 := words p in
  let w := w16 ++ schedule 48 w16 in
  let '(a, b, c, d, e, f, g, h) := fold_left round (combine _K w) s in
  let '(h0, h1, h2, h3, h4, h5, h6, h7) := s in
  (add32 h0 a, add32 h1 b, add32 h2 c, add32 h3 d,
   add32 h4 e, add32 h5 f, add32 h6 g, add32 h7 h).

Fixpoint blocks (n : nat) (s : state) (p : list Z) : state :=
  match n with
  | O => s
  | S n => blocks n (block s (take 64 p)) (drop 64 p)
  end.

(** [binary.BigEndian.PutUint32] and [PutUint64]. *)
Definition be32 (x : Z) : list Z :=
  [ Z.land (Z.shiftr x 24) 255; Z.land (Z.shiftr x 16) 255;
    Z.land (Z.shiftr x 8) 255; Z.land x 255 ].
Definition be64 (x : Z) : list Z :=
  be32 (Z.land (Z.shiftr x 32) 0xFFFFFFFF) ++ be32 (Z.land x 0xFFFFFFFF).

(** The padding [checkSum] writes after a message of [len] bytes. *)
Definition padding (len : Z) : list Z :=
  let t := if len mod 64 <? 56 then 56 - len mod 64
           else 64 + 56 - len mod 64 in
  0x80 :: replicate (Z.to_nat t - 1) 0 ++ be64 (Z.shiftl len 3 mod 2 ^ 64).

(** [sha256.Sum256]. *)
Definition Sum256 (data : list Z) : list Z :=
  let p := data ++ padding (Z.of_nat (length data)) in
  let '(h0, h1, h2, h3, h4, h5, h6, h7) :=
    blocks (length p / 64) init p in
  be32 h0 ++ be32 h1 ++ be32 h2 ++ be32 h3 ++
  be32 h4 ++ be32 h5 ++ be32 h6 ++ be32 h7.

End sha256.

(** ** crypto/hmac, with SHA-256 *)

Module hmac.

(** The key as [hmac.New] keeps it: hashed when longer than a block, then
    padded with zeros to the block fuel_of. *)
Definition blockKey (key : list Z) : list Z :=
  let k := if (sha256.BlockSize <? length key)%nat
           then sha256.Sum256 key else key in
  k ++ replicate (sha256.BlockSize - length k) 0.

(** [mac.Write(msg); mac.Sum(nil)] for [mac := hmac.New(sha256.New, key)]. *)
Definition Sum (key msg : list Z) : list Z :=
  let k := blockKey key in
  let ipad := map (fun b => Z.lxor b 0x36) k in
  let opad := map (fun b => Z.lxor b 0x5c) k in
  sha256.Sum256 (opad ++ sha256.Sum256 (ipad ++ msg)).

End hmac.

(** ** golang.org/x/crypto/pbkdf2, with HMAC-SHA-256 *)

Module pbkdf2.

Definition xor_bytes (T U : list Z) : list Z :=
  zip_with Z.lxor T U.

(** The inner loop: [U_n = PRF(password, U_(n-1))], [T ^= U_n], for the
    [n] iterations after the first. *)
Fixpoint iterate (n : nat) (password T U : list Z) : list Z :=
  match n with
  | O => T
  | S n =>
    let U' := hmac.Sum password U in
    iterate n password (xor_bytes T U') U'
  end.

(** The block [T_block]. *)
Definition T (password salt : list Z) (iter : nat) (block : Z) : list Z :=
  let U1 := hmac.Sum password (salt ++ sha256.be32 block) in
  iterate (iter - 1) password U1 U1.

(** [pbkdf2.Key(password, salt, iter, keyLen, sha256.New)]. *)
Definition Key (password salt : list Z) (iter keyLen : nat) : list Z :=
  let hashLen := sha256.Size in
  let numBlocks := ((keyLen + hashLen - 1) / hashLen)%nat in
  take keyLen
    (concat (map (fun b => T password salt iter (Z.of_nat b))
                 (seq 1 numBlocks))).

End pbkdf2.

(** ** encoding/base64, the standard encoding with padding *)

Module base64.

Definition encodeStd : list ascii :=
  bytes "ABCDEFGHIJKLMNOPQRSTUVWXYZabcdefghijklmnopqrstuvwxyz0123456789+/".

Definition enc (v : Z) : ascii := nth (Z.to_nat (Z.land v 0x3F)) encodeStd "A"%char.

Fixpoint Encode (src : list Z) : list ascii :=
  match src with
  | [] => []
  | [b0] =>
    let v := Z.shiftl b0 16 in
    [enc (Z.shiftr v 18); enc (Z.shiftr v 12); "="%char; "="%char]
  | [b0; b1] =>
    let v := Z.lor (Z.shiftl b0 16) (Z.shiftl b1 8) in
    [enc (Z.shiftr v 18); enc (Z.shiftr v 12); enc (Z.shiftr v 6);
     "="%char]
  | b0 :: b1 :: b2 :: t =>
    let v := Z.lor (Z.lor (Z.shiftl b0 16) (Z.shiftl b1 8)) b2 in
    enc (Z.shiftr v 18) :: enc (Z.shiftr v 12) :: enc (Z.shiftr v 6)
      :: enc v :: Encode t
  end.

Definition EncodeToString (src : list Z) : string := str (Encode src).

End base64.

(** ** strings *)

Module strings.

Fixpoint HasPrefix (s pre : list ascii) : bool :=
  match pre, s with
  | [], _ => true
  | p :: pre', c :: s' => (c =? p)%char && HasPrefix s' pre'
  | _ :: _, [] => false
  end.

(** The loop of [strings.Replace] for a non-empty [old]: the leftmost
    occurrences, not overlapping, while [n] is not used up (a negative
    [n] never is). *)
Fixpoint replace_loop (fuel : nat) (s old new : list ascii) (n : Z)
  : list ascii :=
  match fuel with
  | O => s
  | S fuel =>
    if n =? 0 then s
    else
      match s with
      | [] => []
      | c :: t =>
        if HasPrefix s old
        then new ++ replace_loop fuel (drop (length old) s) old new (n - 1)
        else c :: replace_loop fuel t old new n
      end
  end.

(** With [old] empty, [new] goes in front of the string and after every
    UTF-8 sequence. *)
Fixpoint replace_empty (fuel : nat) (s new : list ascii) (n : Z)
  : list ascii :=
  match fuel with
  | O => s
  | S fuel =>
    if n =? 0 then s
    else
      new ++
      match s with
      | [] => []
      | _ :: _ =>
        let wid := (utf8.DecodeRune s).2 in
        take wid s ++ replace_empty fuel (drop wid s) new (n - 1)
      end
  end.

(** [strings.Replace(s, old, new, n)]. *)
Definition Replace (s old new : string) (n : Z) : string :=
  if decide (old = new) then s
  else
    match bytes old with
    | [] => str (replace_empty (S (length (bytes s))) (bytes s) (bytes new) n)
    | o => str (replace_loop (length (bytes s)) (bytes s) o (bytes new) n)
    end.

End strings.

(** * Package users *)

Definition cTable : string := "users".
Definition cPrimKey : string := "uid".
Definition cDefaultWRCapacity : Z := 5.
Definition CActivityAccountType : string := "account".
Definition CActivityShardsType : string := "shards".

Record LogLine := mkLogLine {
  Ts : Z;            (* int64, json "ts" *)
  Ip : string;       (* json "ip" *)
  LogType : string;  (* json "type" *)
  Desc : string      (* json "desc" *)
}.

(** The handle of the store.  [conn] and [table] designate the table,
    whose content is part of the [World] below. *)
Record Model := mkModel {
  prefix : string;
  secret : list ascii;
  tableName : string
}.

(** [logs] is a Go map of slices of pointers: [None] is the nil map and a
    [None] in a slice is a nil pointer.  A nil slice and an empty slice are
    both the empty list.  [mutex] is declared and never used. *)
Record User := mkUser {
  uid : string;
  key : string;
  Enabled : string;
  logs : option (gmap string (list (option LogLine)));
  RegTs : Z;         (* int64, json "reg_ts" *)
  RegIp : string;    (* json "reg_ip" *)
  md : Model
}.

Definition set_key (k : string) (us : User) : User :=
  mkUser (uid us) k (Enabled us) (logs us) (RegTs us) (RegIp us) (md us).
Definition set_Enabled (e : string) (us : User) : User :=
  mkUser (uid us) (key us) e (logs us) (RegTs us) (RegIp us) (md us).
Definition set_logs (l : option (gmap string (list (option LogLine))))
  (us : User) : User :=
  mkUser (uid us) (key us) (Enabled us) l (RegTs us) (RegIp us) (md us).
Definition set_RegTs (t : Z) (us : User) : User :=
  mkUser (uid us) (key us) (Enabled us) (logs us) t (RegIp us) (md us).
Definition set_RegIp (ip : string) (us : User) : User :=
  mkUser (uid us) (key us) (Enabled us) (logs us) (RegTs us) ip (md us).

(** ** What [json.Marshal] and [json.Unmarshal] do for these types *)

Module codec.
Import json.

(** *** Marshal *)

Definition LogLine_json (l : LogLine) : value :=
  JObject [ (bytes "ts", JNumber (strconv.FormatInt (Ts l)));
            (bytes "ip", JString (bytes (Ip l)));
            (bytes "type", JString (bytes (LogType l)));
            (bytes "desc", JString (bytes (Desc l))) ].

Definition ptr_json (p : option LogLine) : value :=
  match p with
  | None => JNull
  | Some l => LogLine_json l
  end.

Definition slice_json (s : list (option LogLine)) : value :=
  JArray (map ptr_json s).

(** The keys of a map are written in sorted order. *)
Definition key_le (a b : string * list (option LogLine)) : Prop :=
  String.leb a.1 b.1 = true.

#[global] Instance key_le_dec : RelDecision key_le.
Proof. intros a b. unfold key_le. apply _. Defined.

Definition logs_json (m : option (gmap string (list (option LogLine))))
  : value :=
  match m with
  | None => JNull
  | Some m =>
    JObject (map (fun kv => (bytes kv.1, slice_json kv.2))
                 (merge_sort key_le (map_to_list m)))
  end.

(** Of a [User] only [RegTs] and [RegIp] are written: the other fields
    are not exported or carry the tag [json:"-"]. *)
Definition User_json (us : User) : value :=
  JObject [ (bytes "reg_ts", JNumber (strconv.FormatInt (RegTs us)));
            (bytes "reg_ip", JString (bytes (RegIp us))) ].

(** [json.Marshal(us)] and [json.Marshal(us.logs)]. *)
Definition Marshal_User (us : User) : string := str (render (User_json us)).
Definition Marshal_logs (m : option (gmap string (list (option LogLine))))
  : string := str (render (logs_json m)).

(** *** Unmarshal *)

Definition upper (c : ascii) : ascii :=
  if (97 <=? b2z c) && (b2z c <=? 122) then z2b (b2z c - 32) else c.

(** [foldRune] where it matters for ASCII names: U+017F folds to S and
    U+212A to K.  No other rune above ASCII folds to an ASCII letter, and
    such runes are left as they are. *)
Definition foldRune (r : Z) : Z :=
  if r =? 0x17F then 0x53 else if r =? 0x212A then 0x4B else r.

Fixpoint foldName_loop (fuel : nat) (s : list ascii) : list ascii :=
  match fuel with
  | O => []
  | S fuel =>
    match s with
    | [] => []
    | c :: t =>
      if b2z c <? utf8.RuneSelf then upper c :: foldName_loop fuel t
      else
        let '(r, n) := utf8.DecodeRune s in
        utf8.EncodeRune (foldRune r) ++ foldName_loop fuel (drop n s)
    end
  end.

Definition foldName (s : list ascii) : list ascii :=
  foldName_loop (length s) s.

(** A key of an object names a field when it is the field's JSON name,
    exactly or up to case folding. *)
Definition names (k : list ascii) (field : string) : bool :=
  bool_decide (k = bytes field)
  || bool_decide (foldName k = foldName (bytes field)).

(** A value stored into a string or an [int64]: [null] leaves the target
    as it is, a value of another kind is an [UnmarshalTypeError]. *)
Definition into_string (v : value) (old : string) : option string :=
  match v with
  | JNull => Some old
  | JString s => Some (str s)
  | _ => None
  end.

Definition into_int64 (v : value) (old : Z) : option Z :=
  match v with
  | JNull => Some old
  | JNumber lit => strconv.ParseInt lit
  | _ => None
  end.

(** The members of an object stored into a struct, in their order; keys
    that name no field are skipped. *)
Fixpoint into_struct {A : Type}
  (field : A -> list ascii -> value -> option A)
  (members : list (list ascii * value)) (a : A) : option A :=
  match members with
  | [] => Some a
  | (k, v) :: rest => a' ← field a k v; into_struct field rest a'
  end.

Definition LogLine_field (l : LogLine) (k : list ascii) (v : value)
  : option LogLine :=
  if names k "ts" then
    t ← into_int64 v (Ts l); Some (mkLogLine t (Ip l) (LogType l) (Desc l))
  else if names k "ip" then
    s ← into_string v (Ip l); Some (mkLogLine (Ts l) s (LogType l) (Desc l))
  else if names k "type" then
    s ← into_string v (LogType l); Some (mkLogLine (Ts l) (Ip l) s (Desc l))
  else if names k "desc" then
    s ← into_string v (Desc l); Some (mkLogLine (Ts l) (Ip l) (LogType l) s)
  else Some l.

Definition User_field (us : User) (k : list ascii) (v : value)
  : option User :=
  if names k "reg_ts" then
    t ← into_int64 v (RegTs us); Some (set_RegTs t us)
  else if names k "reg_ip" then
    s ← into_string v (RegIp us); Some (set_RegIp s us)
  else Some us.

(** An element of a slice, a fresh [*LogLine]: [null] leaves the nil
    pointer. *)
Definition into_ptr (v : value) : option (option LogLine) :=
  match v with
  | JNull => Some None
  | JObject members =>
    l ← into_struct LogLine_field members (mkLogLine 0 "" "" "");
    Some (Some l)
  | _ => None
  end.

Definition into_slice (v : value) : option (list (option LogLine)) :=
  match v with
  | JNull => Some []
  | JArray elems => mapM into_ptr elems
  | _ => None
  end.

Fixpoint into_map (members : list (list ascii * value))
  (m : gmap string (list (option LogLine)))
  : option (gmap string (list (option LogLine))) :=
  match members with
  | [] => Some m
  | (k, v) :: rest => s ← into_slice v; into_map rest (<[str k := s]> m)
  end.

(** [json.Unmarshal(data, &user)] for [user] a [*User] that is not nil.
    The outer [None] is an error; [Some None] is success with [user] set
    to nil, which is what the literal [null] does to a pointer. *)
Definition Unmarshal_User (data : string) (us : User)
  : option (option User) :=
  v ← parse (bytes data);
  match v with
  | JNull => Some None
  | JObject members => us' ← into_struct User_field members us; Some (Some us')
  | _ => None
  end.

(** [json.Unmarshal(data, &user.logs)]: an object adds its members to the
    map ([user.logs] is the empty map made just before); [null] sets the
    map to nil. *)
Definition Unmarshal_logs (data : string)
  (old : option (gmap string (list (option LogLine))))
  : option (option (gmap string (list (option LogLine)))) :=
  v ← parse (bytes data);
  match v with
  | JNull => Some None
  | JObject members => m ← into_map members (default ∅ old); Some (Some m)
  | _ => None
  end.

End codec.

(** ** The world outside the process *)

(** An item of the table without its hash key.  The four attributes are
    those [persist] writes; an item that lacks one is outside this model. *)
Record Item := mkItem {
  it_key : string;
  it_info : string;
  it_logs : string;
  it_enabled : string
}.

(** [rows] is the content of the table [tableName].  [faults] says for the
    coming requests to DynamoDB, in order, whether the request fails (a
    transport error, a rejected write, ...); past its end no request fails.
    [clock] holds the coming readings of the clock. *)
Record World := mkWorld {
  rows : gmap string Item;
  faults : list bool;
  clock : list Z
}.

(** A Go call either returns or panics (here: a nil pointer dereference
    or a write to a nil map). *)
Inductive outcome (A : Type) : Type :=
| Ret (a : A)
| Panic.
Arguments Ret {A} a.
Arguments Panic {A}.

Definition Op (A : Type) : Type := World -> outcome (A * World).

Definition ret {A : Type} (a : A) : Op A := fun w => Ret (a, w).
Definition panic {A : Type} : Op A := fun _ => Panic.
Definition bind {A B : Type} (m : Op A) (k : A -> Op B) : Op B :=
  fun w => match m w with
           | Ret (a, w') => k a w'
           | Panic => Panic
           end.

Declare Scope op_scope.
Delimit Scope op_scope with op.
Notation "x <~ m ;; k" := (bind m (fun x => k))
  (at level 100, m at next level, right associativity) : op_scope.
Local Open Scope op_scope.

(** Whether the request now sent to DynamoDB fails. *)
Definition failing (w : World) : bool := hd false (faults w).
Definition answered (w : World) : World :=
  mkWorld (rows w) (tl (faults w)) (clock w).
Definition request : Op bool := fun w => Ret (failing w, answered w).

Module dynamodb.

(** [table.GetItemConsistent(key, true)]: [None] is an error, which
    includes [ErrNotFound] for a key without item. *)
Definition GetItemConsistent (hashKey : string) : Op (option Item) :=
  failed <~ request ;;
  if failed : bool then ret None
  else fun w => Ret (rows w !! hashKey, w).

(** [table.PutItem(hashKey, "uid", attribs)]: the item replaces the one
    under this key; [false] is an error, and then nothing is written. *)
Definition PutItem (hashKey : string) (it : Item) : Op bool :=
  failed <~ request ;;
  if failed : bool then ret false
  else fun w => Ret (true, mkWorld (<[hashKey := it]> (rows w))
                                   (faults w) (clock w)).

(** [table.Scan(nil)]: every item with its key, or an error. *)
Definition Scan : Op (option (list (string * Item))) :=
  failed <~ request ;;
  if failed : bool then ret None
  else fun w => Ret (Some (map_to_list (rows w)), w).

End dynamodb.

Module time.

Definition int64 (z : Z) : Z := (z + 2 ^ 63) mod 2 ^ 64 - 2 ^ 63.

(** [time.Now().Unix()]. *)
Definition Now_Unix : Op Z :=
  fun w => Ret (int64 (hd 0 (clock w)),
                mkWorld (rows w) (faults w) (tl (clock w))).

End time.

(** ** The functions of the package *)

(** [GetModel] without the connection: the secret is the value of
    [PIT_SECRET] in the environment. *)
Definition GetModel (prefix PIT_SECRET : string) : Model :=
  mkModel prefix (bytes PIT_SECRET) (prefix +:+ "_" +:+ cTable).

Definition HashPassword (um : Model) (password : string) : string :=
  base64.EncodeToString
    (pbkdf2.Key (map b2z (bytes password)) (map b2z (secret um))
                4096 sha256.Size).

Definition persist (us : User) : Op bool :=
  let userJsonInfo := codec.Marshal_User us in
  let userJsonLogs := codec.Marshal_logs (logs us) in
  dynamodb.PutItem (uid us)
    (mkItem (key us) userJsonInfo userJsonLogs (Enabled us)).

(** The statements that [AdminGetUserInfoByID] and [GetRegisteredUsers]
    both run on an item: build the [User], then unmarshal [info] into
    [&user] and [logs] into [&user.logs].  [Ret None] is their
    [return nil]; when [info] leaves [user] nil, [&user.logs] panics. *)
Definition rehydrate (um : Model) (uid : string) (data : Item)
  : outcome (option User) :=
  let user := mkUser uid (it_key data) (it_enabled data) (Some ∅) 0 "" um in
  match codec.Unmarshal_User (it_info data) user with
  | None => Ret None
  | Some None => Panic
  | Some (Some user) =>
    match codec.Unmarshal_logs (it_logs data) (logs user) with
    | None => Ret None
    | Some l => Ret (Some (set_logs l user))
    end
  end.

Definition AdminGetUserInfoByID (um : Model) (uid : string)
  : Op (option User) :=
  res <~ dynamodb.GetItemConsistent uid ;;
  match res with
  | Some data =>
    fun w => match rehydrate um uid data with
             | Ret user => Ret (user, w)
             | Panic => Panic
             end
  | None => ret None
  end.

Inductive result : Type :=
| Ok (user : User)
| Err (msg : string).

Definition RegisterUserPlainKey (um : Model) (uid key ip : string)
  : Op result :=
  let uid := strings.Replace uid "+" "" (-1) in
  found <~ AdminGetUserInfoByID um uid ;;
  match found with
  | Some _ => ret (Err "Existing user account")
  | None =>
    now <~ time.Now_Unix ;;
    let user := mkUser uid key "1" (Some ∅) now ip um in
    ok <~ persist user ;;
    if ok : bool then ret (Ok user)
    else ret (Err "Error trying to store the user data")
  end.

Definition RegisterUser (um : Model) (uid key ip : string) : Op result :=
  RegisterUserPlainKey um uid (HashPassword um key) ip.

Definition GetUserInfo (um : Model) (uid password : string)
  : Op (option User) :=
  user <~ AdminGetUserInfoByID um uid ;;
  match user with
  | None => ret None
  | Some u =>
    if bool_decide (key u ≠ HashPassword um password)
       || bool_decide (Enabled u = "0")
    then ret None
    else ret (Some u)
  end.

(** The loop of [GetRegisteredUsers] over the scanned rows. *)
Fixpoint load_rows (um : Model) (rows : list (string * Item))
  (users : gmap string User) : outcome (option (gmap string User)) :=
  match rows with
  | [] => Ret (Some users)
  | (uid, row) :: rest =>
    match rehydrate um uid row with
    | Panic => Panic
    | Ret None => Ret None
    | Ret (Some user) => load_rows um rest (<[uid := user]> users)
    end
  end.

Definition GetRegisteredUsers (um : Model) : Op (option (gmap string User)) :=
  res <~ dynamodb.Scan ;;
  match res with
  | Some rows =>
    fun w => match load_rows um rows ∅ with
             | Ret users => Ret (users, w)
             | Panic => Panic
             end
  | None => ret None
  end.

(** The methods of [*User] return the state of the receiver after the call
    next to their result. *)
Definition DisableUser (us : User) : Op (User * bool) :=
  let us := set_Enabled "0" us in
  persisted <~ persist us ;; ret (us, persisted).

Definition EnableUser (us : User) : Op (User * bool) :=
  let us := set_Enabled "1" us in
  persisted <~ persist us ;; ret (us, persisted).

Definition UpdateUser (us : User) (key : string) : Op (User * bool) :=
  let us := set_key (HashPassword (md us) key) us in
  persisted <~ persist us ;; ret (us, persisted).

Definition AddActivityLog (us : User) (actionType desc ip : string)
  : Op (User * bool) :=
  match logs us with
  | None => panic
  | Some m =>
    let m := match m !! actionType with
             | Some _ => m
             | None => <[actionType := []]> m
             end in
    now <~ time.Now_Unix ;;
    let line := mkLogLine now ip actionType desc in
    let m := <[actionType := default [] (m !! actionType) ++ [Some line]]> m in
    let us := set_logs (Some m) us in
    persisted <~ persist us ;; ret (us, persisted)
  end.

Definition GetAllActivity (us : User)
  : option (gmap string (list (option LogLine))) :=
  logs us.

(** * Definitions for the statements *)

Import strconv json codec.

(** What may follow a value inside an array or an object, or at the end. *)
Definition delim (rest : list ascii) : Prop :=
  match rest with
  | [] => True
  | c :: _ => c = ","%char \/ c = "}"%char \/ c = "]"%char
  end.

(** What reading makes of a written value: the strings come back coerced to
    valid UTF-8. *)
Fixpoint coerce_value (v : value) : value :=
  match v with
  | JString s => JString (coerce s)
  | JArray elems => JArray (List.map coerce_value elems)
  | JObject members =>
    JObject (List.map (fun kv => (coerce kv.1, coerce_value kv.2)) members)
  | _ => v
  end.

(** The values [Marshal] writes here: their numbers are integers written by
    [FormatInt]. *)
Fixpoint written (v : value) : Prop :=
  match v with
  | JNumber lit => exists z, lit = strconv.FormatInt z
  | JArray elems => fold_right (fun x P => written x /\ P) True elems
  | JObject members => fold_right (fun kv P => written kv.2 /\ P) True members
  | _ => True
  end.

(** The fuel [parse_value] uses up on the text of a value. *)
Fixpoint fuel_of (v : value) : nat :=
  match v with
  | JArray elems => S (fold_right (fun x n => S (fuel_of x + n)) 0%nat elems)
  | JObject members =>
    S (fold_right (fun kv n => S (fuel_of kv.2 + n)) 0%nat members)
  | _ => 1
  end.

Fixpoint render_elems (l : list value) : list ascii :=
  match l with
  | [] => []
  | [x] => render x
  | x :: l' => render x ++ ","%char :: render_elems l'
  end.

Fixpoint render_members (l : list (list ascii * value)) : list ascii :=
  match l with
  | [] => []
  | [(k, x)] => appendString k ++ ":"%char :: render x
  | (k, x) :: l' =>
    appendString k ++ ":"%char :: render x ++ ","%char :: render_members l'
  end.

(** The first character of a written value. *)
Definition vstart (c : ascii) : bool :=
  negb (isSpace c) && negb (c =? "]")%char && negb (c =? "}")%char.

Definition written_elems (l : list value) : Prop :=
  fold_right (fun x P => written x /\ P) True l.
Definition written_members (l : list (list ascii * value)) : Prop :=
  fold_right (fun kv P => written kv.2 /\ P) True l.
Definition fuel_elems (l : list value) : nat :=
  fold_right (fun x n => S (fuel_of x + n)) 0%nat l.
Definition fuel_members (l : list (list ascii * value)) : nat :=
  fold_right (fun kv n => S (fuel_of kv.2 + n)) 0%nat l.

(** A string after [Marshal] and [Unmarshal]. *)
Definition cs (s : string) : string := str (coerce (bytes s)).

Definition int64_ok (z : Z) : Prop := strconv.minInt64 <= z <= strconv.maxInt64.

Definition utf8_ok (s : string) : Prop := utf8.ValidString s = true.

Definition coerce_line (l : LogLine) : LogLine :=
  mkLogLine (Ts l) (cs (Ip l)) (cs (LogType l)) (cs (Desc l)).

Definition coerce_ptr (p : option LogLine) : option LogLine :=
  coerce_line <$> p.

(** The fields of type [int64] hold an [int64]. *)
Definition ptr_wt (p : option LogLine) : Prop :=
  match p with
  | Some l => int64_ok (Ts l)
  | None => True
  end.

Definition logs_wt (m : option (gmap string (list (option LogLine)))) : Prop :=
  match m with
  | Some m => map_Forall (fun _ s => Forall ptr_wt s) m
  | None => True
  end.

Definition User_wt (us : User) : Prop :=
  int64_ok (RegTs us) /\ logs_wt (logs us).

(** The strings are valid UTF-8. *)
Definition ptr_utf8 (p : option LogLine) : Prop :=
  match p with
  | Some l => utf8_ok (Ip l) /\ utf8_ok (LogType l) /\ utf8_ok (Desc l)
  | None => True
  end.

Definition logs_utf8 (m : option (gmap string (list (option LogLine)))) : Prop :=
  match m with
  | Some m => map_Forall (fun k s => utf8_ok k /\ Forall ptr_utf8 s) m
  | None => True
  end.

Definition User_utf8 (us : User) : Prop :=
  utf8_ok (RegIp us) /\ logs_utf8 (logs us).

(** The map read from the members written for the entries [l], added to
    [m0]. *)
Definition reload_map (l : list (string * list (option LogLine)))
  (m0 : gmap string (list (option LogLine)))
  : gmap string (list (option LogLine)) :=
  foldl (fun m kv => <[cs kv.1 := coerce_ptr <$> kv.2]> m) m0 l.

Definition reload_logs (m : option (gmap string (list (option LogLine))))
  : option (gmap string (list (option LogLine))) :=
  match m with
  | Some m => Some (reload_map (merge_sort key_le (map_to_list m)) ∅)
  | None => None
  end.

(** The item [persist] writes for an account. *)
Definition item_of (us : User) : Item :=
  mkItem (key us) (codec.Marshal_User us) (codec.Marshal_logs (logs us))
         (Enabled us).

(** The account read back from the item [persist] wrote. *)
Definition reloaded (um : Model) (us : User) : User :=
  mkUser (uid us) (key us) (Enabled us) (reload_logs (logs us))
         (RegTs us) (cs (RegIp us)) um.

(** An item whose [info] is the literal [null] and whose flag is "0". *)
Definition null_off_row : Item := mkItem "k" "null" "{}" "0".

Definition ex_null_off : World := mkWorld {[ "u" := null_off_row ]} [] [].

Definition ex_um : Model := GetModel "pit" "secret".

Definition ex_row2 : Item := mkItem (HashPassword ex_um "pw") "{}" "{}" "2".

Definition ex_flag2 : World := mkWorld {[ "u" := ex_row2 ]} [] [].

Definition ex_user2 : User :=
  mkUser "u" (HashPassword ex_um "pw") "2" (Some ∅) 0 "" ex_um.

(** The account after [AddActivityLog]: one line more at the end of the
    sequence of its category. *)
Definition appended (us : User) (m : gmap string (list (option LogLine)))
  (line : LogLine) : User :=
  set_logs
    (Some (<[LogType line := default [] (m !! LogType line) ++ [Some line]]> m))
    us.

Definition ex_user : User :=
  mkUser "ab@x.com" "digest" "1"
         (Some {[ "account" := [Some (mkLogLine 5 "10.0.0.1" "account" "created")] ]})
         1700000000 "10.0.0.1" ex_um.
Definition ex_down : World := mkWorld ∅ [true] [1700000001].

(** Appending the entries [(desc, ip)] to one category, one call of
    [AddActivityLog] after the other; the result lists what the calls
    returned. *)
Fixpoint AddActivityLogs (us : User) (actionType : string)
  (entries : list (string * string)) : Op (User * list bool) :=
  match entries with
  | [] => ret (us, [])
  | (desc, ip) :: rest =>
    r <~ AddActivityLog us actionType desc ip ;;
    r' <~ AddActivityLogs r.1 actionType rest ;;
    ret (r'.1, r.2 :: r'.2)
  end.

(** The lines of a category. *)
Definition lines (us : User) (category : string) : list (option LogLine) :=
  default [] (logs us ≫= (fun m => m !! category)).

(** An account whose origin is the single byte 0xFF, which is no UTF-8. *)
Definition bad_ip : string := String "255"%char "".
Definition bad_user : User := mkUser "u" "k" "1" (Some ∅) 1 bad_ip ex_um.
Definition ex_up : World := mkWorld ∅ [] [1700000001; 1700000002].

Definition ex_entries : list (string * string) :=
  [("password changed", "10.0.0.2"); ("logged in", "10.0.0.3")].

Definition ex_run : outcome (User * list bool * World) :=
  AddActivityLogs ex_user "account" ex_entries ex_up.
Definition ex_user' : User :=
  match ex_run with Ret (r, _) => r.1 | Panic => ex_user end.
Definition ex_oks : list bool :=
  match ex_run with Ret (r, _) => r.2 | Panic => [] end.
Definition ex_w1 : World :=
  match ex_run with Ret (_, w) => w | Panic => ex_up end.
Definition ex_w2 : World :=
  match persist ex_user' ex_w1 with Ret (_, w) => w | Panic => ex_w1 end.

Definition ex_reg_user : User :=
  mkUser "ab@x.com" (HashPassword ex_um "pw1") "1" (Some ∅) 1700000001
         "10.0.0.1" ex_um.

Definition ex_reg_world : World :=
  mkWorld (<["ab@x.com" := item_of ex_reg_user]> ∅) [] [1700000002].

Definition ex_first : User :=
  mkUser "ab@x.com" "digest" "1" (Some ∅) 1700000001 "10.0.0.1" ex_um.

Definition ex_first_world : World :=
  mkWorld (<["ab@x.com" := item_of ex_first]> ∅) [] [1700000002].

(** A table that answers the two requests of a first registration and
    fails the read of a second. *)
Definition ex_flaky : World :=
  mkWorld ∅ [false; false; true] [1700000001; 1700000002].

Definition ex_overwriter : User :=
  mkUser "ab@x.com" "other" "1" (Some ∅) 1700000002 "10.9.9.9" ex_um.

Definition ex_pw_user : User :=
  mkUser "ab@x.com" (HashPassword ex_um "pw1") "1" (Some ∅) 1700000000
         "10.0.0.1" ex_um.

Definition ex_off : User := set_Enabled "0" ex_pw_user.

Definition ex_on : User := set_Enabled "1" ex_off.

Definition ex_off_world : World :=
  mkWorld (<["ab@x.com" := item_of ex_off]> ∅) [] [].

Definition ex_on_world : World :=
  mkWorld (<["ab@x.com" := item_of ex_on]> (<["ab@x.com" := item_of ex_off]> ∅))
          [] [].

(** The table with one record whose [info] is the JSON literal [null]. *)
Definition null_row : Item := mkItem "k" "null" "{}" "1".
Definition ex_null : World := mkWorld {[ "u" := null_row ]} [] [].


(** Known answers for the parts of the digest. *)
Definition zbytes (s : string) : list Z := b2z <$> bytes s.
Definition hexstring (l : list Z) : string :=
  str (concat ((fun b => [json.hexdigit (Z.shiftr b 4);
                          json.hexdigit (Z.land b 15)]) <$> l)).

(** * Definitions for the further properties *)

(** The table of [ex_first_world], with the coming request failing. *)
Definition ex_unreachable : World :=
  mkWorld (rows ex_first_world) [true] [1700000002].

Definition ex_bad_world : World :=
  mkWorld (<["u" := item_of bad_user]> ∅) [] [1700000001; 1700000002].

Definition ex_changed : User := set_key (HashPassword ex_um "pw2") ex_pw_user.

Definition ex_changed_world : World :=
  mkWorld (<["ab@x.com" := item_of ex_changed]> ∅) [] [].

Definition ex_listing : gmap string User :=
  match GetRegisteredUsers ex_um ex_first_world with
  | Ret (Some users, _) => users
  | _ => ∅
  end.

(** Every item is the one [persist] writes for some account. *)
Definition stored_by_persist (w : World) : Prop :=
  map_Forall
    (fun id row => exists us : User, User_wt us /\ uid us = id /\ row = item_of us)
    (rows w).

(** The text is the literal [null] between optional JSON spaces. *)
Definition is_null (text : string) : bool :=
  let s := skipSpace (bytes text) in
  bool_decide (take 4 s = bytes "null")
  && bool_decide (skipSpace (drop 4 s) = []).

Definition ex_null_logs : Item := mkItem "k" "{}" " null" "1".

Definition ex_nil_user : User := mkUser "u" "k" "1" None 0 "" ex_um.

(** Every line is there (no nil pointer) and is filed under its own
    type. *)
Definition logs_keyed (us : User) : Prop :=
  match logs us with
  | Some m =>
    map_Forall
      (fun k l =>
         Forall (fun p => exists line : LogLine,
                            p = Some line /\ LogType line = k) l) m
  | None => True
  end.

Definition ex_logged : User :=
  appended ex_user {[ "account" := [Some (mkLogLine 5 "10.0.0.1" "account" "created")] ]}
           (mkLogLine 1700000001 "10.0.0.2" "shards" "created shard").

Definition ex_stale_line : LogLine :=
  mkLogLine 1700000001 "10.0.0.2" "account" "logged in".

Definition ex_stale : User := appended ex_pw_user ∅ ex_stale_line.

Definition ex_off_again : World :=
  mkWorld (<["ab@x.com" := item_of ex_off]> ∅) [] [1700000001; 1700000002].

Definition ex_stale_world : World :=
  mkWorld (<["ab@x.com" := item_of ex_stale]>
             (<["ab@x.com" := item_of ex_off]> ∅))
          [] [1700000002].

(** [initTable] talks to the control plane of DynamoDB.  What it does is
    decided by what the calls return; the run below takes the coming
    replies of [DescribeTable] as a script and records the calls made.
    The result of [CreateTable] is only logged. *)
Inductive call : Type :=
| CDescribeTable
| CCreateTable
| CSleep.

(** What [DescribeTable] returns: the pointer [res], nil or a description
    with its [TableStatus], and whether [err] is not nil. *)
Record reply := mkReply {
  description : option string;
  failed : bool
}.

(** A run returns, panics on [res.TableStatus] of a nil [res], or is still
    polling when the script ends. *)
Inductive run : Type :=
| Returned (calls : list call)
| Panicked (calls : list call)
| Polling (calls : list call).

Definition calls_of (r : run) : list call :=
  match r with
  | Returned calls | Panicked calls | Polling calls => calls
  end.

(** The loop [for "ACTIVE" != res.TableStatus]: describe, log the status,
    sleep one second. *)
Fixpoint waitActive (res : option string) (script : list reply)
  (calls : list call) {struct script} : run :=
  match res with
  | None => Panicked calls
  | Some status =>
    if decide (status = "ACTIVE") then Returned calls
    else
      match script with
      | [] => Polling calls
      | r :: script =>
        match description r with
        | None => Panicked (calls ++ [CDescribeTable])
        | Some _ =>
          waitActive (description r) script (calls ++ [CDescribeTable; CSleep])
        end
      end
  end.

Definition initTable (script : list reply) : run :=
  match script with
  | [] => Polling []
  | r1 :: script =>
    if failed r1 then
      match script with
      | [] => Polling [CDescribeTable; CCreateTable]
      | r2 :: script =>
        waitActive (description r2) script
                   [CDescribeTable; CCreateTable; CDescribeTable]
      end
    else waitActive (description r1) script [CDescribeTable]
  end.

(** A table that exists and is not ready yet, and one that is. *)
Definition pending (r : reply) : Prop :=
  exists status : string, description r = Some status /\ status <> "ACTIVE".

Definition active (r : reply) : Prop := description r = Some "ACTIVE".

Definition polls (n : nat) : list call :=
  concat (replicate n [CDescribeTable; CSleep]).

Definition ex_creating : reply := mkReply (Some "CREATING") false.

Definition ex_active : reply := mkReply (Some "ACTIVE") false.

Definition ex_unreached : reply := mkReply None true.

(** A sequence of bytes after which validity is that of the rest. *)
Definition chunk (e : list ascii) : Prop :=
  forall rest : list ascii, utf8.Valid (e ++ rest) = utf8.Valid rest.

(** Every string of a value, the keys of its objects included, is valid. *)
Fixpoint value_utf8 (v : value) : Prop :=
  match v with
  | JString s => utf8.Valid s = true
  | JArray elems => fold_right (fun x P => value_utf8 x /\ P) True elems
  | JObject members =>
    fold_right
      (fun kv P => (utf8.Valid kv.1 = true /\ value_utf8 kv.2) /\ P)
      True members
  | _ => True
  end.

Definition elems_utf8 (l : list value) : Prop :=
  fold_right (fun x P => value_utf8 x /\ P) True l.

Definition members_utf8 (l : list (list ascii * value)) : Prop :=
  fold_right
    (fun kv P => (utf8.Valid kv.1 = true /\ value_utf8 kv.2) /\ P) True l.

(** A line with valid strings and an [int64] time stamp. *)
Definition line_ok (l : LogLine) : Prop :=
  ptr_utf8 (Some l) /\ ptr_wt (Some l).

(** An item written by another program: the name of the field in capitals
    and, for the origin, the byte 0xFF between quotes. *)
Definition ex_foreign : Item :=
  mkItem "k"
         (str (bytes "{" ++ [dquote] ++ bytes "REG_IP" ++ [dquote] ++ bytes ":"
               ++ [dquote; "255"%char; dquote] ++ bytes "}"))
         "{}" "1".

Definition ex_foreign_world : World := mkWorld {[ "u" := ex_foreign ]} [] [].

Definition ex_foreign_user : User :=
  mkUser "u" "k" "1" (Some ∅) 0
         (String "239"%char (String "191"%char (String "189"%char ""))) ex_um.

Definition ex_foreign_again : World :=
  mkWorld (<["u" := item_of ex_foreign_user]> (rows ex_foreign_world)) [] [].

Definition ex_second : User :=
  mkUser "cd@x.com" "other" "1" (Some ∅) 1700000002 "10.9.9.9" ex_um.

Definition ex_two_world : World :=
  mkWorld (<["cd@x.com" := item_of ex_second]> (rows ex_first_world)) [] [].

(** * Bytes *)

Lemma b2z_range (c : ascii) : 0 <= b2z c < 256.
Proof.
  unfold b2z. pose proof (N_ascii_bounded c) as H. lia.
Qed.

Lemma land_255 (z : Z) : 0 <= z < 256 -> Z.land z 255 = z.
Proof.
  intros H. change 255 with (Z.ones 8). rewrite Z.land_ones by lia.
  apply Z.mod_small. lia.
Qed.

Lemma z2b_b2z (c : ascii) : z2b (b2z c) = c.
Proof.
  unfold z2b. rewrite land_255 by apply b2z_range.
  unfold b2z. rewrite N2Z.id. apply ascii_N_embedding.
Qed.

Lemma b2z_z2b (z : Z) : 0 <= z < 256 -> b2z (z2b z) = z.
Proof.
  intros H. unfold z2b, b2z. rewrite land_255 by assumption.
  rewrite N_ascii_embedding by lia. lia.
Qed.

Lemma b2z_inj (c d : ascii) : b2z c = b2z d -> c = d.
Proof.
  intros H. rewrite <- (z2b_b2z c), <- (z2b_b2z d). congruence.
Qed.

Lemma ascii_eqb_b2z (c d : ascii) : (c =? d)%char = (b2z c =? b2z d).
Proof.
  destruct (Ascii.eqb_spec c d) as [->|Hne].
  - symmetry. apply Z.eqb_refl.
  - symmetry. apply Z.eqb_neq. intros H. apply Hne, b2z_inj, H.
Qed.

Lemma str_bytes (s : string) : str (bytes s) = s.
Proof. apply string_of_list_ascii_of_string. Qed.

Lemma bytes_str (l : list ascii) : bytes (str l) = l.
Proof. apply list_ascii_of_string_of_list_ascii. Qed.

(** Every byte is one of 256 constants: a property of bytes that computes
    is proved by running through them. *)
Lemma forall_byte (P : ascii -> bool) :
  forallb (fun n => P (ascii_of_nat n)) (seq 0 256) = true ->
  forall c, P c = true.
Proof.
  intros H c. rewrite forallb_forall in H.
  rewrite <- (ascii_nat_embedding c). apply H.
  apply in_seq. pose proof (nat_ascii_bounded c). lia.
Qed.

(** * UTF-8 *)

(** A sequence that decodes without error decodes the same in front of any
    other input. *)
Lemma DecodeRune_prefix (p rest : list ascii) (r : Z) (fuel_of : nat) :
  p <> [] ->
  utf8.DecodeRune p = (r, fuel_of) ->
  (r =? utf8.RuneError) && (fuel_of =? 1)%nat = false ->
  utf8.DecodeRune (take fuel_of p ++ rest) = (r, fuel_of) /\ (1 <= fuel_of <= length p)%nat.
Proof.
  unfold utf8.DecodeRune.
  destruct p as [|c0 p1]; [congruence|]. intros _.
  destruct (utf8.first (b2z c0)) as [[[sz lo] hi]|] eqn:F.
  2:{ intros [= <- <-] _. simpl. rewrite F. split; [reflexivity|lia]. }
  destruct p1 as [|c1 p2]; [intros [= <- <-]; discriminate|].
  destruct ((b2z c1 <? lo) || (hi <? b2z c1)) eqn:B1; [intros [= <- <-]; discriminate|].
  destruct (sz <=? 2)%nat eqn:S2.
  { intros [= <- <-] _. simpl. rewrite F, B1, S2. split; [reflexivity|lia]. }
  destruct p2 as [|c2 p3]; [intros [= <- <-]; discriminate|].
  destruct (negb (utf8.cont (b2z c2))) eqn:B2; [intros [= <- <-]; discriminate|].
  destruct (sz <=? 3)%nat eqn:S3.
  { intros [= <- <-] _. simpl. rewrite F, B1, S2, B2, S3. split; [reflexivity|lia]. }
  destruct p3 as [|c3 p4]; [intros [= <- <-]; discriminate|].
  destruct (negb (utf8.cont (b2z c3))) eqn:B3; [intros [= <- <-]; discriminate|].
  intros [= <- <-] _. simpl. rewrite F, B1, S2, B2, S3, B3. split; [reflexivity|lia].
Qed.

Lemma DecodeRune_size (p : list ascii) :
  p <> [] -> (1 <= (utf8.DecodeRune p).2 <= length p)%nat.
Proof.
  destruct p as [|c0 p1]; [congruence|]. intros _.
  unfold utf8.DecodeRune.
  repeat match goal with
  | |- context [match ?x with _ => _ end] => destruct x; simpl; try lia
  end.
Qed.

(** * String literals: what is written is read back *)

Lemma ascii_step (c : ascii) (rest : list ascii) :
  (b2z c <? utf8.RuneSelf) = true ->
  let e := if htmlSafe (b2z c) then [c] else escape c in
  unquote_step (e ++ rest) = Some ([c], rest)
  /\ (hd dquote e =? dquote)%char = false /\ e <> [].
Proof.
  destruct c as [[] [] [] [] [] [] [] []]; intros H;
    try (exfalso; vm_compute in H; discriminate H);
    (split; [reflexivity|split; [reflexivity|discriminate]]).
Qed.

Lemma drop_take_app {A} (n : nat) (l rest : list A) :
  (n <= length l)%nat -> drop n (take n l ++ rest) = rest.
Proof.
  intros H. rewrite drop_app_length'; [reflexivity|].
  rewrite length_take. lia.
Qed.

Lemma unquote_step_high (c : ascii) (l : list ascii) :
  (b2z c <? utf8.RuneSelf) = false ->
  unquote_step (c :: l) =
  let '(rr, fuel_of) := utf8.DecodeRune (c :: l) in
  Some (utf8.EncodeRune rr, drop fuel_of (c :: l)).
Proof.
  intros A. unfold unquote_step.
  assert (128 <= b2z c) as B by (apply Z.ltb_ge in A; exact A).
  assert ((c =? backslash)%char = false) as ->.
  { rewrite ascii_eqb_b2z. apply Z.eqb_neq. change (b2z backslash) with 92. lia. }
  assert ((c =? dquote)%char = false) as ->.
  { rewrite ascii_eqb_b2z. apply Z.eqb_neq. change (b2z dquote) with 34. lia. }
  assert ((b2z c <? 32) = false) as -> by (apply Z.ltb_ge; lia).
  rewrite A. reflexivity.
Qed.

Lemma step_sim (src rest : list ascii) :
  src <> [] ->
  exists e w src',
    appendString_step src = (e, src') /\ coerce_step src = (w, src')
    /\ (length src' < length src)%nat
    /\ e <> [] /\ (hd dquote e =? dquote)%char = false
    /\ unquote_step (e ++ rest) = Some (w, rest).
Proof.
  destruct src as [|c t]; [congruence|]. intros _.
  unfold appendString_step, coerce_step.
  destruct (b2z c <? utf8.RuneSelf) eqn:A.
  - destruct (ascii_step c rest A) as (H1 & H2 & H3).
    eexists _, _, _. repeat split; try eassumption. simpl. lia.
  - destruct (utf8.DecodeRune (c :: t)) as [r fuel_of] eqn:D.
    pose proof (DecodeRune_size (c :: t) ltac:(discriminate)) as Sz.
    rewrite D in Sz. simpl in Sz.
    assert (length (drop fuel_of (c :: t)) < length (c :: t))%nat as Hlen.
    { rewrite length_drop. simpl. lia. }
    destruct ((r =? utf8.RuneError) && (fuel_of =? 1)%nat) eqn:E.
    { apply andb_true_iff in E as [E1 E2]. apply Z.eqb_eq in E1. subst r.
      eexists _, _, _. repeat split; try eassumption; try discriminate. }
    destruct ((r =? 0x2028) || (r =? 0x2029)) eqn:L.
    { apply orb_true_iff in L as [L|L]; apply Z.eqb_eq in L; subst r;
        eexists _, _, _; repeat split; try eassumption; try discriminate. }
    destruct (DecodeRune_prefix (c :: t) rest r fuel_of ltac:(discriminate) D E)
      as [P _].
    assert (take fuel_of (c :: t) = c :: take (fuel_of - 1) t) as Tk.
    { destruct fuel_of; [lia|]. simpl. f_equal. f_equal. lia. }
    eexists _, _, _. repeat split; try eassumption.
    + rewrite Tk. discriminate.
    + rewrite Tk. simpl. rewrite ascii_eqb_b2z.
      apply Z.eqb_neq. change (b2z dquote) with 34.
      apply Z.ltb_ge in A. unfold utf8.RuneSelf in A. lia.
    + assert (drop fuel_of (take fuel_of (c :: t) ++ rest) = rest) as Dr
        by (apply drop_take_app; simpl; lia).
      revert P Dr. rewrite Tk.
      change ((c :: take (fuel_of - 1) t) ++ rest)
        with (c :: (take (fuel_of - 1) t ++ rest)).
      intros P Dr. rewrite unquote_step_high by assumption.
      rewrite P, Dr. reflexivity.
Qed.

Lemma unquote_appendString_loop (n : nat) :
  forall (src rest : list ascii) (fuel : nat),
    (length src <= n)%nat ->
    (length (appendString_loop n src) < fuel)%nat ->
    unquote fuel (appendString_loop n src ++ dquote :: rest)
    = Some (coerce_loop n src, rest).
Proof.
  induction n as [|n IH]; intros src rest fuel Hn Hf.
  - destruct src; [|simpl in Hn; lia]. simpl in *.
    destruct fuel; [lia|]. reflexivity.
  - destruct src as [|c t].
    { simpl in *. destruct fuel; [lia|]. reflexivity. }
    destruct (step_sim (c :: t) (appendString_loop n (drop 0 t) ++ dquote :: rest)
                ltac:(discriminate)) as (e & w & src' & E1 & E2 & L & Ne & Hd & U).
    clear U.
    destruct (step_sim (c :: t) (appendString_loop n src' ++ dquote :: rest)
                ltac:(discriminate)) as (e' & w' & src'' & E1' & E2' & _ & _ & _ & U).
    rewrite E1 in E1'. injection E1' as <- <-.
    rewrite E2 in E2'. injection E2' as <-.
    cbn [appendString_loop coerce_loop]. rewrite E1, E2.
    rewrite <- app_assoc.
    destruct fuel as [|fuel]; [lia|].
    destruct e as [|c0 e0]; [congruence|]. simpl in Hd.
    cbn [unquote app]. rewrite Hd.
    change (c0 :: e0 ++ appendString_loop n src' ++ dquote :: rest)
      with ((c0 :: e0) ++ appendString_loop n src' ++ dquote :: rest).
    rewrite U. cbn [mbind option_bind].
    rewrite IH.
    + reflexivity.
    + simpl in L, Hn. lia.
    + cbn [appendString_loop] in Hf. rewrite E1 in Hf.
      rewrite length_app in Hf. simpl in Hf. lia.
Qed.

Lemma unquote_appendString (s rest : list ascii) :
  unquote (length (appendString_loop (length s) s ++ dquote :: rest))
          (appendString_loop (length s) s ++ dquote :: rest)
  = Some (coerce s, rest).
Proof.
  apply unquote_appendString_loop; [lia|].
  rewrite length_app. simpl. lia.
Qed.

(** * UTF-8: decoding is undone by encoding *)

(** The masks and shifts of utf8.go as arithmetic. *)
Lemma lor_add (x y k : Z) :
  0 <= k -> 0 <= y < 2 ^ k -> x mod 2 ^ k = 0 -> Z.lor x y = x + y.
Proof.
  intros Hk Hy Hx.
  assert (Z.land x y = 0) as Hl.
  { apply Z.bits_inj'. intros n Hn. rewrite Z.land_spec, Z.bits_0.
    destruct (Z.lt_ge_cases n k) as [Hlt|Hge].
    - rewrite <- (Z.mod_pow2_bits_low x k n) by lia. rewrite Hx, Z.bits_0. reflexivity.
    - rewrite <- (Z.mod_small y (2 ^ k)) by lia.
      rewrite Z.mod_pow2_bits_high by lia. apply andb_false_r. }
  rewrite <- Z.lxor_lor by assumption. symmetry. apply Z.add_nocarry_lxor. assumption.
Qed.

Lemma land_low (x k : Z) : 0 <= k -> Z.land x (2 ^ k - 1) = x mod 2 ^ k.
Proof.
  intros Hk. replace (2 ^ k - 1) with (Z.ones k) by (rewrite Z.ones_equiv; lia).
  apply Z.land_ones. assumption.
Qed.

Ltac to_arith :=
  unfold utf8.maskx, utf8.mask2, utf8.mask3, utf8.mask4,
         utf8.tx, utf8.t2, utf8.t3, utf8.t4 in *;
  change 63 with (2 ^ 6 - 1) in *; change 31 with (2 ^ 5 - 1) in *;
  change 15 with (2 ^ 4 - 1) in *; change 7 with (2 ^ 3 - 1) in *;
  change 255 with (2 ^ 8 - 1) in *;
  rewrite ?land_low, ?Z.shiftl_mul_pow2, ?Z.shiftr_div_pow2 in * by lia.

Lemma rune2 (b0 b1 : Z) :
  0xC2 <= b0 < 0xE0 -> 0x80 <= b1 <= 0xBF ->
  Z.lor (Z.shiftl (Z.land b0 utf8.mask2) 6) (Z.land b1 utf8.maskx)
  = (b0 - 192) * 64 + (b1 - 128).
Proof.
  intros H0 H1. to_arith.
  rewrite (lor_add _ _ 6); [| lia | | ]; change (2 ^ 6) with 64; change (2 ^ 5) with 32;
    Z.div_mod_to_equations; lia.
Qed.

Lemma rune3 (b0 b1 b2 : Z) :
  0xE0 <= b0 < 0xF0 -> 0x80 <= b1 <= 0xBF -> 0x80 <= b2 <= 0xBF ->
  Z.lor (Z.lor (Z.shiftl (Z.land b0 utf8.mask3) 12)
               (Z.shiftl (Z.land b1 utf8.maskx) 6))
        (Z.land b2 utf8.maskx)
  = (b0 - 224) * 4096 + (b1 - 128) * 64 + (b2 - 128).
Proof.
  intros H0 H1 H2. to_arith.
  change (2 ^ 6) with 64; change (2 ^ 4) with 16; change (2 ^ 12) with 4096.
  rewrite (lor_add (b0 mod 16 * 4096) _ 12); [| lia | | ];
    change (2 ^ 12) with 4096; [| Z.div_mod_to_equations; lia ..].
  rewrite (lor_add _ _ 6); [| lia | | ]; change (2 ^ 6) with 64;
    Z.div_mod_to_equations; lia.
Qed.

Lemma rune4 (b0 b1 b2 b3 : Z) :
  0xF0 <= b0 < 0xF8 -> 0x80 <= b1 <= 0xBF -> 0x80 <= b2 <= 0xBF ->
  0x80 <= b3 <= 0xBF ->
  Z.lor (Z.lor (Z.lor (Z.shiftl (Z.land b0 utf8.mask4) 18)
                      (Z.shiftl (Z.land b1 utf8.maskx) 12))
               (Z.shiftl (Z.land b2 utf8.maskx) 6))
        (Z.land b3 utf8.maskx)
  = (b0 - 240) * 262144 + (b1 - 128) * 4096 + (b2 - 128) * 64 + (b3 - 128).
Proof.
  intros H0 H1 H2 H3. to_arith.
  change (2 ^ 6) with 64; change (2 ^ 3) with 8; change (2 ^ 12) with 4096;
    change (2 ^ 18) with 262144.
  rewrite (lor_add (b0 mod 8 * 262144) _ 18); [| lia | | ];
    change (2 ^ 18) with 262144; [| Z.div_mod_to_equations; lia ..].
  rewrite (lor_add _ (b2 mod 64 * 64) 12); [| lia | | ];
    change (2 ^ 12) with 4096; [| Z.div_mod_to_equations; lia ..].
  rewrite (lor_add _ _ 6); [| lia | | ]; change (2 ^ 6) with 64;
    Z.div_mod_to_equations; lia.
Qed.

Lemma enc2 (r : Z) :
  0x80 <= r <= 0x7FF ->
  utf8.EncodeRune r = [z2b (192 + r / 64); z2b (128 + r mod 64)].
Proof.
  intros H. unfold utf8.EncodeRune.
  destruct (Z.leb_spec r 127); [lia|]. destruct (Z.leb_spec r 2047); [|lia].
  to_arith. change (2 ^ 6) with 64. change (2 ^ 8) with 256.
  rewrite (lor_add 192 _ 6), (lor_add 128 _ 6);
    change (2 ^ 6) with 64; try (Z.div_mod_to_equations; lia).
  do 2 f_equal. f_equal. Z.div_mod_to_equations; lia.
Qed.

Lemma enc3 (r : Z) :
  0x800 <= r <= 0xFFFF -> ~ (0xD800 <= r <= 0xDFFF) ->
  utf8.EncodeRune r =
  [z2b (224 + r / 4096); z2b (128 + (r / 64) mod 64); z2b (128 + r mod 64)].
Proof.
  intros H Hs. unfold utf8.EncodeRune.
  destruct (Z.leb_spec r 127); [lia|]. destruct (Z.leb_spec r 2047); [lia|].
  unfold utf8.MaxRune, utf8.surrogateMin, utf8.surrogateMax.
  destruct (Z.ltb_spec 1114111 r); [lia|].
  assert ((55296 <=? r) && (r <=? 57343) = false) as ->.
  { apply andb_false_iff. destruct (Z.leb_spec 55296 r); [|auto].
    right. apply Z.leb_gt. lia. }
  simpl orb. cbv iota. destruct (Z.leb_spec r 65535); [|lia].
  to_arith. change (2 ^ 6) with 64. change (2 ^ 8) with 256. change (2 ^ 12) with 4096.
  rewrite (lor_add 224 _ 5), !(lor_add 128 _ 6);
    change (2 ^ 6) with 64; change (2 ^ 5) with 32; try (Z.div_mod_to_equations; lia).
  do 2 f_equal. f_equal. Z.div_mod_to_equations; lia.
Qed.

Lemma enc4 (r : Z) :
  0x10000 <= r <= 0x10FFFF ->
  utf8.EncodeRune r =
  [z2b (240 + r / 262144); z2b (128 + (r / 4096) mod 64);
   z2b (128 + (r / 64) mod 64); z2b (128 + r mod 64)].
Proof.
  intros H. unfold utf8.EncodeRune.
  destruct (Z.leb_spec r 127); [lia|]. destruct (Z.leb_spec r 2047); [lia|].
  unfold utf8.MaxRune, utf8.surrogateMin, utf8.surrogateMax.
  destruct (Z.ltb_spec 1114111 r); [lia|].
  assert ((55296 <=? r) && (r <=? 57343) = false) as ->.
  { apply andb_false_iff. right. apply Z.leb_gt. lia. }
  simpl orb. cbv iota. destruct (Z.leb_spec r 65535); [lia|].
  to_arith. change (2 ^ 6) with 64. change (2 ^ 8) with 256. change (2 ^ 12) with 4096.
  change (2 ^ 18) with 262144.
  rewrite (lor_add 240 _ 4), !(lor_add 128 _ 6);
    change (2 ^ 6) with 64; change (2 ^ 4) with 16; try (Z.div_mod_to_equations; lia).
  do 2 f_equal. f_equal. Z.div_mod_to_equations; lia.
Qed.

Lemma z2b_eq (z : Z) (c : ascii) : z = b2z c -> z2b z = c.
Proof. intros ->. apply z2b_b2z. Qed.

Lemma first_cases (p0 : Z) (sz : nat) (lo hi : Z) :
  utf8.first p0 = Some (sz, lo, hi) ->
  0x80 <= lo /\ hi <= 0xBF /\
  ((sz = 2%nat /\ 0xC2 <= p0 < 0xE0)
   \/ (sz = 3%nat /\ 0xE0 <= p0 < 0xF0 /\ (p0 = 0xE0 -> 0xA0 <= lo)
       /\ (p0 = 0xED -> hi <= 0x9F))
   \/ (sz = 4%nat /\ 0xF0 <= p0 <= 0xF4 /\ (p0 = 0xF0 -> 0x90 <= lo)
       /\ (p0 = 0xF4 -> hi <= 0x8F))).
Proof.
  unfold utf8.first, utf8.locb, utf8.hicb.
  repeat match goal with
  | |- context [if ?a <? ?b then _ else _] => destruct (Z.ltb_spec a b)
  | |- context [if ?a =? ?b then _ else _] => destruct (Z.eqb_spec a b)
  end; intros [= <- <- <-]; lia.
Qed.

Lemma EncodeRune_DecodeRune (c : ascii) (t : list ascii) (r : Z) (fuel_of : nat) :
  (b2z c <? utf8.RuneSelf) = false ->
  utf8.DecodeRune (c :: t) = (r, fuel_of) ->
  (r =? utf8.RuneError) && (fuel_of =? 1)%nat = false ->
  utf8.EncodeRune r = take fuel_of (c :: t).
Proof.
  intros A. apply Z.ltb_ge in A. unfold utf8.RuneSelf in A.
  unfold utf8.DecodeRune.
  destruct (utf8.first (b2z c)) as [[[sz lo] hi]|] eqn:F.
  2:{ destruct (Z.ltb_spec (b2z c) utf8.RuneSelf) as [H|H];
        [unfold utf8.RuneSelf in H; lia|].
      intros [= <- <-]. discriminate. }
  apply first_cases in F as (Hlo & Hhi & F).
  destruct t as [|c1 t1]; [intros [= <- <-]; discriminate|].
  destruct (Z.ltb_spec (b2z c1) lo); [intros [= <- <-]; discriminate|].
  destruct (Z.ltb_spec hi (b2z c1)); [intros [= <- <-]; discriminate|].
  simpl orb. cbv iota.
  pose proof (b2z_range c) as R0. pose proof (b2z_range c1) as R1.
  destruct (sz <=? 2)%nat eqn:S2.
  { apply Nat.leb_le in S2.
    destruct F as [[-> F]|[[-> _]|[-> _]]]; try lia.
    intros [= <- <-] _. rewrite rune2 by lia. rewrite enc2 by lia.
    simpl take. repeat f_equal; apply z2b_eq; Z.div_mod_to_equations; lia. }
  apply Nat.leb_gt in S2.
  destruct t1 as [|c2 t2]; [intros [= <- <-]; discriminate|].
  unfold utf8.cont, utf8.locb, utf8.hicb.
  pose proof (b2z_range c2) as R2.
  destruct (Z.leb_spec 128 (b2z c2)); [|intros [= <- <-]; discriminate].
  destruct (Z.leb_spec (b2z c2) 191); [|intros [= <- <-]; discriminate].
  simpl negb. cbv iota.
  destruct (sz <=? 3)%nat eqn:S3.
  { apply Nat.leb_le in S3.
    destruct F as [[-> F]|[[-> (F & Fa & Fb)]|[-> _]]]; try lia.
    intros [= <- <-] _. rewrite rune3 by lia.
    rewrite enc3; [| Z.div_mod_to_equations; lia | Z.div_mod_to_equations; lia].
    simpl take. repeat f_equal; apply z2b_eq; Z.div_mod_to_equations; lia. }
  apply Nat.leb_gt in S3.
  destruct t2 as [|c3 t3]; [intros [= <- <-]; discriminate|].
  pose proof (b2z_range c3) as R3.
  destruct (Z.leb_spec 128 (b2z c3)); [|intros [= <- <-]; discriminate].
  destruct (Z.leb_spec (b2z c3) 191); [|intros [= <- <-]; discriminate].
  simpl negb. cbv iota.
  destruct F as [[-> F]|[[-> _]|[-> (F & Fa & Fb)]]]; try lia.
  intros [= <- <-] _. rewrite rune4 by lia.
  rewrite enc4 by (Z.div_mod_to_equations; lia).
  simpl take. repeat f_equal; apply z2b_eq; Z.div_mod_to_equations; lia.
Qed.

Lemma coerce_loop_valid (n : nat) :
  forall s : list ascii,
    (length s <= n)%nat -> utf8.Valid_loop n s = true -> coerce_loop n s = s.
Proof.
  induction n as [|n IH]; intros s Hn Hv.
  - destruct s; [reflexivity|simpl in Hn; lia].
  - destruct s as [|c t]; [reflexivity|].
    cbn [coerce_loop coerce_step utf8.Valid_loop] in *.
    destruct (b2z c <? utf8.RuneSelf) eqn:A.
    + simpl. f_equal. apply IH; [simpl in Hn; lia|assumption].
    + destruct (utf8.DecodeRune (c :: t)) as [r fuel_of] eqn:D.
      destruct ((r =? utf8.RuneError) && (fuel_of =? 1)%nat) eqn:E; [discriminate|].
      pose proof (DecodeRune_size (c :: t) ltac:(discriminate)) as Sz.
      rewrite D in Sz. simpl in Sz.
      rewrite (EncodeRune_DecodeRune c t r fuel_of A D E).
      rewrite IH; [apply take_drop| |assumption].
      rewrite length_drop. simpl in *. lia.
Qed.

Lemma coerce_valid (s : list ascii) : utf8.Valid s = true -> coerce s = s.
Proof. apply coerce_loop_valid. lia. Qed.

(** * Numbers: what FormatInt writes is read back *)

Lemma digit_spec (d : Z) :
  0 <= d < 10 -> b2z (digit d) = 48 + d /\ isDigit (digit d) = true.
Proof.
  intros H. unfold digit, isDigit. rewrite b2z_z2b by lia. split; [reflexivity|].
  apply andb_true_iff. split; apply Z.leb_le; lia.
Qed.

Lemma isDigit_spec (c : ascii) : isDigit c = true <-> 48 <= b2z c <= 57.
Proof.
  unfold isDigit. rewrite andb_true_iff, !Z.leb_le. reflexivity.
Qed.

Lemma parse_digits_app (l : list ascii) (d : ascii) (acc n : Z) :
  parse_digits acc l = Some n -> isDigit d = true ->
  parse_digits acc (l ++ [d]) = Some (n * 10 + (b2z d - 48)).
Proof.
  revert acc. induction l as [|c l IH]; intros acc; simpl.
  - intros [= ->] ->. reflexivity.
  - destruct (isDigit c); [|discriminate]. apply IH.
Qed.

(** The digits written for [n]: they are digits, the first is not a zero
    unless [n] is zero, and their value is [n]. *)
Lemma digits_rev_spec (fuel : nat) :
  forall n : Z,
    1 <= n < 2 ^ Z.of_nat fuel ->
    exists d ds,
      rev (digits_rev fuel n) = d :: ds
      /\ 49 <= b2z d <= 57 /\ Forall (fun c => isDigit c = true) ds
      /\ parse_digits 0 (d :: ds) = Some n.
Proof.
  induction fuel as [|fuel IH]; intros n Hn.
  - simpl in Hn. lia.
  - cbn [digits_rev].
    assert (0 <= n mod 10 < 10) as Hm by (apply Z.mod_pos_bound; lia).
    destruct (digit_spec (n mod 10) Hm) as [Hb Hd].
    destruct (Z.ltb_spec n 10) as [Hlt|Hge].
    + exists (digit (n mod 10)), []. rewrite Z.mod_small in * by lia.
      simpl. rewrite Hd, Hb. repeat split; try lia; [constructor|].
      f_equal. lia.
    + destruct (IH (n / 10)) as (d & ds & E & Hd1 & Hds & Hp).
      { rewrite Nat2Z.inj_succ, Z.pow_succ_r in Hn by lia.
        split; [apply Z.div_le_lower_bound; lia|].
        apply Z.div_lt_upper_bound; lia. }
      exists d, (ds ++ [digit (n mod 10)]).
      simpl rev. rewrite E. split; [reflexivity|]. split; [assumption|].
      split; [apply Forall_app; split; [assumption|repeat constructor; assumption]|].
      change (d :: ds ++ [digit (n mod 10)]) with ((d :: ds) ++ [digit (n mod 10)]).
      rewrite (parse_digits_app _ _ _ _ Hp Hd). f_equal.
      rewrite Hb. pose proof (Z.div_mod n 10). lia.
Qed.

Lemma FormatUint_spec (n : Z) :
  0 <= n ->
  exists d ds,
    FormatUint n = d :: ds
    /\ 48 <= b2z d <= 57 /\ (b2z d = 48 -> ds = [])
    /\ Forall (fun c => isDigit c = true) ds
    /\ parse_digits 0 (d :: ds) = Some n.
Proof.
  intros Hn. destruct (Z.eq_dec n 0) as [->|Hne].
  - exists "0"%char, []. repeat split; try (vm_compute; congruence); constructor.
  - unfold FormatUint.
    destruct (digits_rev_spec (S (Z.to_nat (Z.log2 n))) n) as (d & ds & E & Hd & Hds & Hp).
    { split; [lia|]. rewrite Nat2Z.inj_succ, Z2Nat.id by apply Z.log2_nonneg.
      apply Z.log2_spec. lia. }
    exists d, ds. repeat split; try assumption; lia.
Qed.

Lemma ParseInt_FormatInt (z : Z) :
  minInt64 <= z <= maxInt64 -> ParseInt (FormatInt z) = Some z.
Proof.
  intros Hz. unfold FormatInt, ParseInt.
  assert (forall x, minInt64 <= x <= maxInt64 ->
            (minInt64 <=? x) && (x <=? maxInt64) = true) as Hc.
  { intros x Hx. apply andb_true_iff. split; apply Z.leb_le; lia. }
  destruct (Z.ltb_spec z 0) as [Hneg|Hpos].
  - destruct (FormatUint_spec (- z)) as (d & ds & E & Hd & _ & _ & Hp); [lia|].
    rewrite E. change (("-" =? "-")%char) with true. cbv iota.
    unfold ParseUint. rewrite Hp. simpl. rewrite Z.opp_involutive, Hc by assumption.
    reflexivity.
  - destruct (FormatUint_spec z) as (d & ds & E & Hd & _ & _ & Hp); [lia|].
    rewrite E. rewrite !ascii_eqb_b2z.
    change (b2z "-") with 45. change (b2z "+") with 43.
    destruct (Z.eqb_spec (b2z d) 45); [lia|]. destruct (Z.eqb_spec (b2z d) 43); [lia|].
    unfold ParseUint. rewrite Hp. simpl. rewrite Hc by assumption. reflexivity.
Qed.

Lemma span_digits_app (ds rest : list ascii) :
  Forall (fun c => isDigit c = true) ds -> delim rest ->
  span_digits (ds ++ rest) = (ds, rest).
Proof.
  intros Hds Hr. induction Hds as [|c ds Hc _ IH]; simpl.
  - destruct rest as [|c r]; [reflexivity|]. simpl in Hr.
    destruct Hr as [->|[->| ->]]; reflexivity.
  - rewrite Hc, IH. reflexivity.
Qed.

Lemma scan_number_digits (d : ascii) (ds rest sign : list ascii) :
  48 <= b2z d <= 57 -> (b2z d = 48 -> ds = []) ->
  Forall (fun c => isDigit c = true) ds -> delim rest ->
  ('(int, s2) ← scan_int (d :: ds ++ rest);
   '(frac, s3) ← scan_frac s2;
   '(exp, s4) ← scan_exp s3;
   Some (sign ++ int ++ frac ++ exp, s4))
  = Some (sign ++ d :: ds, rest).
Proof.
  intros Hd H0 Hds Hr.
  assert (scan_int (d :: ds ++ rest) = Some (d :: ds, rest)) as ->.
  { unfold scan_int. rewrite ascii_eqb_b2z. change (b2z "0") with 48.
    destruct (Z.eqb_spec (b2z d) 48) as [E|E].
    - rewrite (H0 E). reflexivity.
    - assert (isDigit d = true) as -> by (apply isDigit_spec; lia).
      rewrite span_digits_app by assumption. reflexivity. }
  cbn [mbind option_bind].
  destruct rest as [|c r]; cbn [mbind option_bind scan_frac scan_exp].
  - rewrite !app_nil_r. reflexivity.
  - simpl in Hr. destruct Hr as [->|[->| ->]]; cbn; rewrite !app_nil_r; reflexivity.
Qed.

Lemma scan_number_FormatInt (z : Z) (rest : list ascii) :
  delim rest ->
  scan_number (FormatInt z ++ rest) = Some (FormatInt z, rest).
Proof.
  intros Hr. unfold FormatInt.
  destruct (Z.ltb_spec z 0) as [Hneg|Hpos].
  - destruct (FormatUint_spec (- z)) as (d & ds & E & Hd & H0 & Hds & _); [lia|].
    rewrite E. unfold scan_number.
    change (("-"%char :: d :: ds) ++ rest) with ("-"%char :: (d :: ds ++ rest)).
    change (("-" =? "-")%char) with true. cbv iota beta.
    apply (scan_number_digits d ds rest ["-"%char]); assumption.
  - destruct (FormatUint_spec z) as (d & ds & E & Hd & H0 & Hds & _); [lia|].
    rewrite E. unfold scan_number.
    change ((d :: ds) ++ rest) with (d :: (ds ++ rest)). cbv iota beta.
    rewrite (ascii_eqb_b2z d "-"). change (b2z "-") with 45.
    destruct (Z.eqb_spec (b2z d) 45); [lia|].
    apply (scan_number_digits d ds rest []); assumption.
Qed.

(** * JSON texts: what render writes, parse reads *)

Lemma render_array (l : list value) :
  render (JArray l) = "["%char :: render_elems l ++ ["]"%char].
Proof. reflexivity. Qed.

Lemma render_object (l : list (list ascii * value)) :
  render (JObject l) = "{"%char :: render_members l ++ ["}"%char].
Proof. reflexivity. Qed.

Lemma FormatInt_head (z : Z) :
  exists c t, strconv.FormatInt z = c :: t
              /\ (b2z c = 45 \/ 48 <= b2z c <= 57).
Proof.
  unfold strconv.FormatInt. destruct (Z.ltb_spec z 0).
  - eexists _, _. split; [reflexivity|]. left. reflexivity.
  - destruct (FormatUint_spec z) as (d & ds & E & Hd & _); [assumption|].
    exists d, ds. split; [assumption|]. right. assumption.
Qed.

Lemma vstart_spec (c : ascii) :
  vstart c = true ->
  isSpace c = false /\ (c =? "]")%char = false /\ (c =? "}")%char = false.
Proof.
  unfold vstart. rewrite !andb_true_iff, !negb_true_iff. tauto.
Qed.

Lemma vstart_b2z (c : ascii) :
  b2z c <> 32 -> b2z c <> 9 -> b2z c <> 13 -> b2z c <> 10 ->
  b2z c <> 93 -> b2z c <> 125 -> vstart c = true.
Proof.
  intros. unfold vstart, isSpace. rewrite !ascii_eqb_b2z.
  change (b2z " ") with 32. change (b2z "009") with 9.
  change (b2z "013") with 13. change (b2z "010") with 10.
  change (b2z "]") with 93. change (b2z "}") with 125.
  repeat match goal with
  | |- context [?a =? ?b] => destruct (Z.eqb_spec a b); [lia|]
  end. reflexivity.
Qed.

Lemma render_head (v : value) :
  written v -> exists c t, render v = c :: t /\ vstart c = true.
Proof.
  destruct v as [|[]|lit|s|l|l]; intros W.
  - eexists _, _. split; reflexivity.
  - eexists _, _. split; reflexivity.
  - eexists _, _. split; reflexivity.
  - destruct W as [z ->]. destruct (FormatInt_head z) as (c & t & E & Hc).
    exists c, t. split; [exact E|]. apply vstart_b2z; lia.
  - eexists _, _. split; reflexivity.
  - rewrite render_array. eexists _, _. split; reflexivity.
  - rewrite render_object. eexists _, _. split; reflexivity.
Qed.

Lemma skipSpace_head (c : ascii) (t : list ascii) :
  isSpace c = false -> skipSpace (c :: t) = c :: t.
Proof. intros H. simpl. rewrite H. reflexivity. Qed.

Lemma parse_value_number (fuel : nat) (z : Z) (rest : list ascii) :
  delim rest ->
  parse_value (S fuel) (strconv.FormatInt z ++ rest)
  = Some (JNumber (strconv.FormatInt z), rest).
Proof.
  intros Hr. pose proof (scan_number_FormatInt z rest Hr) as Sc.
  destruct (FormatInt_head z) as (c & t & E & Hc).
  rewrite E in *. cbn [parse_value app].
  rewrite !ascii_eqb_b2z.
  change (b2z "{") with 123. change (b2z "[") with 91.
  change (b2z dquote) with 34. change (b2z "t") with 116.
  change (b2z "f") with 102. change (b2z "n") with 110.
  repeat match goal with
  | |- context [?a =? ?b] => destruct (Z.eqb_spec a b); [lia|]
  end.
  change (c :: t ++ rest) with ((c :: t) ++ rest). rewrite Sc. reflexivity.
Qed.

Lemma render_elems_head (l : list value) :
  l <> [] -> written_elems l ->
  exists c t, render_elems l = c :: t /\ vstart c = true.
Proof.
  destruct l as [|x l]; [congruence|]. intros _ [W _].
  destruct (render_head x W) as (c & t & E & V).
  destruct l; cbn [render_elems]; rewrite E; eexists _, _; split;
    try reflexivity; assumption.
Qed.

Lemma render_members_head (l : list (list ascii * value)) :
  l <> [] -> exists t, render_members l = dquote :: t.
Proof.
  destruct l as [|[k x] l]; [congruence|]. intros _.
  destruct l; cbn [render_members]; unfold appendString; eexists; reflexivity.
Qed.

Lemma delim_cons (c : ascii) (t : list ascii) :
  c = ","%char \/ c = "}"%char \/ c = "]"%char -> delim (c :: t).
Proof. intros H. exact H. Qed.

Lemma parse_render (n : nat) :
  (forall v rest, written v -> (fuel_of v <= n)%nat -> delim rest ->
     parse_value n (render v ++ rest) = Some (coerce_value v, rest))
  /\ (forall l rest, l <> [] -> written_elems l -> (fuel_elems l <= n)%nat ->
        parse_elements n (render_elems l ++ "]"%char :: rest)
        = Some (List.map coerce_value l, rest))
  /\ (forall l rest, l <> [] -> written_members l -> (fuel_members l <= n)%nat ->
        parse_members n (render_members l ++ "}"%char :: rest)
        = Some (List.map (fun kv => (coerce kv.1, coerce_value kv.2)) l, rest)).
Proof.
  induction n as [|n (IHv & IHe & IHm)].
  { split; [|split].
    - intros v rest _ Hs. destruct v; simpl in Hs; lia.
    - intros [|x l] rest Hne _ Hs; [congruence|]. simpl in Hs. lia.
    - intros [|x l] rest Hne _ Hs; [congruence|]. simpl in Hs. lia. }
  split; [|split].
  - intros v rest W Hs Hr. destruct v as [|[]|lit|s|l|l].
    + reflexivity.
    + reflexivity.
    + reflexivity.
    + destruct W as [z ->]. apply parse_value_number. assumption.
    + cbn [render coerce_value]. unfold appendString.
      cbn [app]. rewrite <- app_assoc. cbn [app].
      cbn [parse_value].
      change (("034" =? "{")%char) with false.
      change (("034" =? "[")%char) with false.
      change ((dquote =? "{")%char) with false.
      change ((dquote =? "[")%char) with false.
      change ((dquote =? dquote)%char) with true. cbv iota.
      rewrite unquote_appendString. reflexivity.
    + rewrite render_array. cbn [coerce_value app]. rewrite <- app_assoc. cbn [app].
      cbn [parse_value].
      change (("[" =? "{")%char) with false. change (("[" =? "[")%char) with true.
      cbv iota.
      destruct l as [|x l].
      { reflexivity. }
      destruct (render_elems_head (x :: l) ltac:(discriminate) W) as (c & t & E & V).
      apply vstart_spec in V as (V1 & V2 & V3).
      rewrite E. cbn [app]. rewrite skipSpace_head by assumption.
      rewrite V2. change (c :: t ++ "]"%char :: rest) with ((c :: t) ++ "]"%char :: rest).
      rewrite <- E. rewrite IHe; [reflexivity|discriminate|assumption|].
      change (fuel_of (JArray (x :: l))) with (S (fuel_elems (x :: l))) in Hs. lia.
    + rewrite render_object. cbn [coerce_value app]. rewrite <- app_assoc. cbn [app].
      cbn [parse_value].
      change (("{" =? "{")%char) with true. cbv iota.
      destruct l as [|x l].
      { reflexivity. }
      destruct (render_members_head (x :: l) ltac:(discriminate)) as (t & E).
      rewrite E. cbn [app]. rewrite skipSpace_head by reflexivity.
      change ((dquote =? "}")%char) with false. cbv iota.
      change (dquote :: t ++ "}"%char :: rest) with ((dquote :: t) ++ "}"%char :: rest).
      rewrite <- E. rewrite IHm; [reflexivity|discriminate|assumption|].
      change (fuel_of (JObject (x :: l))) with (S (fuel_members (x :: l))) in Hs. lia.
  - intros [|x l] rest Hne W Hs; [congruence|].
    change (written x /\ written_elems l) in W. destruct W as [Wx Wl].
    cbn [parse_elements]. cbn [fuel_elems fold_right] in Hs.
    destruct l as [|y l].
    + cbn [render_elems]. rewrite IHv; [|assumption|lia|apply delim_cons; auto].
      reflexivity.
    + change (render_elems (x :: y :: l))
        with (render x ++ ","%char :: render_elems (y :: l)).
      rewrite <- app_assoc. cbn [app].
      rewrite IHv; [|assumption|lia|apply delim_cons; auto].
      cbn [mbind option_bind].
      rewrite skipSpace_head by reflexivity.
      change (("," =? ",")%char) with true. cbv iota.
      destruct (render_elems_head (y :: l) ltac:(discriminate) Wl) as (c & t & E & V).
      apply vstart_spec in V as (V1 & V2 & V3).
      rewrite E. cbn [app]. rewrite skipSpace_head by assumption.
      change (c :: t ++ "]"%char :: rest) with ((c :: t) ++ "]"%char :: rest).
      rewrite <- E. rewrite IHe; [reflexivity|discriminate|assumption|].
      change (fuel_elems (y :: l)) with (fold_right (fun x n => S (fuel_of x + n)) 0%nat (y :: l)).
      lia.
  - intros [|[k x] l] rest Hne W Hs; [congruence|].
    change (written x /\ written_members l) in W. destruct W as [Wx Wl].
    cbn [fuel_members fold_right snd] in Hs.
    assert (forall tail, delim tail ->
              parse_members (S n) (appendString k ++ ":"%char :: render x ++ tail)
              = match skipSpace tail with
                | c3 :: r3 =>
                  if (c3 =? ",")%char then
                    '(ms, r4) ← parse_members n (skipSpace r3);
                    Some ((coerce k, coerce_value x) :: ms, r4)
                  else if (c3 =? "}")%char then Some ([(coerce k, coerce_value x)], r3)
                  else None
                | [] => None
                end) as Hkey.
    { intros tail Ht. unfold appendString. cbn [app]. rewrite <- app_assoc. cbn [app].
      cbn [parse_members].
      change ((dquote =? dquote)%char) with true. cbv iota.
      rewrite unquote_appendString. cbn [mbind option_bind].
      rewrite skipSpace_head by reflexivity.
      change ((":" =? ":")%char) with true. cbv iota.
      destruct (render_head x Wx) as (c & t & E & V).
      apply vstart_spec in V as (V1 & V2 & V3).
      rewrite E. cbn [app]. rewrite skipSpace_head by assumption.
      change (c :: t ++ tail) with ((c :: t) ++ tail). rewrite <- E.
      rewrite IHv; [|assumption|lia|assumption]. reflexivity. }
    destruct l as [|y l].
    + cbn [render_members]. rewrite <- app_assoc. cbn [app].
      rewrite Hkey by (apply delim_cons; auto). reflexivity.
    + change (render_members ((k, x) :: y :: l))
        with (appendString k ++ ":"%char :: render x ++ ","%char :: render_members (y :: l)).
      rewrite <- app_assoc. cbn [app]. rewrite <- app_assoc. cbn [app].
      rewrite Hkey by (apply delim_cons; auto).
      rewrite skipSpace_head by reflexivity.
      change (("," =? ",")%char) with true. cbv iota.
      destruct (render_members_head (y :: l) ltac:(discriminate)) as (t & E).
      rewrite E. cbn [app]. rewrite skipSpace_head by reflexivity.
      change (dquote :: t ++ "}"%char :: rest) with ((dquote :: t) ++ "}"%char :: rest).
      rewrite <- E. rewrite IHm; [reflexivity|discriminate|assumption|].
      change (fuel_members (y :: l)) with (fold_right (fun kv n => S (fuel_of kv.2 + n)) 0%nat (y :: l)).
      lia.
Qed.

Lemma value_induction (P : value -> Prop) :
  P JNull -> (forall b, P (JBool b)) -> (forall lit, P (JNumber lit)) ->
  (forall s, P (JString s)) ->
  (forall l, Forall P l -> P (JArray l)) ->
  (forall l, Forall (fun kv => P kv.2) l -> P (JObject l)) ->
  forall v, P v.
Proof.
  intros Hn Hb Hnum Hs Ha Ho.
  fix IH 1. intros [| b | lit | s | l | l].
  - apply Hn.
  - apply Hb.
  - apply Hnum.
  - apply Hs.
  - apply Ha. induction l as [|x l IHl]; constructor; [apply IH|apply IHl].
  - apply Ho. induction l as [|[k x] l IHl]; constructor; [apply IH|apply IHl].
Qed.

Lemma fuel_le_length (v : value) :
  written v -> (fuel_of v <= length (render v))%nat.
Proof.
  induction v as [| b | lit | s | l IH | l IH] using value_induction; intros W.
  - simpl. lia.
  - destruct b; simpl; lia.
  - destruct W as [z ->]. destruct (FormatInt_head z) as (c & t & -> & _).
    simpl. lia.
  - simpl. lia.
  - rewrite render_array. change (fuel_of (JArray l)) with (S (fuel_elems l)).
    cbn [length]. rewrite length_app. cbn [length].
    enough (fuel_elems l <= length (render_elems l) + 1)%nat by lia.
    change (written_elems l) in W.
    induction IH as [|x l Hx Hl IHl]; [simpl; lia|].
    destruct W as [Wx Wl]. specialize (Hx Wx). specialize (IHl Wl).
    destruct l as [|y l].
    + simpl. lia.
    + change (render_elems (x :: y :: l))
        with (render x ++ ","%char :: render_elems (y :: l)).
      rewrite length_app. cbn [length].
      change (fuel_elems (x :: y :: l)) with (S (fuel_of x + fuel_elems (y :: l))).
      lia.
  - rewrite render_object. change (fuel_of (JObject l)) with (S (fuel_members l)).
    cbn [length]. rewrite length_app. cbn [length].
    enough (fuel_members l <= length (render_members l) + 1)%nat by lia.
    change (written_members l) in W.
    induction IH as [|[k x] l Hx Hl IHl]; [simpl; lia|].
    destruct W as [Wx Wl]. specialize (Hx Wx). specialize (IHl Wl).
    simpl in Hx.
    destruct l as [|y l].
    + cbn [render_members]. rewrite length_app. simpl. lia.
    + change (render_members ((k, x) :: y :: l))
        with (appendString k ++ ":"%char :: render x ++ ","%char :: render_members (y :: l)).
      rewrite length_app. cbn [length]. rewrite length_app. cbn [length].
      change (fuel_members ((k, x) :: y :: l)) with (S (fuel_of x + fuel_members (y :: l))).
      lia.
Qed.

(** [Unmarshal] reads the text [Marshal] wrote, with its strings coerced. *)
Lemma parse_render_written (v : value) :
  written v -> parse (render v) = Some (coerce_value v).
Proof.
  intros W. unfold parse.
  destruct (render_head v W) as (c & t & E & V).
  apply vstart_spec in V as (V1 & _).
  rewrite E, skipSpace_head by assumption. rewrite <- E.
  rewrite <- (app_nil_r (render v)) at 2.
  destruct (parse_render (S (length (render v)))) as (Hv & _).
  rewrite Hv; [reflexivity|assumption| |exact I].
  pose proof (fuel_le_length v W). lia.
Qed.

(** * The two stored types: what Marshal writes, Unmarshal reads *)

Lemma cs_valid (s : string) : utf8_ok s -> cs s = s.
Proof.
  intros H. unfold cs. rewrite coerce_valid by exact H. apply str_bytes.
Qed.

Lemma coerce_ptr_valid (p : option LogLine) : ptr_utf8 p -> coerce_ptr p = p.
Proof.
  destruct p as [[t i y d]|]; [|reflexivity]. simpl. intros (H1 & H2 & H3).
  unfold coerce_line. simpl. rewrite !cs_valid by assumption. reflexivity.
Qed.

(** Field names. *)
Lemma names_facts :
  names (bytes "reg_ts") "reg_ts" = true
  /\ names (bytes "reg_ip") "reg_ts" = false
  /\ names (bytes "reg_ip") "reg_ip" = true
  /\ names (bytes "ts") "ts" = true
  /\ names (bytes "ip") "ts" = false /\ names (bytes "ip") "ip" = true
  /\ names (bytes "type") "ts" = false /\ names (bytes "type") "ip" = false
  /\ names (bytes "type") "type" = true
  /\ names (bytes "desc") "ts" = false /\ names (bytes "desc") "ip" = false
  /\ names (bytes "desc") "type" = false /\ names (bytes "desc") "desc" = true.
Proof. vm_compute. repeat split. Qed.

Lemma Unmarshal_User_Marshal (us u0 : User) :
  int64_ok (RegTs us) ->
  Unmarshal_User (Marshal_User us) u0
  = Some (Some (set_RegIp (cs (RegIp us)) (set_RegTs (RegTs us) u0))).
Proof.
  intros Hts. unfold Unmarshal_User, Marshal_User. rewrite bytes_str.
  rewrite parse_render_written by (simpl; eauto).
  cbn [mbind option_bind User_json coerce_value List.map fst snd].
  change (coerce (bytes "reg_ts")) with (bytes "reg_ts").
  change (coerce (bytes "reg_ip")) with (bytes "reg_ip").
  destruct names_facts as (N1 & N2 & N3 & _).
  cbn [into_struct]. unfold User_field. rewrite N1, N2, N3.
  cbn [into_int64]. rewrite ParseInt_FormatInt by exact Hts.
  reflexivity.
Qed.

Lemma into_ptr_written (p : option LogLine) :
  ptr_wt p ->
  into_ptr (coerce_value (ptr_json p)) = Some (coerce_ptr p).
Proof.
  destruct p as [l|]; [|reflexivity]. intros Hts. simpl in Hts.
  cbn [ptr_json LogLine_json coerce_value List.map fst snd into_ptr].
  change (coerce (bytes "ts")) with (bytes "ts").
  change (coerce (bytes "ip")) with (bytes "ip").
  change (coerce (bytes "type")) with (bytes "type").
  change (coerce (bytes "desc")) with (bytes "desc").
  destruct names_facts as (_ & _ & _ & N1 & N2 & N3 & N4 & N5 & N6 & N7 & N8 & N9 & N10).
  cbn [into_struct]. unfold LogLine_field.
  rewrite N1, N2, N3, N4, N5, N6, N7, N8, N9, N10.
  cbn [into_int64]. rewrite ParseInt_FormatInt by exact Hts.
  reflexivity.
Qed.

Lemma into_slice_written (s : list (option LogLine)) :
  Forall ptr_wt s ->
  into_slice (coerce_value (slice_json s)) = Some (coerce_ptr <$> s).
Proof.
  intros H. unfold slice_json. cbn [coerce_value into_slice].
  apply mapM_Some_2.
  induction H as [|p s Hp Hs IH]; [constructor|].
  cbn [List.map fmap list_fmap]. constructor; [|exact IH].
  apply into_ptr_written, Hp.
Qed.

Lemma into_map_written (l : list (string * list (option LogLine))) :
  Forall (fun kv => Forall ptr_wt kv.2) l ->
  forall m0,
    into_map (List.map (fun kv => (coerce kv.1, coerce_value kv.2))
                (List.map (fun kv => (bytes kv.1, slice_json kv.2)) l)) m0
    = Some (reload_map l m0).
Proof.
  induction 1 as [|[k s] l Hs Hl IH]; intros m0; [reflexivity|].
  cbn [List.map into_map fst snd].
  rewrite into_slice_written by exact Hs. cbn [mbind option_bind].
  rewrite IH. reflexivity.
Qed.

Lemma written_logs_members (l : list (string * list (option LogLine))) :
  written_members (List.map (fun kv => (bytes kv.1, slice_json kv.2)) l).
Proof.
  induction l as [|[k s] l IH]; [exact I|]. split; [|exact IH].
  cbn [snd slice_json written]. clear IH.
  induction s as [|[x|] s IH]; [exact I| |]; (split; [|exact IH]).
  - repeat split. eexists. reflexivity.
  - exact I.
Qed.

Lemma Unmarshal_logs_Marshal (m : option (gmap string (list (option LogLine)))) :
  logs_wt m ->
  Unmarshal_logs (Marshal_logs m) (Some ∅) = Some (reload_logs m).
Proof.
  intros W. unfold Unmarshal_logs, Marshal_logs. rewrite bytes_str.
  destruct m as [m|]; [|reflexivity].
  cbn [logs_json]. rewrite parse_render_written by apply written_logs_members.
  cbn [mbind option_bind coerce_value default].
  rewrite into_map_written; [reflexivity|].
  simpl in W. apply Forall_forall. intros [k s] Hin. simpl.
  apply (W k). apply elem_of_map_to_list.
  pose proof (merge_sort_Permutation key_le (map_to_list m)) as Hp.
  rewrite <- Hp. exact Hin.
Qed.

Lemma foldl_insert_lookup {A} (l : list (string * A)) :
  NoDup l.*1 ->
  forall (m0 : gmap string A) (k : string),
    foldl (fun m kv => <[kv.1 := kv.2]> m) m0 l !! k
    = match (list_to_map l : gmap string A) !! k with
      | Some v => Some v
      | None => m0 !! k
      end.
Proof.
  induction l as [|[k0 v0] l IH]; intros Hnd m0 k.
  - simpl. rewrite lookup_empty. reflexivity.
  - cbn [fmap list_fmap fst] in Hnd. apply NoDup_cons in Hnd as [Hk0 Hnd].
    cbn [foldl fst snd list_to_map foldr]. rewrite IH by exact Hnd.
    destruct (decide (k = k0)) as [->|Hne].
    + rewrite !lookup_insert_eq, (not_elem_of_list_to_map_1 _ _ Hk0).
      reflexivity.
    + rewrite !lookup_insert_ne by congruence. reflexivity.
Qed.

Lemma foldl_insert_list_to_map {A} (l : list (string * A)) :
  NoDup l.*1 ->
  foldl (fun m kv => <[kv.1 := kv.2]> m) (∅ : gmap string A) l = list_to_map l.
Proof.
  intros Hnd. apply map_eq. intros k. rewrite foldl_insert_lookup by exact Hnd.
  destruct (_ !! k); [reflexivity|apply lookup_empty].
Qed.

Lemma reload_logs_valid (m : option (gmap string (list (option LogLine)))) :
  logs_utf8 m -> reload_logs m = m.
Proof.
  destruct m as [m|]; [|reflexivity]. intros V. simpl in V. simpl. f_equal.
  set (l := merge_sort key_le (map_to_list m)).
  assert (l ≡ₚ map_to_list m) as Hp by apply merge_sort_Permutation.
  assert (reload_map l ∅ = foldl (fun m kv => <[kv.1 := kv.2]> m) ∅ l) as ->.
  { unfold reload_map. generalize (∅ : gmap string (list (option LogLine))).
    assert (Forall (fun kv => utf8_ok kv.1 /\ Forall ptr_utf8 kv.2) l) as Hl.
    { apply Forall_forall. intros [k s] Hin. simpl. apply (V k s).
      apply elem_of_map_to_list. rewrite <- Hp. exact Hin. }
    clear Hp. clearbody l.
    induction Hl as [|[k s] l [Hk Hs] _ IH]; intros m0; [reflexivity|].
    cbn [fst snd] in Hk, Hs.
    cbn [foldl fst snd]. rewrite cs_valid by exact Hk.
    assert (coerce_ptr <$> s = s) as ->.
    { clear -Hs. induction Hs as [|p s' Hp' _ IH']; [reflexivity|].
      cbn [fmap list_fmap]. rewrite coerce_ptr_valid by exact Hp'.
      f_equal. exact IH'. }
    apply IH. }
  rewrite foldl_insert_list_to_map.
  - transitivity (list_to_map (map_to_list m) : gmap string (list (option LogLine)));
      [|apply list_to_map_to_list].
    apply list_to_map_proper; [|exact Hp].
    rewrite Hp. apply NoDup_fst_map_to_list.
  - rewrite Hp. apply NoDup_fst_map_to_list.
Qed.

(** * The store, request by request *)

Lemma GetItemConsistent_eq (hashKey : string) (w : World) :
  dynamodb.GetItemConsistent hashKey w =
  Ret (if failing w then None else rows w !! hashKey, answered w).
Proof.
  unfold dynamodb.GetItemConsistent, bind, request, ret.
  destruct (failing w); reflexivity.
Qed.

Lemma persist_eq (us : User) (w : World) :
  persist us w =
  Ret (negb (failing w),
       mkWorld (if failing w then rows w else <[uid us := item_of us]> (rows w))
               (tl (faults w)) (clock w)).
Proof.
  unfold persist, dynamodb.PutItem, bind, request, ret.
  destruct (failing w); reflexivity.
Qed.

Lemma AdminGetUserInfoByID_eq (um : Model) (uid : string) (w : World) :
  AdminGetUserInfoByID um uid w =
  if failing w then Ret (None, answered w)
  else match rows w !! uid with
       | None => Ret (None, answered w)
       | Some data =>
         match rehydrate um uid data with
         | Ret user => Ret (user, answered w)
         | Panic => Panic
         end
       end.
Proof.
  unfold AdminGetUserInfoByID, bind. rewrite GetItemConsistent_eq.
  destruct (failing w); [reflexivity|].
  destruct (rows w !! uid); reflexivity.
Qed.

Lemma GetUserInfo_eq (um : Model) (uid password : string) (w : World) :
  GetUserInfo um uid password w =
  match AdminGetUserInfoByID um uid w with
  | Ret (Some u, w') =>
    if bool_decide (key u = HashPassword um password /\ Enabled u <> "0")
    then Ret (Some u, w') else Ret (None, w')
  | Ret (None, w') => Ret (None, w')
  | Panic => Panic
  end.
Proof.
  unfold GetUserInfo, bind.
  destruct (AdminGetUserInfoByID um uid w) as [[[u|] w']|]; try reflexivity.
  unfold ret. repeat case_bool_decide; simpl; try reflexivity; tauto.
Qed.

(** [Unmarshal] into [&user] touches [RegTs] and [RegIp] only. *)
Lemma into_struct_User_fields (members : list (list ascii * json.value)) :
  forall u0 u1 : User,
    codec.into_struct codec.User_field members u0 = Some u1 ->
    uid u1 = uid u0 /\ key u1 = key u0 /\ Enabled u1 = Enabled u0
    /\ logs u1 = logs u0 /\ md u1 = md u0.
Proof.
  induction members as [|[k v] ms IH]; intros u0 u1 E; simpl in E.
  - injection E as ->. auto.
  - destruct (codec.User_field u0 k v) as [u'|] eqn:F; simpl in E; [|discriminate].
    apply IH in E.
    assert (uid u' = uid u0 /\ key u' = key u0 /\ Enabled u' = Enabled u0
            /\ logs u' = logs u0 /\ md u' = md u0) as H'.
    { unfold codec.User_field in F.
      repeat match type of F with
      | (if ?b then _ else _) = _ => destruct b
      | (mbind _ ?o) = _ => destruct o; simpl in F; try discriminate
      | Some _ = Some _ => injection F as <-
      end; simpl; auto. }
    intuition congruence.
Qed.

(** What [rehydrate] copies from the item and its arguments. *)
Lemma rehydrate_fields (um : Model) (id : string) (data : Item) (u : User) :
  rehydrate um id data = Ret (Some u) ->
  uid u = id /\ key u = it_key data /\ Enabled u = it_enabled data /\ md u = um.
Proof.
  unfold rehydrate.
  destruct (codec.Unmarshal_User _ _) as [[u1|]|] eqn:E1; try discriminate.
  destruct (codec.Unmarshal_logs _ _) as [l|] eqn:E2; try discriminate.
  intros [= <-]. simpl.
  unfold codec.Unmarshal_User in E1.
  destruct (json.parse _) as [v|]; simpl in E1; try discriminate.
  destruct v; try discriminate.
  destruct (codec.into_struct _ _ _) as [u2|] eqn:E3; simpl in E1; try discriminate.
  injection E1 as ->.
  apply into_struct_User_fields in E3. simpl in E3. tauto.
Qed.

Lemma rehydrate_item_of (um : Model) (us : User) :
  User_wt us ->
  rehydrate um (uid us) (item_of us) = Ret (Some (reloaded um us)).
Proof.
  intros [Wt Wl]. unfold rehydrate, item_of. cbn [it_info it_logs it_key it_enabled].
  rewrite Unmarshal_User_Marshal by exact Wt.
  cbn [logs set_RegIp set_RegTs].
  rewrite Unmarshal_logs_Marshal by exact Wl. reflexivity.
Qed.

Lemma reloaded_valid (us : User) :
  User_utf8 us -> reloaded (md us) us = us.
Proof.
  intros [V1 V2]. unfold reloaded.
  rewrite reload_logs_valid by exact V2. rewrite cs_valid by exact V1.
  destruct us; reflexivity.
Qed.

Lemma int64_range (z : Z) : int64_ok (time.int64 z).
Proof.
  unfold int64_ok, time.int64, strconv.minInt64, strconv.maxInt64.
  pose proof (Z.mod_pos_bound (z + 2 ^ 63) (2 ^ 64) ltac:(lia)). lia.
Qed.

(** * The account store *)

(** ** Authentication *)

Lemma GetUserInfo_table (um : Model) (uid password : string) (w : World) :
  GetUserInfo um uid password w =
  if failing w then Ret (None, answered w)
  else match rows w !! uid with
       | None => Ret (None, answered w)
       | Some data =>
         match rehydrate um uid data with
         | Panic => Panic
         | Ret None => Ret (None, answered w)
         | Ret (Some u) =>
           if bool_decide (it_key data = HashPassword um password
                           /\ it_enabled data <> "0")
           then Ret (Some u, answered w) else Ret (None, answered w)
         end
       end.
Proof.
  rewrite GetUserInfo_eq, AdminGetUserInfoByID_eq.
  destruct (failing w); [reflexivity|].
  destruct (rows w !! uid) as [data|]; [|reflexivity].
  destruct (rehydrate um uid data) as [[u|]|] eqn:H; try reflexivity.
  destruct (rehydrate_fields um uid data u H) as (_ & -> & -> & _).
  reflexivity.
Qed.

Lemma GetUserInfo_Some (um : Model) (uid password : string) (w w' : World)
  (u : User) :
  GetUserInfo um uid password w = Ret (Some u, w') <->
  failing w = false /\ w' = answered w /\
  exists data,
    rows w !! uid = Some data /\ rehydrate um uid data = Ret (Some u)
    /\ it_key data = HashPassword um password /\ it_enabled data <> "0".
Proof.
  rewrite GetUserInfo_table. split.
  - destruct (failing w); [discriminate|].
    destruct (rows w !! uid) as [data|]; [|discriminate].
    destruct (rehydrate um uid data) as [[u0|]|] eqn:H; try discriminate.
    case_bool_decide as D; [|discriminate].
    intros [= <- <-]. repeat split. exists data. tauto.
  - intros (-> & -> & data & -> & -> & K & E).
    rewrite bool_decide_true by tauto. reflexivity.
Qed.

Lemma GetUserInfo_None (um : Model) (uid password : string) (w w' : World) :
  GetUserInfo um uid password w = Ret (None, w') <->
  w' = answered w /\
  (failing w = true \/ rows w !! uid = None \/
   exists data,
     rows w !! uid = Some data /\
     (rehydrate um uid data = Ret None \/
      exists u, rehydrate um uid data = Ret (Some u) /\
                (it_key data <> HashPassword um password
                 \/ it_enabled data = "0"))).
Proof.
  rewrite GetUserInfo_table. split.
  - destruct (failing w); [intros [= <-]; auto|].
    destruct (rows w !! uid) as [data|]; [|intros [= <-]; auto].
    destruct (rehydrate um uid data) as [[u0|]|] eqn:H; try discriminate.
    + case_bool_decide as D; [discriminate|].
      intros [= <-]. split; [reflexivity|]. right. right. exists data.
      split; [reflexivity|]. right. exists u0. split; [exact H|].
      destruct (decide (it_key data = HashPassword um password)); [|tauto].
      destruct (decide (it_enabled data = "0")); tauto.
    + intros [= <-]. split; [reflexivity|]. right. right. exists data. auto.
  - intros [-> [F|[R|(data & R & [H|(u & H & D)])]]].
    + rewrite F. reflexivity.
    + destruct (failing w); [reflexivity|]. rewrite R. reflexivity.
    + destruct (failing w); [reflexivity|]. rewrite R, H. reflexivity.
    + destruct (failing w); [reflexivity|]. rewrite R, H.
      rewrite bool_decide_false by tauto. reflexivity.
Qed.

(** The runs of [GetUserInfo] that return.  It returns the account when,
    and only when, the read of the item under the raw uid is answered, the
    item is there and rehydrates to the account, the stored digest is
    [HashPassword] of the password, and the stored flag is not "0".  In
    every other case in which it returns, it returns nil, whatever the
    reason. *)
Theorem GetUserInfo_when_it_returns (um : Model) (uid password : string)
  (w : World) :
  (forall u w',
     GetUserInfo um uid password w = Ret (Some u, w') <->
     failing w = false /\ w' = answered w /\
     exists data,
       rows w !! uid = Some data /\ rehydrate um uid data = Ret (Some u)
       /\ it_key data = HashPassword um password /\ it_enabled data <> "0")
  /\ (forall w',
        GetUserInfo um uid password w = Ret (None, w') <->
        w' = answered w /\
        (failing w = true \/ rows w !! uid = None \/
         exists data,
           rows w !! uid = Some data /\
           (rehydrate um uid data = Ret None \/
            exists u, rehydrate um uid data = Ret (Some u) /\
                      (it_key data <> HashPassword um password
                       \/ it_enabled data = "0")))).
Proof.
  split; [intros u w'; apply GetUserInfo_Some|intros w'; apply GetUserInfo_None].
Qed.

(** C1, at the failing input.  The claim has [GetUserInfo] return nil
    whenever one of its conditions fails.  On an item whose [info] is the
    JSON literal [null], whatever its key, logs and flag and whatever the
    password, [GetUserInfo] does not return: [AdminGetUserInfoByID] leaves
    [user] nil after the first [Unmarshal] and dereferences it.  So it is
    for the account of [ex_null_off], which is there and is disabled. *)
Theorem C1_null_info_panics (um : Model) (id password k l e : string)
  (fs : list bool) (cl : list Z) :
  GetUserInfo um id password
    (mkWorld {[ id := mkItem k "null" l e ]} (false :: fs) cl) = Panic
  /\ rows ex_null_off !! "u" = Some null_off_row
  /\ it_enabled null_off_row = "0"
  /\ GetUserInfo ex_um "u" "pw" ex_null_off = Panic.
Proof.
  split; [|split; [reflexivity|split; [reflexivity|]]].
  - rewrite GetUserInfo_table. cbn [failing faults hd rows].
    rewrite lookup_singleton_eq. reflexivity.
  - rewrite GetUserInfo_table. reflexivity.
Qed.

(** C9. Only the flag "0" blocks: when the read is answered with an item
    that rehydrates, whose digest is that of the password and whose stored
    flag is any string other than "0" (the empty string, "2", ...),
    [GetUserInfo] returns the account, with that flag. *)
Theorem C9_only_zero_disables (um : Model) (uid password : string)
  (w : World) (data : Item) (u : User) :
  failing w = false ->
  rows w !! uid = Some data ->
  rehydrate um uid data = Ret (Some u) ->
  it_key data = HashPassword um password ->
  it_enabled data <> "0" ->
  GetUserInfo um uid password w = Ret (Some u, answered w)
  /\ Enabled u = it_enabled data.
Proof.
  intros F R H K E. split.
  - apply GetUserInfo_Some. eauto 10.
  - apply (rehydrate_fields um uid data u H).
Qed.

(** A row with a given digest and flag and well-formed JSON. *)
Lemma rehydrate_plain (um : Model) (id k e : string) :
  rehydrate um id (mkItem k "{}" "{}" e)
  = Ret (Some (mkUser id k e (Some ∅) 0 "" um)).
Proof. reflexivity. Qed.

(** An item with the flag "2". *)
Lemma C9_witness :
  GetUserInfo ex_um "u" "pw" ex_flag2 = Ret (Some ex_user2, answered ex_flag2)
  /\ Enabled ex_user2 = it_enabled ex_row2.
Proof.
  apply (C9_only_zero_disables ex_um "u" "pw" ex_flag2 ex_row2 ex_user2).
  - reflexivity.
  - reflexivity.
  - apply rehydrate_plain.
  - reflexivity.
  - discriminate.
Defined.

Lemma AddActivityLog_eq (us : User) (m : gmap string (list (option LogLine)))
  (actionType desc ip : string) (w : World) :
  logs us = Some m ->
  AddActivityLog us actionType desc ip w =
  let line := mkLogLine (time.int64 (hd 0 (clock w))) ip actionType desc in
  let us' := appended us m line in
  Ret ((us', negb (failing w)),
       mkWorld (if failing w then rows w else <[uid us := item_of us']> (rows w))
               (tl (faults w)) (tl (clock w))).
Proof.
  intros L. unfold AddActivityLog. rewrite L.
  unfold bind, time.Now_Unix. rewrite persist_eq. unfold ret.
  cbn [rows faults clock]. unfold appended. cbn [LogType].
  assert (forall x : list (option LogLine) -> list (option LogLine),
            (let m1 := match m !! actionType with
                       | Some _ => m
                       | None => <[actionType := []]> m
                       end in
             <[actionType := x (default [] (m1 !! actionType))]> m1)
            = <[actionType := x (default [] (m !! actionType))]> m) as E.
  { intros x. cbv zeta. destruct (m !! actionType) as [l|] eqn:Hl.
    - rewrite Hl. reflexivity.
    - rewrite lookup_insert_eq, insert_insert_eq. reflexivity. }
  cbv zeta in E.
  rewrite (E (fun l => l ++ [Some (mkLogLine (time.int64 (hd 0 (clock w))) ip actionType desc)])).
  unfold failing. cbn [faults rows clock].
  destruct (hd false (faults w)); reflexivity.
Qed.



(** ** Registration *)

Lemma replace_loop_plus (fuel : nat) :
  forall (s : list ascii) (n : Z),
    n < 0 -> (length s <= fuel)%nat ->
    strings.replace_loop fuel s ["+"%char] [] n
    = filter (fun c => c <> "+"%char) s.
Proof.
  induction fuel as [|fuel IH]; intros s n Hn Hl.
  - destruct s; [reflexivity|simpl in Hl; lia].
  - cbn [strings.replace_loop]. destruct (Z.eqb_spec n 0); [lia|].
    destruct s as [|c t]; [reflexivity|].
    cbn [strings.HasPrefix length drop app].
    assert (strings.HasPrefix t [] = true) as -> by (destruct t; reflexivity).
    rewrite andb_true_r.
    rewrite filter_cons.
    destruct (Ascii.eqb_spec c "+") as [->|Hc].
    + rewrite decide_False by (intros H; apply H; reflexivity).
      apply IH; [lia|simpl in Hl; lia].
    + rewrite decide_True by exact Hc. f_equal.
      apply IH; [lia|simpl in Hl; lia].
Qed.

(** [strings.Replace(uid, "+", "", -1)] leaves out every '+' and nothing
    else. *)
Lemma Replace_plus (uid : string) :
  strings.Replace uid "+" "" (-1)
  = str (filter (fun c => c <> "+"%char) (bytes uid)).
Proof.
  unfold strings.Replace. rewrite decide_False by discriminate.
  change (bytes "+") with ["+"%char]. change (bytes "") with (@nil ascii).
  cbv iota. rewrite replace_loop_plus by lia. reflexivity.
Qed.

Lemma Replace_plus_idem (uid : string) :
  strings.Replace (strings.Replace uid "+" "" (-1)) "+" "" (-1)
  = strings.Replace uid "+" "" (-1).
Proof.
  rewrite !Replace_plus, bytes_str. f_equal.
  induction (bytes uid) as [|c l IH]; [reflexivity|].
  rewrite filter_cons. destruct (decide (c <> "+"%char)) as [H|H].
  - rewrite filter_cons, decide_True by exact H. f_equal. exact IH.
  - exact IH.
Qed.

Lemma RegisterUserPlainKey_eq (um : Model) (raw digest ip : string) (w : World) :
  RegisterUserPlainKey um raw digest ip w =
  let id := strings.Replace raw "+" "" (-1) in
  match AdminGetUserInfoByID um id w with
  | Panic => Panic
  | Ret (Some _, w1) => Ret (Err "Existing user account", w1)
  | Ret (None, w1) =>
    let user := mkUser id digest "1" (Some ∅) (time.int64 (hd 0 (clock w1))) ip um in
    let w2 := mkWorld (if failing w1 then rows w1
                       else <[id := item_of user]> (rows w1))
                      (tl (faults w1)) (tl (clock w1)) in
    if failing w1 then Ret (Err "Error trying to store the user data", w2)
    else Ret (Ok user, w2)
  end.
Proof.
  unfold RegisterUserPlainKey. cbv zeta. unfold bind at 1.
  destruct (AdminGetUserInfoByID um _ w) as [[[found|] w1]|]; try reflexivity.
  unfold bind, time.Now_Unix. rewrite persist_eq. unfold ret, failing.
  cbn [rows faults clock uid].
  destruct (hd false (faults w1)); reflexivity.
Qed.

(** C2. Registration strips every '+' from the uid first: the uniqueness
    check reads the stripped uid, and on success the account carries the
    stripped uid and is stored under it. *)
Theorem C2_registration_strips_plus (um : Model) (raw digest ip : string)
  (w : World) :
  let id := strings.Replace raw "+" "" (-1) in
  bytes id = filter (fun c => c <> "+"%char) (bytes raw)
  /\ RegisterUserPlainKey um raw digest ip w =
     match AdminGetUserInfoByID um id w with
     | Panic => Panic
     | Ret (Some _, w1) => Ret (Err "Existing user account", w1)
     | Ret (None, w1) =>
       let user :=
         mkUser id digest "1" (Some ∅) (time.int64 (hd 0 (clock w1))) ip um in
       if failing w1
       then Ret (Err "Error trying to store the user data",
                 mkWorld (rows w1) (tl (faults w1)) (tl (clock w1)))
       else Ret (Ok user,
                 mkWorld (<[id := item_of user]> (rows w1))
                         (tl (faults w1)) (tl (clock w1)))
     end
  /\ RegisterUser um raw digest ip w
     = RegisterUserPlainKey um raw (HashPassword um digest) ip w
  /\ RegisterUserPlainKey um id digest ip w = RegisterUserPlainKey um raw digest ip w.
Proof.
  cbv zeta. split; [|split; [|split]].
  - rewrite Replace_plus. apply bytes_str.
  - rewrite RegisterUserPlainKey_eq. cbv zeta.
    destruct (AdminGetUserInfoByID um _ w) as [[[found|] w1]|]; try reflexivity.
    destruct (failing w1); reflexivity.
  - reflexivity.
  - rewrite !RegisterUserPlainKey_eq. cbv zeta. rewrite Replace_plus_idem.
    reflexivity.
Qed.

Lemma AdminGetUserInfoByID_world (um : Model) (id : string) (w w' : World)
  (o : option User) :
  AdminGetUserInfoByID um id w = Ret (o, w') -> w' = answered w.
Proof.
  rewrite AdminGetUserInfoByID_eq.
  destruct (failing w); [intros [= _ <-]; reflexivity|].
  destruct (rows w !! id) as [data|]; [|intros [= _ <-]; reflexivity].
  destruct (rehydrate um id data); [|discriminate].
  intros [= _ <-]. reflexivity.
Qed.

(** The account registration makes, and the world it leaves. *)
Lemma RegisterUserPlainKey_Ok (um : Model) (raw digest ip : string)
  (w w1 : World) (u : User) :
  RegisterUserPlainKey um raw digest ip w = Ret (Ok u, w1) ->
  uid u = strings.Replace raw "+" "" (-1) /\ key u = digest
  /\ Enabled u = "1" /\ logs u = Some ∅
  /\ RegIp u = ip /\ md u = um /\ User_wt u
  /\ rows w1 = <[uid u := item_of u]> (rows w).
Proof.
  rewrite RegisterUserPlainKey_eq. cbv zeta.
  destruct (AdminGetUserInfoByID um _ w) as [[[found|] w0]|] eqn:A;
    try discriminate.
  apply AdminGetUserInfoByID_world in A. subst w0.
  destruct (failing (answered w)); [discriminate|].
  intros [= <- <-]. cbn. repeat split; try apply int64_range.
  apply map_Forall_empty.
Qed.

Lemma GetUserInfo_world (um : Model) (id password : string) (w w' : World)
  (o : option User) :
  GetUserInfo um id password w = Ret (o, w') -> w' = answered w.
Proof.
  rewrite GetUserInfo_eq.
  destruct (AdminGetUserInfoByID um id w) as [[[u|] w0]|] eqn:A; try discriminate.
  - apply AdminGetUserInfoByID_world in A. subst w0.
    destruct (bool_decide _); intros [= _ <-]; reflexivity.
  - apply AdminGetUserInfoByID_world in A. subst w0.
    intros [= _ <-]; reflexivity.
Qed.

(** Reading back what [persist] wrote. *)
Lemma AdminGetUserInfoByID_item_of (um : Model) (us : User) (w : World) :
  User_wt us -> failing w = false ->
  rows w !! uid us = Some (item_of us) ->
  AdminGetUserInfoByID um (uid us) w = Ret (Some (reloaded um us), answered w).
Proof.
  intros W F R. rewrite AdminGetUserInfoByID_eq, F, R.
  rewrite rehydrate_item_of by exact W. reflexivity.
Qed.

(** C3. After a registration, a registration of the same stripped uid
    whose uniqueness read is answered fails with the error of an existing
    account, and the table stays as it was: the first account's item is
    untouched. *)
Theorem C3_second_registration_fails (um : Model)
  (raw1 digest1 ip1 raw2 digest2 ip2 : string) (w0 w1 w : World) (u1 : User) :
  RegisterUserPlainKey um raw1 digest1 ip1 w0 = Ret (Ok u1, w1) ->
  strings.Replace raw2 "+" "" (-1) = strings.Replace raw1 "+" "" (-1) ->
  rows w !! uid u1 = rows w1 !! uid u1 ->
  failing w = false ->
  RegisterUserPlainKey um raw2 digest2 ip2 w
  = Ret (Err "Existing user account", answered w)
  /\ rows (answered w) = rows w
  /\ rows (answered w) !! uid u1 = Some (item_of u1).
Proof.
  intros R1 E Hw F.
  apply RegisterUserPlainKey_Ok in R1
    as (Hid & _ & _ & _ & _ & _ & Wt & Hrows).
  assert (rows w !! uid u1 = Some (item_of u1)) as Hrow.
  { rewrite Hw, Hrows. apply lookup_insert_eq. }
  split; [|split; [reflexivity|exact Hrow]].
  rewrite RegisterUserPlainKey_eq. cbv zeta. rewrite E, <- Hid.
  rewrite AdminGetUserInfoByID_item_of by assumption. reflexivity.
Qed.

(** ** Persist and reload *)

Lemma appended_spec (us : User) (m : gmap string (list (option LogLine)))
  (line : LogLine) :
  logs us = Some m -> User_wt us -> User_utf8 us ->
  int64_ok (Ts line) -> ptr_utf8 (Some line) -> utf8_ok (LogType line) ->
  let us' := appended us m line in
  User_wt us' /\ User_utf8 us'
  /\ uid us' = uid us /\ key us' = key us /\ Enabled us' = Enabled us
  /\ RegTs us' = RegTs us /\ RegIp us' = RegIp us /\ md us' = md us
  /\ logs us' <> None
  /\ lines us' (LogType line) = lines us (LogType line) ++ [Some line].
Proof.
  intros L [W1 W2] [V1 V2] Wl Vl Vk. cbv zeta. unfold appended, lines.
  rewrite L in *. cbn [logs set_logs uid key Enabled RegTs RegIp md].
  simpl in W2, V2.
  assert (Forall ptr_wt (default [] (m !! LogType line))) as Wo.
  { destruct (m !! LogType line) as [l|] eqn:E; [exact (W2 _ _ E)|constructor]. }
  assert (Forall ptr_utf8 (default [] (m !! LogType line))) as Vo.
  { destruct (m !! LogType line) as [l|] eqn:E; [exact (proj2 (V2 _ _ E))|constructor]. }
  unfold User_wt, User_utf8.
  cbn [logs set_logs uid key Enabled RegTs RegIp md logs_wt logs_utf8].
  split_and!; try assumption; try reflexivity.
  - apply map_Forall_insert_2; [|exact W2].
    apply Forall_app. split; [exact Wo|]. constructor; [exact Wl|constructor].
  - apply map_Forall_insert_2; [|exact V2].
    split; [exact Vk|]. apply Forall_app. split; [exact Vo|].
    constructor; [exact Vl|constructor].
  - discriminate.
  - cbn [mbind option_bind]. rewrite lookup_insert_eq. reflexivity.
Qed.

Lemma AddActivityLogs_spec (category : string)
  (entries : list (string * string)) :
  utf8_ok category ->
  Forall (fun e => utf8_ok e.1 /\ utf8_ok e.2) entries ->
  forall (us us' : User) (oks : list bool) (w w1 : World),
    User_wt us -> User_utf8 us ->
    AddActivityLogs us category entries w = Ret ((us', oks), w1) ->
    User_wt us' /\ User_utf8 us'
    /\ uid us' = uid us /\ key us' = key us /\ Enabled us' = Enabled us
    /\ RegTs us' = RegTs us /\ RegIp us' = RegIp us /\ md us' = md us
    /\ exists stamps : list Z,
         length stamps = length entries
         /\ lines us' category
            = lines us category
              ++ zip_with (fun t e => Some (mkLogLine t e.2 category e.1))
                          stamps entries.
Proof.
  intros Vc. induction 1 as [|[desc ip] entries [Vd Vi] _ IH];
    intros us us' oks w w1 W V R.
  - cbn in R. injection R as <- <- <-.
    split_and!; try assumption; try reflexivity.
    exists []. rewrite app_nil_r. auto.
  - cbn [AddActivityLogs] in R. unfold bind at 1 in R.
    destruct (logs us) as [m|] eqn:Lm.
    2:{ unfold AddActivityLog in R. rewrite Lm in R. discriminate R. }
    rewrite (AddActivityLog_eq us m) in R by exact Lm. cbv zeta in R.
    cbn [fst snd] in R. unfold bind in R.
    set (line := mkLogLine (time.int64 (hd 0 (clock w))) ip category desc) in *.
    destruct (appended_spec us m line Lm W V)
      as (W' & V' & E1 & E2 & E3 & E4 & E5 & E6 & L' & Hl);
      [apply int64_range|repeat split; assumption|exact Vc|].
    destruct (AddActivityLogs (appended us m line) category entries _)
      as [[[u2 oks2] w2]|] eqn:R2; [|discriminate].
    injection R as <- <- <-.
    destruct (IH _ _ _ _ _ W' V' R2)
      as (W2 & V2 & F1 & F2 & F3 & F4 & F5 & F6 & stamps & Hlen & Hlines).
    cbn [fst].
    split_and!; try assumption; try congruence.
    exists (Ts line :: stamps). split; [simpl; lia|].
    rewrite Hlines. cbn [LogType line] in Hl. rewrite Hl.
    rewrite <- app_assoc. reflexivity.
Qed.

Lemma persist_Ok (us : User) (w w1 : World) :
  persist us w = Ret (true, w1) ->
  rows w1 !! uid us = Some (item_of us).
Proof.
  rewrite persist_eq. destruct (failing w); [discriminate|].
  intros [= <-]. apply lookup_insert_eq.
Qed.

(** C4, as the code has it.  An account whose strings are valid UTF-8 is
    read back as it was persisted: the same flag, registration time and
    origin, and the same log map.  In particular, after N entries were
    appended to a category and the account persisted, the account read back
    holds in that category the earlier lines followed by the N new ones in
    the order of the calls, field by field. *)
Theorem C4_persist_reload (us us' : User) (category : string)
  (entries : list (string * string)) (oks : list bool) (w w1 w2 : World) :
  User_wt us -> User_utf8 us ->
  utf8_ok category ->
  Forall (fun e => utf8_ok e.1 /\ utf8_ok e.2) entries ->
  AddActivityLogs us category entries w = Ret ((us', oks), w1) ->
  persist us' w1 = Ret (true, w2) ->
  failing w2 = false ->
  AdminGetUserInfoByID (md us) (uid us) w2 = Ret (Some us', answered w2)
  /\ Enabled us' = Enabled us /\ RegTs us' = RegTs us /\ RegIp us' = RegIp us
  /\ exists stamps : list Z,
       length stamps = length entries
       /\ lines us' category
          = lines us category
            ++ zip_with (fun t e => Some (mkLogLine t e.2 category e.1))
                        stamps entries.
Proof.
  intros W V Vc Ve R P F.
  destruct (AddActivityLogs_spec category entries Vc Ve us us' oks w w1 W V R)
    as (W' & V' & E1 & E2 & E3 & E4 & E5 & E6 & Hst).
  split; [|auto].
  rewrite <- E1, <- E6.
  rewrite AdminGetUserInfoByID_item_of; [|exact W'|exact F|exact (persist_Ok _ _ _ P)].
  rewrite reloaded_valid by exact V'. reflexivity.
Qed.

(** C4 as the claim states it fails: the origin 0xFF is stored as the
    escape of U+FFFD and read back as the three bytes EF BF BD. *)
Lemma C4_counterexample :
  exists w1 u',
    persist bad_user ex_up = Ret (true, w1)
    /\ AdminGetUserInfoByID (md bad_user) (uid bad_user) w1
       = Ret (Some u', answered w1)
    /\ RegIp u' = String "239"%char (String "191"%char (String "189"%char ""))
    /\ RegIp u' <> RegIp bad_user.
Proof.
  eexists _, _. split; [reflexivity|]. split; [vm_compute; reflexivity|].
  split; [reflexivity|discriminate].
Qed.

Lemma ex_user_wt : User_wt ex_user.
Proof.
  split; [vm_compute; split; discriminate|].
  apply map_Forall_singleton. constructor; [|constructor].
  vm_compute. split; discriminate.
Qed.

Lemma ex_user_utf8 : User_utf8 ex_user.
Proof.
  split; [reflexivity|].
  apply map_Forall_singleton. split; [reflexivity|].
  constructor; [|constructor]. repeat split.
Qed.

(** Two lines appended to the category "account" of an account that
    already has one. *)
Lemma C4_witness :
  AdminGetUserInfoByID (md ex_user) (uid ex_user) ex_w2
  = Ret (Some ex_user', answered ex_w2)
  /\ Enabled ex_user' = Enabled ex_user /\ RegTs ex_user' = RegTs ex_user
  /\ RegIp ex_user' = RegIp ex_user
  /\ exists stamps : list Z,
       length stamps = length ex_entries
       /\ lines ex_user' "account"
          = lines ex_user "account"
            ++ zip_with (fun t e => Some (mkLogLine t e.2 "account" e.1))
                        stamps ex_entries.
Proof.
  apply (C4_persist_reload ex_user ex_user' "account" ex_entries ex_oks
           ex_up ex_w1 ex_w2).
  - exact ex_user_wt.
  - exact ex_user_utf8.
  - reflexivity.
  - repeat constructor.
  - vm_compute. reflexivity.
  - vm_compute. reflexivity.
  - reflexivity.
Defined.

(** ** Disabling and enabling *)

Lemma set_Enabled_wt (e : string) (us : User) :
  User_wt us -> User_wt (set_Enabled e us).
Proof. intros H. exact H. Qed.

(** C5. For an account whose digest is that of the password: after a
    [DisableUser] that persisted, [GetUserInfo] with the password returns
    nil; after an [EnableUser] that persisted, it returns the account again
    when its read is answered, enabled and with the fields it had. *)
Theorem C5_disable_enable (us us1 us2 : User) (password : string)
  (w w1 w2 : World) :
  User_wt us ->
  key us = HashPassword (md us) password ->
  DisableUser us w = Ret ((us1, true), w1) ->
  EnableUser us1 (answered w1) = Ret ((us2, true), w2) ->
  failing w2 = false ->
  GetUserInfo (md us) (uid us) password w1 = Ret (None, answered w1)
  /\ exists u,
       GetUserInfo (md us) (uid us) password w2 = Ret (Some u, answered w2)
       /\ uid u = uid us /\ key u = key us /\ Enabled u = "1"
       /\ RegTs u = RegTs us /\ md u = md us
       /\ (User_utf8 us -> u = us2).
Proof.
  intros W K D E F.
  unfold DisableUser, bind, ret in D. rewrite persist_eq in D.
  destruct (failing w) eqn:Fw; [discriminate|]. injection D as <- <-.
  unfold EnableUser, bind, ret in E. rewrite persist_eq in E.
  destruct (failing (answered _)) eqn:F1; [discriminate|]. injection E as <- <-.
  split.
  - apply GetUserInfo_None. split; [reflexivity|].
    cbn [rows]. rewrite lookup_insert_eq.
    right. right.
    eexists. split; [reflexivity|]. right.
    exists (reloaded (md us) (set_Enabled "0" us)). split; [|right; reflexivity].
    apply (rehydrate_item_of (md us) (set_Enabled "0" us)). exact W.
  - exists (reloaded (md us) (set_Enabled "1" (set_Enabled "0" us))).
    split; [|split_and!; try reflexivity].
    + apply GetUserInfo_Some. split; [exact F|]. split; [reflexivity|].
      eexists. cbn [rows uid set_Enabled].
      split; [apply lookup_insert_eq|]. split_and!.
      * apply (rehydrate_item_of (md us) (set_Enabled "1" (set_Enabled "0" us))).
        exact W.
      * exact K.
      * discriminate.
    + intros V. apply (reloaded_valid (set_Enabled "1" (set_Enabled "0" us))).
      exact V.
Qed.

(** ** Lookup by the raw identifier *)

(** Registration on a table without the stripped uid, with both requests
    answered. *)
Lemma RegisterUserPlainKey_fresh (um : Model) (raw digest ip : string)
  (w : World) :
  let id := strings.Replace raw "+" "" (-1) in
  rows w !! id = None ->
  failing (answered w) = false ->
  RegisterUserPlainKey um raw digest ip w =
  let user :=
    mkUser id digest "1" (Some ∅) (time.int64 (hd 0 (clock w))) ip um in
  Ret (Ok user,
       mkWorld (<[id := item_of user]> (rows w)) (tl (tl (faults w)))
               (tl (clock w))).
Proof.
  intros id R F. rewrite RegisterUserPlainKey_eq. cbv zeta. fold id.
  rewrite AdminGetUserInfoByID_eq, R.
  assert ((if failing w then Ret (None, answered w)
           else Ret (None, answered w))
          = (Ret (None, answered w) : outcome (option User * World))) as ->
    by (destruct (failing w); reflexivity).
  rewrite F. reflexivity.
Qed.

Lemma strip_example : strings.Replace "a+b@x.com" "+" "" (-1) = "ab@x.com".
Proof. vm_compute. reflexivity. Qed.

(** C8. After [RegisterUser] succeeded for "a+b@x.com" on a table with no
    item of that very name, the lookup by the raw id "a+b@x.com" finds
    nothing and the lookup by "ab@x.com" finds the account (the lookups'
    read being answered): registration stores under the stripped id, the
    lookup reads the id as given. *)
Theorem C8_lookup_is_not_normalized (um : Model) (ip : string)
  (w w1 : World) (u : User) :
  rows w !! "a+b@x.com" = None ->
  RegisterUser um "a+b@x.com" "pw1" ip w = Ret (Ok u, w1) ->
  failing w1 = false ->
  AdminGetUserInfoByID um "a+b@x.com" w1 = Ret (None, answered w1)
  /\ exists u',
       AdminGetUserInfoByID um "ab@x.com" w1 = Ret (Some u', answered w1)
       /\ uid u = "ab@x.com" /\ uid u' = "ab@x.com"
       /\ key u' = HashPassword um "pw1" /\ Enabled u' = "1"
       /\ RegTs u' = RegTs u /\ (utf8_ok ip -> u' = u).
Proof.
  intros Raw R F. unfold RegisterUser in R.
  apply RegisterUserPlainKey_Ok in R
    as (Hid & Hk & He & Hl & Hip & Hmd & W & Hrows).
  rewrite strip_example in Hid. split.
  - rewrite AdminGetUserInfoByID_eq, F, Hrows, Hid.
    rewrite lookup_insert_ne by discriminate. rewrite Raw. reflexivity.
  - exists (reloaded um u). rewrite <- Hid.
    split; [|split_and!; try reflexivity; try assumption].
    + apply AdminGetUserInfoByID_item_of; [exact W|exact F|].
      rewrite Hrows. apply lookup_insert_eq.
    + intros V. rewrite <- Hmd. apply reloaded_valid.
      split; [rewrite Hip; exact V|]. rewrite Hl. apply map_Forall_empty.
Qed.

(** Registration on the empty table. *)
Lemma C8_witness :
  AdminGetUserInfoByID ex_um "a+b@x.com" ex_reg_world
  = Ret (None, answered ex_reg_world)
  /\ exists u',
       AdminGetUserInfoByID ex_um "ab@x.com" ex_reg_world
       = Ret (Some u', answered ex_reg_world)
       /\ uid ex_reg_user = "ab@x.com" /\ uid u' = "ab@x.com"
       /\ key u' = HashPassword ex_um "pw1" /\ Enabled u' = "1"
       /\ RegTs u' = RegTs ex_reg_user
       /\ (utf8_ok "10.0.0.1" -> u' = ex_reg_user).
Proof.
  apply (C8_lookup_is_not_normalized ex_um "10.0.0.1" ex_up ex_reg_world
           ex_reg_user).
  - reflexivity.
  - unfold RegisterUser.
    rewrite RegisterUserPlainKey_fresh by reflexivity.
    rewrite strip_example. reflexivity.
  - reflexivity.
Defined.

(** "a+b@x.com" registered, then "ab+@x.com". *)
Lemma C3_witness :
  RegisterUserPlainKey ex_um "ab+@x.com" "other" "10.9.9.9" ex_first_world
  = Ret (Err "Existing user account", answered ex_first_world)
  /\ rows (answered ex_first_world) = rows ex_first_world
  /\ rows (answered ex_first_world) !! uid ex_first = Some (item_of ex_first).
Proof.
  apply (C3_second_registration_fails ex_um "a+b@x.com" "digest" "10.0.0.1"
           "ab+@x.com" "other" "10.9.9.9" ex_up ex_first_world ex_first_world
           ex_first).
  - vm_compute. reflexivity.
  - vm_compute. reflexivity.
  - reflexivity.
  - reflexivity.
Defined.

(** C3 as the claim states it fails: when the uniqueness read of the
    second registration fails, the account is taken for absent; the
    second registration succeeds and its item replaces the first
    account's. *)
Lemma C3_counterexample :
  exists w1 w2 : World,
    RegisterUserPlainKey ex_um "a+b@x.com" "digest" "10.0.0.1" ex_flaky
    = Ret (Ok ex_first, w1)
    /\ rows w1 !! "ab@x.com" = Some (item_of ex_first)
    /\ RegisterUserPlainKey ex_um "ab+@x.com" "other" "10.9.9.9" w1
       = Ret (Ok ex_overwriter, w2)
    /\ rows w2 !! "ab@x.com" = Some (item_of ex_overwriter)
    /\ it_key (item_of ex_overwriter) <> it_key (item_of ex_first).
Proof.
  eexists _, _. split; [vm_compute; reflexivity|].
  split; [reflexivity|]. split; [vm_compute; reflexivity|].
  split; [reflexivity|discriminate].
Qed.

(** An account disabled and enabled again on a table that was empty. *)
Lemma C5_witness :
  GetUserInfo (md ex_pw_user) (uid ex_pw_user) "pw1" ex_off_world
  = Ret (None, answered ex_off_world)
  /\ exists u,
       GetUserInfo (md ex_pw_user) (uid ex_pw_user) "pw1" ex_on_world
       = Ret (Some u, answered ex_on_world)
       /\ uid u = uid ex_pw_user /\ key u = key ex_pw_user /\ Enabled u = "1"
       /\ RegTs u = RegTs ex_pw_user /\ md u = md ex_pw_user
       /\ (User_utf8 ex_pw_user -> u = ex_on).
Proof.
  apply (C5_disable_enable ex_pw_user ex_off ex_on "pw1" (mkWorld ∅ [] [])
           ex_off_world ex_on_world).
  - split; [|apply map_Forall_empty].
    change (int64_ok 1700000000).
    unfold int64_ok, strconv.minInt64, strconv.maxInt64. lia.
  - reflexivity.
  - reflexivity.
  - reflexivity.
  - reflexivity.
Defined.

(** ** Listing *)

Lemma GetRegisteredUsers_eq (um : Model) (w : World) :
  GetRegisteredUsers um w =
  if failing w then Ret (None, answered w)
  else match load_rows um (map_to_list (rows w)) ∅ with
       | Ret users => Ret (users, answered w)
       | Panic => Panic
       end.
Proof.
  unfold GetRegisteredUsers, dynamodb.Scan, bind, request, ret.
  destruct (failing w); reflexivity.
Qed.

(** The loop over rows none of which panics: one record that does not
    deserialize makes the result nil, otherwise every row is in the map
    under its uid. *)
Lemma load_rows_spec (um : Model) (l : list (string * Item)) :
  Forall (fun r => rehydrate um r.1 r.2 <> Panic) l ->
  forall users0,
    (Exists (fun r => rehydrate um r.1 r.2 = Ret None) l
     /\ load_rows um l users0 = Ret None)
    \/ (exists us : list User,
          Forall2 (fun r u => rehydrate um r.1 r.2 = Ret (Some u)) l us
          /\ load_rows um l users0
             = Ret (Some (foldl (fun m ru => <[ru.1.1 := ru.2]> m) users0
                                (zip l us)))).
Proof.
  induction 1 as [|[id row] l Hr _ IH]; intros users0.
  - right. exists []. split; [constructor|reflexivity].
  - cbn [load_rows]. cbn [fst snd] in Hr.
    destruct (rehydrate um id row) as [[u|]|] eqn:E; [| |congruence].
    + destruct (IH (<[id := u]> users0)) as [[Hex Hl]|(us & Hf & Hl)].
      * left. split; [apply Exists_cons_tl; exact Hex|exact Hl].
      * right. exists (u :: us). split; [constructor; assumption|exact Hl].
    + left. split; [apply Exists_cons_hd; exact E|reflexivity].
Qed.

(** C6, at the failing input.  Both [Unmarshal] calls accept the record
    with [info = null], the first by setting [user] to nil; [&user.logs]
    then dereferences nil.  [GetRegisteredUsers] neither returns nil nor a
    map, and [AdminGetUserInfoByID] fares the same. *)
Theorem C6_null_info_panics :
  codec.Unmarshal_User (it_info null_row) (mkUser "u" "k" "1" (Some ∅) 0 "" ex_um)
  = Some None
  /\ GetRegisteredUsers ex_um ex_null = Panic
  /\ AdminGetUserInfoByID ex_um "u" ex_null = Panic.
Proof. vm_compute. repeat split. Qed.

Lemma load_rows_lookup (um : Model) (l : list (string * Item)) (us : list User) :
  Forall2 (fun r u => rehydrate um r.1 r.2 = Ret (Some u)) l us ->
  NoDup l.*1 ->
  forall (users0 : gmap string User) (id : string) (u : User),
    foldl (fun m ru => <[ru.1.1 := ru.2]> m) users0 (zip l us) !! id = Some u
    <-> (exists row, (id, row) ∈ l /\ rehydrate um id row = Ret (Some u))
        \/ ((id ∉ l.*1) /\ users0 !! id = Some u).
Proof.
  induction 1 as [|[id0 row0] u0 l us Hr _ IH]; intros Hnd users0 id u.
  - cbn. split.
    + intros H. right. split; [apply not_elem_of_nil|exact H].
    + intros [(row & Hin & _)|[_ H]]; [|exact H].
      apply elem_of_nil in Hin. destruct Hin.
  - cbn [fmap list_fmap fst] in Hnd. apply NoDup_cons in Hnd as [Hid0 Hnd].
    cbn [zip zip_with foldl fst snd]. cbn [fst snd] in Hr.
    rewrite (IH Hnd). cbn [fmap list_fmap fst].
    destruct (decide (id = id0)) as [->|Hne].
    + rewrite lookup_insert_eq. split.
      * intros [(row & Hin & _)|[_ [= <-]]].
        -- exfalso. apply Hid0. apply list_elem_of_fmap. exists (id0, row). auto.
        -- left. exists row0. split; [apply list_elem_of_here|exact Hr].
      * intros [(row & Hin & Hrow)|[Hnotin _]].
        -- apply elem_of_cons in Hin as [[= <-]|Hin].
           ++ right. split; [exact Hid0|]. congruence.
           ++ exfalso. apply Hid0. apply list_elem_of_fmap. exists (id0, row). auto.
        -- exfalso. apply Hnotin. apply list_elem_of_here.
    + rewrite lookup_insert_ne by congruence. split.
      * intros [(row & Hin & Hrow)|[Hnotin H]].
        -- left. exists row. split; [apply list_elem_of_further; exact Hin|exact Hrow].
        -- right. split; [|exact H]. rewrite not_elem_of_cons. auto.
      * intros [(row & Hin & Hrow)|[Hnotin H]].
        -- apply elem_of_cons in Hin as [[= ? ?]|Hin]; [congruence|].
           left. exists row. auto.
        -- right. rewrite not_elem_of_cons in Hnotin. split; [tauto|exact H].
Qed.

(** What the code does for C6 on every table none of whose records makes
    [rehydrate] panic: all or nothing. *)
Lemma GetRegisteredUsers_all_or_nothing (um : Model) (w : World) :
  failing w = false ->
  (forall id row, rows w !! id = Some row -> rehydrate um id row <> Panic) ->
  ((exists id row, rows w !! id = Some row /\ rehydrate um id row = Ret None)
   /\ GetRegisteredUsers um w = Ret (None, answered w))
  \/ (exists users : gmap string User,
        GetRegisteredUsers um w = Ret (Some users, answered w)
        /\ dom users = dom (rows w)
        /\ forall id u,
             users !! id = Some u <->
             exists row, rows w !! id = Some row
                         /\ rehydrate um id row = Ret (Some u)).
Proof.
  intros F Hp. rewrite GetRegisteredUsers_eq, F.
  destruct (load_rows_spec um (map_to_list (rows w))) with (users0 := (∅ : gmap string User))
    as [[Hex ->]|(us & Hf & ->)].
  - apply Forall_forall. intros [id row] Hin. apply (Hp id row).
    apply elem_of_map_to_list. exact Hin.
  - left. split; [|reflexivity]. apply Exists_exists in Hex as ([id row] & Hin & E).
    exists id, row. split; [apply elem_of_map_to_list; exact Hin|exact E].
  - right. eexists. split; [reflexivity|].
    assert (forall id u,
              foldl (fun m ru => <[ru.1.1 := ru.2]> m) (∅ : gmap string User)
                    (zip (map_to_list (rows w)) us) !! id = Some u <->
              exists row, rows w !! id = Some row
                          /\ rehydrate um id row = Ret (Some u)) as Hl.
    { intros id u. rewrite (load_rows_lookup um _ us Hf (NoDup_fst_map_to_list _)).
      rewrite lookup_empty. split.
      - intros [(row & Hin & E)|[_ [=]]]. exists row.
        split; [apply elem_of_map_to_list; exact Hin|exact E].
      - intros (row & Hin & E). left. exists row.
        split; [apply elem_of_map_to_list; exact Hin|exact E]. }
    split; [|exact Hl].
    apply set_eq. intros id. rewrite !elem_of_dom. split.
    + intros [u Hu]. apply Hl in Hu as (row & Hrow & _). eauto.
    + intros [row Hrow].
      assert ((id, row) ∈ map_to_list (rows w)) as Hin
        by (apply elem_of_map_to_list; exact Hrow).
      apply list_elem_of_lookup in Hin as [i Hi].
      destruct (Forall2_lookup_l _ _ _ i (id, row) Hf Hi) as (u & _ & Hu).
      exists u. apply Hl. exists row. auto.
Qed.

(** ** The digest *)

Lemma be32_length (x : Z) : length (sha256.be32 x) = 4%nat.
Proof. reflexivity. Qed.

Lemma Sum256_length (data : list Z) : length (sha256.Sum256 data) = 32%nat.
Proof.
  unfold sha256.Sum256.
  destruct (sha256.blocks _ _ _) as [[[[[[[h0 h1] h2] h3] h4] h5] h6] h7].
  rewrite !length_app, !be32_length. reflexivity.
Qed.

Lemma hmac_Sum_length (key msg : list Z) : length (hmac.Sum key msg) = 32%nat.
Proof. apply Sum256_length. Qed.

Lemma iterate_length (n : nat) :
  forall password T U : list Z,
    length T = 32%nat -> length (pbkdf2.iterate n password T U) = 32%nat.
Proof.
  induction n as [|n IH]; intros password T U HT; [exact HT|].
  cbn [pbkdf2.iterate]. apply IH.
  unfold pbkdf2.xor_bytes. rewrite length_zip_with, HT, hmac_Sum_length. reflexivity.
Qed.

Lemma Key_length (password salt : list Z) (iter : nat) :
  length (pbkdf2.Key password salt iter sha256.Size) = 32%nat.
Proof.
  unfold pbkdf2.Key.
  change ((sha256.Size + sha256.Size - 1) / sha256.Size)%nat with 1%nat.
  cbn [seq List.map concat]. rewrite app_nil_r.
  assert (length (pbkdf2.T password salt iter (Z.of_nat 1)) = 32%nat) as H.
  { unfold pbkdf2.T. apply iterate_length, hmac_Sum_length. }
  rewrite length_take, H. reflexivity.
Qed.

Lemma Encode_32 (l : list Z) :
  length l = 32%nat -> length (base64.Encode l) = 44%nat.
Proof.
  intros H.
  do 32 (destruct l as [|? l]; [discriminate H|]).
  destruct l; [reflexivity|discriminate H].
Qed.

Lemma str_length (l : list ascii) : String.length (str l) = length l.
Proof. induction l as [|c l IH]; [reflexivity|]. simpl. rewrite IH. reflexivity. Qed.


Lemma HashPassword_length (um : Model) (password : string) :
  String.length (HashPassword um password) = 44%nat.
Proof.
  unfold HashPassword, base64.EncodeToString.
  rewrite str_length. apply Encode_32, Key_length.
Qed.









Example Sum256_abc :
  hexstring (sha256.Sum256 (zbytes "abc"))
  = "ba7816bf8f01cfea414140de5dae2223b00361a396177a9cb410ff61f20015ad".
Proof. vm_compute. reflexivity. Qed.

Example hmac_fox :
  hexstring (hmac.Sum (zbytes "key")
               (zbytes "The quick brown fox jumps over the lazy dog"))
  = "f7bc83f430538424b13298e6aa6fb143ef4d59a14946175997479dbc2d1a3cd8".
Proof. vm_compute. reflexivity. Qed.

Example pbkdf2_two_iterations :
  base64.EncodeToString (pbkdf2.Key (zbytes "password") (zbytes "salt") 2 32)
  = "rk0Mla9rRtMtCt/5KPBt0CowP47zwlHf1uLYWpVHTEM=".
Proof. vm_compute. reflexivity. Qed.

(** * Further properties of the store *)

(** ** Reading *)

(** X1.  The three reading functions send one request and write nothing: when
    they return, the table and the clock are as before. *)
Theorem lookups_write_nothing (um : Model) (uid password : string) (w : World) :
  match AdminGetUserInfoByID um uid w with
  | Ret (_, w') => w' = answered w
  | Panic => True
  end
  /\ match GetUserInfo um uid password w with
     | Ret (_, w') => w' = answered w
     | Panic => True
     end
  /\ match GetRegisteredUsers um w with
     | Ret (_, w') => w' = answered w
     | Panic => True
     end.
Proof.
  split_and!.
  - destruct (AdminGetUserInfoByID um uid w) as [[o w']|] eqn:E; [|exact I].
    exact (AdminGetUserInfoByID_world _ _ _ _ _ E).
  - destruct (GetUserInfo um uid password w) as [[o w']|] eqn:E; [|exact I].
    exact (GetUserInfo_world _ _ _ _ _ _ E).
  - rewrite GetRegisteredUsers_eq. destruct (failing w); [reflexivity|].
    destruct (load_rows um _ _); [reflexivity|exact I].
Qed.

(** X2.  A request that fails reads as absence: the lookups return nil and the
    listing returns the nil map, whatever the table holds. *)
Theorem failed_read_is_absence (um : Model) (uid password : string) (w : World) :
  failing w = true ->
  AdminGetUserInfoByID um uid w = Ret (None, answered w)
  /\ GetUserInfo um uid password w = Ret (None, answered w)
  /\ GetRegisteredUsers um w = Ret (None, answered w).
Proof.
  intros F. rewrite AdminGetUserInfoByID_eq, GetUserInfo_table,
    GetRegisteredUsers_eq, F. auto.
Qed.

Lemma failed_read_is_absence_witness :
  AdminGetUserInfoByID ex_um "ab@x.com" ex_unreachable
  = Ret (None, answered ex_unreachable)
  /\ GetUserInfo ex_um "ab@x.com" "pw1" ex_unreachable
     = Ret (None, answered ex_unreachable)
  /\ GetRegisteredUsers ex_um ex_unreachable
     = Ret (None, answered ex_unreachable).
Proof.
  apply (failed_read_is_absence ex_um "ab@x.com" "pw1" ex_unreachable).
  reflexivity.
Defined.

(** ** Writing and reading back *)

(** X3.  Whatever bytes its strings hold, the item [persist] writes for an
    account is read back as an account: the same uid, digest, flag and
    registration time, and the origin and the log map with every string
    coerced to valid UTF-8.  [persist] writes no record that the lookups
    cannot decode. *)
Theorem persist_then_lookup (um : Model) (us : User) (w w1 : World) :
  User_wt us ->
  persist us w = Ret (true, w1) ->
  failing w1 = false ->
  AdminGetUserInfoByID um (uid us) w1 = Ret (Some (reloaded um us), answered w1)
  /\ uid (reloaded um us) = uid us /\ key (reloaded um us) = key us
  /\ Enabled (reloaded um us) = Enabled us /\ RegTs (reloaded um us) = RegTs us
  /\ RegIp (reloaded um us) = cs (RegIp us)
  /\ (logs us = None <-> logs (reloaded um us) = None).
Proof.
  intros W P F. split; [|split_and!; try reflexivity].
  - apply AdminGetUserInfoByID_item_of; [exact W|exact F|].
    exact (persist_Ok _ _ _ P).
  - unfold reloaded. cbn [logs]. destruct (logs us); split; intros H;
      try discriminate H; reflexivity.
Qed.

Lemma persist_then_lookup_witness :
  AdminGetUserInfoByID ex_um (uid bad_user) ex_bad_world
  = Ret (Some (reloaded ex_um bad_user), answered ex_bad_world)
  /\ uid (reloaded ex_um bad_user) = uid bad_user
  /\ key (reloaded ex_um bad_user) = key bad_user
  /\ Enabled (reloaded ex_um bad_user) = Enabled bad_user
  /\ RegTs (reloaded ex_um bad_user) = RegTs bad_user
  /\ RegIp (reloaded ex_um bad_user) = cs (RegIp bad_user)
  /\ (logs bad_user = None <-> logs (reloaded ex_um bad_user) = None).
Proof.
  apply (persist_then_lookup ex_um bad_user ex_up ex_bad_world).
  - split; [vm_compute; split; discriminate|apply map_Forall_empty].
  - reflexivity.
  - reflexivity.
Defined.

(** ** Registration and what follows it *)

(** X4.  After [RegisterUser] succeeded, [GetUserInfo] with the stripped uid and
    the same password returns the account, read back from the table. *)
Theorem register_then_login (um : Model) (raw password ip : string)
  (w w1 : World) (u : User) :
  RegisterUser um raw password ip w = Ret (Ok u, w1) ->
  failing w1 = false ->
  GetUserInfo um (uid u) password w1 = Ret (Some (reloaded um u), answered w1)
  /\ uid u = strings.Replace raw "+" "" (-1)
  /\ (utf8_ok ip -> reloaded um u = u).
Proof.
  intros R F. unfold RegisterUser in R.
  apply RegisterUserPlainKey_Ok in R
    as (Hid & Hk & He & Hl & Hip & Hmd & W & Hrows).
  split_and!.
  - apply GetUserInfo_Some. split; [exact F|]. split; [reflexivity|].
    exists (item_of u). split_and!.
    + rewrite Hrows. apply lookup_insert_eq.
    + apply rehydrate_item_of. exact W.
    + exact Hk.
    + cbn [item_of it_enabled]. rewrite He. discriminate.
  - exact Hid.
  - intros V. rewrite <- Hmd. apply reloaded_valid.
    split; [rewrite Hip; exact V|]. rewrite Hl. apply map_Forall_empty.
Qed.

Lemma register_then_login_witness :
  GetUserInfo ex_um (uid ex_reg_user) "pw1" ex_reg_world
  = Ret (Some (reloaded ex_um ex_reg_user), answered ex_reg_world)
  /\ uid ex_reg_user = strings.Replace "a+b@x.com" "+" "" (-1)
  /\ (utf8_ok "10.0.0.1" -> reloaded ex_um ex_reg_user = ex_reg_user).
Proof.
  apply (register_then_login ex_um "a+b@x.com" "pw1" "10.0.0.1" ex_up
           ex_reg_world ex_reg_user).
  - unfold RegisterUser.
    rewrite RegisterUserPlainKey_fresh by reflexivity.
    rewrite strip_example. reflexivity.
  - reflexivity.
Defined.

(** Stripping changes a uid that holds a '+'. *)
Lemma Replace_plus_changes (raw : string) :
  "+"%char ∈ bytes raw -> strings.Replace raw "+" "" (-1) <> raw.
Proof.
  intros Hin E. rewrite Replace_plus in E.
  apply (f_equal bytes) in E. rewrite bytes_str in E.
  rewrite <- E in Hin. apply list_elem_of_filter in Hin as [Hne _].
  apply Hne. reflexivity.
Qed.

(** X5.  A uid with a '+' is registered under another name than the one given:
    unless an item of the given name was there before, neither lookup
    finds the account under the name its owner typed, whatever the
    password. *)
Theorem plus_address_cannot_login (um : Model) (raw password ip : string)
  (w w1 : World) (u : User) :
  "+"%char ∈ bytes raw ->
  rows w !! raw = None ->
  RegisterUser um raw password ip w = Ret (Ok u, w1) ->
  uid u <> raw
  /\ AdminGetUserInfoByID um raw w1 = Ret (None, answered w1)
  /\ forall pw : string, GetUserInfo um raw pw w1 = Ret (None, answered w1).
Proof.
  intros Hin Raw R. unfold RegisterUser in R.
  apply RegisterUserPlainKey_Ok in R
    as (Hid & _ & _ & _ & _ & _ & _ & Hrows).
  assert (uid u <> raw) as Hne
    by (rewrite Hid; apply Replace_plus_changes; exact Hin).
  assert (rows w1 !! raw = None) as Hnone
    by (rewrite Hrows, lookup_insert_ne by exact Hne; exact Raw).
  split; [exact Hne|]. split.
  - rewrite AdminGetUserInfoByID_eq, Hnone. destruct (failing w1); reflexivity.
  - intros pw. rewrite GetUserInfo_table, Hnone.
    destruct (failing w1); reflexivity.
Qed.

Lemma plus_address_cannot_login_witness :
  uid ex_reg_user <> "a+b@x.com"
  /\ AdminGetUserInfoByID ex_um "a+b@x.com" ex_reg_world
     = Ret (None, answered ex_reg_world)
  /\ forall pw : string,
       GetUserInfo ex_um "a+b@x.com" pw ex_reg_world
       = Ret (None, answered ex_reg_world).
Proof.
  apply (plus_address_cannot_login ex_um "a+b@x.com" "pw1" "10.0.0.1" ex_up
           ex_reg_world ex_reg_user).
  - vm_compute. apply list_elem_of_further, list_elem_of_here.
  - reflexivity.
  - unfold RegisterUser.
    rewrite RegisterUserPlainKey_fresh by reflexivity.
    rewrite strip_example. reflexivity.
Defined.

(** X6.  A registration that returns an error has written nothing, and the
    error is one of the two the function makes. *)
Theorem failed_registration_writes_nothing (um : Model)
  (raw digest ip msg : string) (w w' : World) :
  RegisterUserPlainKey um raw digest ip w = Ret (Err msg, w') ->
  rows w' = rows w
  /\ (msg = "Existing user account"
      \/ msg = "Error trying to store the user data").
Proof.
  rewrite RegisterUserPlainKey_eq. cbv zeta.
  destruct (AdminGetUserInfoByID um _ w) as [[[found|] w0]|] eqn:A;
    try discriminate.
  - apply AdminGetUserInfoByID_world in A. subst w0.
    intros [= <- <-]. auto.
  - apply AdminGetUserInfoByID_world in A. subst w0.
    destruct (failing (answered w)); [|discriminate].
    intros [= <- <-]. auto.
Qed.

Lemma failed_registration_writes_nothing_witness :
  rows (answered ex_first_world) = rows ex_first_world
  /\ ("Existing user account" = "Existing user account"
      \/ "Existing user account" = "Error trying to store the user data").
Proof.
  apply (failed_registration_writes_nothing ex_um "ab+@x.com" "other"
           "10.9.9.9" "Existing user account" ex_first_world
           (answered ex_first_world)).
  vm_compute. reflexivity.
Defined.

(** X7.  Registration takes for absent whatever its lookup does not return: no
    item, an item that does not decode, and also a read that failed.  When
    the write is then accepted, the new account replaces what was stored
    under the stripped uid, an account that was not read included. *)
Theorem registration_replaces_what_it_cannot_read (um : Model)
  (raw digest ip : string) (w : World) :
  failing w = true
  \/ rows w !! strings.Replace raw "+" "" (-1) = None
  \/ (exists row,
        rows w !! strings.Replace raw "+" "" (-1) = Some row
        /\ rehydrate um (strings.Replace raw "+" "" (-1)) row = Ret None) ->
  failing (answered w) = false ->
  exists (user : User) (w' : World),
    RegisterUserPlainKey um raw digest ip w = Ret (Ok user, w')
    /\ uid user = strings.Replace raw "+" "" (-1) /\ key user = digest
    /\ rows w' = <[uid user := item_of user]> (rows w).
Proof.
  intros H F. eexists _, _. rewrite RegisterUserPlainKey_eq. cbv zeta.
  assert (AdminGetUserInfoByID um (strings.Replace raw "+" "" (-1)) w
          = Ret (None, answered w)) as ->.
  { rewrite AdminGetUserInfoByID_eq.
    destruct H as [->|[R|(row & R & E)]]; [reflexivity| |];
      destruct (failing w); try reflexivity; rewrite R; [reflexivity|].
    rewrite E. reflexivity. }
  rewrite F. split; [reflexivity|]. cbn [uid key rows]. auto.
Qed.

Lemma registration_replaces_what_it_cannot_read_witness :
  exists (user : User) (w' : World),
    RegisterUserPlainKey ex_um "ab+@x.com" "other" "10.9.9.9" ex_unreachable
    = Ret (Ok user, w')
    /\ uid user = strings.Replace "ab+@x.com" "+" "" (-1) /\ key user = "other"
    /\ rows w' = <[uid user := item_of user]> (rows ex_unreachable).
Proof.
  apply (registration_replaces_what_it_cannot_read ex_um "ab+@x.com" "other"
           "10.9.9.9" ex_unreachable).
  - left. reflexivity.
  - reflexivity.
Defined.

(** ** Changing the password *)

(** X8.  After an [UpdateUser] that persisted, on an account that is not
    disabled, [GetUserInfo] returns the account for the new password and
    nil for every password with another digest. *)
Theorem UpdateUser_then_login (us us1 : User) (password : string)
  (w w1 : World) :
  User_wt us ->
  Enabled us <> "0" ->
  UpdateUser us password w = Ret ((us1, true), w1) ->
  failing w1 = false ->
  key us1 = HashPassword (md us) password
  /\ GetUserInfo (md us) (uid us) password w1
     = Ret (Some (reloaded (md us) us1), answered w1)
  /\ forall other : string,
       HashPassword (md us) other <> HashPassword (md us) password ->
       GetUserInfo (md us) (uid us) other w1 = Ret (None, answered w1).
Proof.
  intros W E U F.
  unfold UpdateUser, bind, ret in U. rewrite persist_eq in U.
  destruct (failing w); [discriminate|]. injection U as <- <-.
  split; [reflexivity|]. split.
  - apply GetUserInfo_Some. split; [exact F|]. split; [reflexivity|].
    eexists. cbn [rows uid set_key]. split; [apply lookup_insert_eq|].
    split_and!.
    + apply (rehydrate_item_of (md us) (set_key _ us)). exact W.
    + reflexivity.
    + exact E.
  - intros other Hne. apply GetUserInfo_None. split; [reflexivity|].
    right. right. eexists. cbn [rows uid set_key].
    split; [apply lookup_insert_eq|]. right.
    eexists. split.
    + apply (rehydrate_item_of (md us) (set_key _ us)). exact W.
    + left. cbn [item_of it_key key set_key]. congruence.
Qed.

Lemma ex_pw_user_wt : User_wt ex_pw_user.
Proof.
  split; [|apply map_Forall_empty].
  change (int64_ok 1700000000).
  unfold int64_ok, strconv.minInt64, strconv.maxInt64. lia.
Qed.

Lemma UpdateUser_then_login_witness :
  key ex_changed = HashPassword (md ex_pw_user) "pw2"
  /\ GetUserInfo (md ex_pw_user) (uid ex_pw_user) "pw2" ex_changed_world
     = Ret (Some (reloaded (md ex_pw_user) ex_changed), answered ex_changed_world)
  /\ forall other : string,
       HashPassword (md ex_pw_user) other <> HashPassword (md ex_pw_user) "pw2" ->
       GetUserInfo (md ex_pw_user) (uid ex_pw_user) other ex_changed_world
       = Ret (None, answered ex_changed_world).
Proof.
  apply (UpdateUser_then_login ex_pw_user ex_changed "pw2" (mkWorld ∅ [] [])
           ex_changed_world).
  - exact ex_pw_user_wt.
  - discriminate.
  - reflexivity.
  - reflexivity.
Defined.

(** ** The listing and the lookup *)

(** A loop that ends with a map has decoded every row. *)
Lemma load_rows_Some (um : Model) (l : list (string * Item)) :
  forall users0 users : gmap string User,
    load_rows um l users0 = Ret (Some users) ->
    exists us : list User,
      Forall2 (fun r u => rehydrate um r.1 r.2 = Ret (Some u)) l us
      /\ users = foldl (fun m ru => <[ru.1.1 := ru.2]> m) users0 (zip l us).
Proof.
  induction l as [|[id row] l IH]; intros users0 users E.
  - injection E as <-. exists []. split; [constructor|reflexivity].
  - cbn [load_rows] in E.
    destruct (rehydrate um id row) as [[u|]|] eqn:R; try discriminate.
    destruct (IH _ _ E) as (us & Hf & ->).
    exists (u :: us). split; [constructor; assumption|reflexivity].
Qed.

(** What a listing that returned a map holds. *)
Lemma listing_lookup (um : Model) (w w1 : World) (users : gmap string User) :
  GetRegisteredUsers um w = Ret (Some users, w1) ->
  forall id : string,
    match rows w !! id with
    | Some row => exists u, rehydrate um id row = Ret (Some u)
                            /\ users !! id = Some u
    | None => users !! id = None
    end.
Proof.
  rewrite GetRegisteredUsers_eq. destruct (failing w); [discriminate|].
  destruct (load_rows um _ _) as [[users'|]|] eqn:L; try discriminate.
  intros [= -> _] id.
  apply load_rows_Some in L as (us & Hf & ->).
  pose proof (load_rows_lookup um _ us Hf (NoDup_fst_map_to_list _) ∅ id) as Hl.
  destruct (rows w !! id) as [row|] eqn:R.
  - assert ((id, row) ∈ map_to_list (rows w)) as Hin
      by (apply elem_of_map_to_list; exact R).
    pose proof Hin as Hin'. apply list_elem_of_lookup in Hin' as [i Hi].
    destruct (Forall2_lookup_l _ _ _ i (id, row) Hf Hi) as (u & _ & Hu).
    exists u. split; [exact Hu|]. apply Hl. left. exists row. auto.
  - apply eq_None_not_Some. intros [u E].
    apply Hl in E as [(row & Hin & _)|[_ E]].
    + apply elem_of_map_to_list in Hin. congruence.
    + rewrite lookup_empty in E. discriminate.
Qed.

(** X9.  The map [GetRegisteredUsers] returns holds under every uid what
    [AdminGetUserInfoByID] returns for it on the same table: the account,
    or nothing for a uid without item. *)
Theorem listing_agrees_with_lookup (um : Model) (w w1 w2 : World)
  (users : gmap string User) (id : string) :
  GetRegisteredUsers um w = Ret (Some users, w1) ->
  rows w2 = rows w ->
  failing w2 = false ->
  AdminGetUserInfoByID um id w2 = Ret (users !! id, answered w2).
Proof.
  intros L R F. pose proof (listing_lookup um w w1 users L id) as H.
  rewrite AdminGetUserInfoByID_eq, F, R.
  destruct (rows w !! id) as [row|].
  - destruct H as (u & -> & ->). reflexivity.
  - rewrite H. reflexivity.
Qed.

Lemma listing_agrees_with_lookup_witness :
  AdminGetUserInfoByID ex_um "ab@x.com" ex_first_world
  = Ret (ex_listing !! "ab@x.com", answered ex_first_world).
Proof.
  apply (listing_agrees_with_lookup ex_um ex_first_world
           (answered ex_first_world) ex_first_world ex_listing "ab@x.com").
  - vm_compute. reflexivity.
  - reflexivity.
  - reflexivity.
Defined.

(** ** Tables that only [persist] wrote *)

Lemma stored_by_persist_insert (us : User) (w w' : World) :
  User_wt us -> stored_by_persist w ->
  rows w' = <[uid us := item_of us]> (rows w) ->
  stored_by_persist w'.
Proof.
  intros W S E. unfold stored_by_persist. rewrite E.
  apply map_Forall_insert_2; [|exact S]. exists us. auto.
Qed.

Lemma stored_by_persist_persist (us : User) (w w' : World) (b : bool) :
  User_wt us -> stored_by_persist w ->
  persist us w = Ret (b, w') -> stored_by_persist w'.
Proof.
  intros W S. rewrite persist_eq. intros [= _ <-].
  destruct (failing w); [exact S|].
  apply (stored_by_persist_insert us w); auto.
Qed.

(** X10.  On a table that only [persist] wrote, the listing returns a map with
    every uid of the table, whatever bytes the accounts held: no record is
    undecodable and none makes the listing panic. *)
Theorem persisted_tables_are_listable (um : Model) (w : World) :
  stored_by_persist w ->
  failing w = false ->
  exists users : gmap string User,
    GetRegisteredUsers um w = Ret (Some users, answered w)
    /\ dom users = dom (rows w)
    /\ forall (id : string) (u : User),
         users !! id = Some u ->
         exists us : User,
           rows w !! id = Some (item_of us) /\ uid us = id
           /\ u = reloaded um us.
Proof.
  intros S F.
  assert (forall id row, rows w !! id = Some row ->
            exists us, row = item_of us /\ uid us = id
                       /\ rehydrate um id row = Ret (Some (reloaded um us)))
    as Hrow.
  { intros id row R. destruct (S id row R) as (us & W & <- & ->).
    exists us. split; [reflexivity|]. split; [reflexivity|].
    apply rehydrate_item_of. exact W. }
  destruct (GetRegisteredUsers_all_or_nothing um w F)
    as [[(id & row & R & E) _]|(users & -> & Hdom & Hl)].
  - intros id row R. destruct (Hrow id row R) as (us & _ & _ & ->). discriminate.
  - destruct (Hrow id row R) as (us & _ & _ & E'). congruence.
  - exists users. split; [reflexivity|]. split; [exact Hdom|].
    intros id u Hu. apply Hl in Hu as (row & R & E).
    destruct (Hrow id row R) as (us & -> & Hid & E').
    exists us. split; [exact R|]. split; [exact Hid|]. congruence.
Qed.

Lemma ex_first_stored : stored_by_persist ex_first_world.
Proof.
  apply map_Forall_insert_2; [|apply map_Forall_empty].
  exists ex_first. split; [|split; reflexivity].
  split; [|apply map_Forall_empty].
  change (int64_ok 1700000001).
  unfold int64_ok, strconv.minInt64, strconv.maxInt64. lia.
Qed.

Lemma persisted_tables_are_listable_witness :
  exists users : gmap string User,
    GetRegisteredUsers ex_um ex_first_world
    = Ret (Some users, answered ex_first_world)
    /\ dom users = dom (rows ex_first_world)
    /\ forall (id : string) (u : User),
         users !! id = Some u ->
         exists us : User,
           rows ex_first_world !! id = Some (item_of us) /\ uid us = id
           /\ u = reloaded ex_um us.
Proof.
  apply (persisted_tables_are_listable ex_um ex_first_world).
  - exact ex_first_stored.
  - reflexivity.
Defined.

(** X11.  Every function of the package that writes keeps the table one that
    only [persist] wrote. *)
Theorem writers_keep_tables_listable (us : User) (w : World) :
  User_wt us ->
  stored_by_persist w ->
  (forall r w', DisableUser us w = Ret (r, w') -> stored_by_persist w')
  /\ (forall r w', EnableUser us w = Ret (r, w') -> stored_by_persist w')
  /\ (forall password r w',
        UpdateUser us password w = Ret (r, w') -> stored_by_persist w')
  /\ (forall actionType desc ip r w',
        AddActivityLog us actionType desc ip w = Ret (r, w') ->
        stored_by_persist w')
  /\ (forall um raw digest ip r w',
        RegisterUserPlainKey um raw digest ip w = Ret (r, w') ->
        stored_by_persist w').
Proof.
  intros W S. split_and!.
  - intros r w'. unfold DisableUser, bind, ret.
    destruct (persist _ w) as [[b w0]|] eqn:P; [|discriminate].
    intros [= _ <-]. refine (stored_by_persist_persist _ _ _ _ _ S P). exact W.
  - intros r w'. unfold EnableUser, bind, ret.
    destruct (persist _ w) as [[b w0]|] eqn:P; [|discriminate].
    intros [= _ <-]. refine (stored_by_persist_persist _ _ _ _ _ S P). exact W.
  - intros password r w'. unfold UpdateUser, bind, ret.
    destruct (persist _ w) as [[b w0]|] eqn:P; [|discriminate].
    intros [= _ <-]. refine (stored_by_persist_persist _ _ _ _ _ S P). exact W.
  - intros actionType desc ip r w' E.
    destruct (logs us) as [m|] eqn:L.
    2:{ unfold AddActivityLog in E. rewrite L in E. discriminate E. }
    rewrite (AddActivityLog_eq us m) in E by exact L. cbv zeta in E.
    injection E as _ <-.
    destruct (failing w); [exact S|].
    assert (User_wt (appended us m
                       (mkLogLine (time.int64 (hd 0 (clock w))) ip actionType desc)))
      as W'.
    { destruct W as [W1 W2]. split; [exact W1|].
      unfold appended. cbn [logs set_logs logs_wt LogType].
      rewrite L in W2. cbn [logs_wt] in W2.
      apply map_Forall_insert_2; [|exact W2].
      apply Forall_app. split.
      - destruct (m !! actionType) as [l|] eqn:El; [exact (W2 _ _ El)|constructor].
      - constructor; [apply int64_range|constructor]. }
    apply (stored_by_persist_insert _ w _ W' S). reflexivity.
  - intros um raw digest ip r w'. rewrite RegisterUserPlainKey_eq. cbv zeta.
    destruct (AdminGetUserInfoByID um _ w) as [[[found|] w0]|] eqn:A;
      try discriminate; apply AdminGetUserInfoByID_world in A; subst w0.
    + intros [= _ <-]. exact S.
    + destruct (failing (answered w)); intros [= _ <-]; [exact S|].
      apply (stored_by_persist_insert
               (mkUser (strings.Replace raw "+" "" (-1)) digest "1" (Some ∅)
                       (time.int64 (hd 0 (clock (answered w)))) ip um) w).
      * split; [apply int64_range|apply map_Forall_empty].
      * exact S.
      * reflexivity.
Qed.

Lemma ex_first_wt : User_wt ex_first.
Proof.
  split; [|apply map_Forall_empty].
  change (int64_ok 1700000001).
  unfold int64_ok, strconv.minInt64, strconv.maxInt64. lia.
Qed.

Lemma writers_keep_tables_listable_witness :
  (forall r w', DisableUser ex_first ex_first_world = Ret (r, w') ->
                stored_by_persist w')
  /\ (forall r w', EnableUser ex_first ex_first_world = Ret (r, w') ->
                   stored_by_persist w')
  /\ (forall password r w',
        UpdateUser ex_first password ex_first_world = Ret (r, w') ->
        stored_by_persist w')
  /\ (forall actionType desc ip r w',
        AddActivityLog ex_first actionType desc ip ex_first_world = Ret (r, w') ->
        stored_by_persist w')
  /\ (forall um raw digest ip r w',
        RegisterUserPlainKey um raw digest ip ex_first_world = Ret (r, w') ->
        stored_by_persist w').
Proof.
  apply (writers_keep_tables_listable ex_first ex_first_world).
  - exact ex_first_wt.
  - exact ex_first_stored.
Defined.

(** ** Records that hold the literal null *)

Ltac other_value :=
  let H := fresh "H" in
  intros H; unfold literal in H;
  repeat (cbn [mbind option_bind] in H;
          first
            [ case_match
            | match type of H with
              | context [@mbind _ _ _ _ _ ?o] =>
                lazymatch o with
                | context [@mbind _ _ _ _ _ _] => fail
                | _ => destruct o as [[? ?]|] eqn:?
                end
              end ];
          simplify_eq);
  cbn [mbind option_bind] in H; simplify_eq.

Lemma parse_JNull (text : string) :
  parse (bytes text) = Some JNull <-> is_null text = true.
Proof.
  unfold parse, is_null. cbv zeta.
  destruct (skipSpace (bytes text)) as [|c t] eqn:Hs.
  - split; discriminate.
  - cbn [parse_value].
    destruct (c =? "{")%char eqn:C1.
    { apply Ascii.eqb_eq in C1 as ->. split; [other_value|discriminate]. }
    destruct (c =? "[")%char eqn:C2.
    { apply Ascii.eqb_eq in C2 as ->. split; [other_value|discriminate]. }
    destruct (c =? dquote)%char eqn:C3.
    { apply Ascii.eqb_eq in C3 as ->. split; [other_value|discriminate]. }
    destruct (c =? "t")%char eqn:C4.
    { apply Ascii.eqb_eq in C4 as ->. split; [other_value|discriminate]. }
    destruct (c =? "f")%char eqn:C5.
    { apply Ascii.eqb_eq in C5 as ->. split; [other_value|discriminate]. }
    destruct (c =? "n")%char eqn:C6.
    { unfold literal. cbv zeta.
      change (length (bytes "null")) with 4%nat.
      destruct (decide (take 4 (c :: t) = bytes "null")) as [E|E].
      - rewrite bool_decide_true by exact E. cbn [mbind option_bind andb].
        destruct (skipSpace (drop 4 (c :: t))).
        + split; reflexivity.
        + split; [discriminate|]. intros H.
          apply bool_decide_eq_true in H. discriminate.
      - rewrite bool_decide_false by exact E. split; discriminate. }
    split; [other_value|].
    intros H. apply andb_true_iff in H as [H _].
    apply bool_decide_eq_true in H. injection H as -> _. discriminate.
Qed.

(** The rows on which [rehydrate] dereferences nil. *)
Lemma rehydrate_Panic (um : Model) (id : string) (row : Item) :
  rehydrate um id row = Panic <-> is_null (it_info row) = true.
Proof.
  rewrite <- parse_JNull. unfold rehydrate, Unmarshal_User.
  destruct (parse (bytes (it_info row))) as [v|]; cbn [mbind option_bind].
  2:{ split; discriminate. }
  destruct v; try (split; discriminate).
  - split; reflexivity.
  - destruct (into_struct _ _ _) as [u|]; cbn [mbind option_bind].
    + destruct (Unmarshal_logs _ _); split; discriminate.
    + split; discriminate.
Qed.

(** X12.  Among the items of this model, which carry the four attributes that
    [persist] writes, the lookups panic on exactly one kind of record:
    they panic when, and only when, the read is answered with an item
    whose [info] is the JSON literal [null].  (An item that lacks
    an attribute is no [Item]; what the lookups do with one is not
    stated here.) *)
Theorem lookup_panics_iff_info_null (um : Model) (id password : string)
  (w : World) :
  (AdminGetUserInfoByID um id w = Panic <->
   failing w = false
   /\ exists row, rows w !! id = Some row /\ is_null (it_info row) = true)
  /\ (GetUserInfo um id password w = Panic <->
      AdminGetUserInfoByID um id w = Panic).
Proof.
  split.
  - rewrite AdminGetUserInfoByID_eq. destruct (failing w).
    { split; [discriminate|]. intros [? _]. discriminate. }
    destruct (rows w !! id) as [row|].
    + pose proof (rehydrate_Panic um id row) as H.
      destruct (rehydrate um id row) as [o|].
      * split; [discriminate|]. intros (_ & row' & [= <-] & N).
        apply H in N. discriminate.
      * split; [|reflexivity]. intros _. split; [reflexivity|].
        exists row. split; [reflexivity|]. apply H. reflexivity.
    + split; [discriminate|]. intros (_ & row & ? & _). discriminate.
  - rewrite GetUserInfo_eq.
    destruct (AdminGetUserInfoByID um id w) as [[[u|] w']|].
    + destruct (bool_decide _); split; discriminate.
    + split; discriminate.
    + split; reflexivity.
Qed.

(** X13.  An item whose [logs] is the literal [null] is read back as an account
    with the nil map: [GetAllActivity] returns nil for it, every
    [AddActivityLog] on it panics, and [persist] writes [null] again. *)
Theorem null_logs_break_AddActivityLog (um : Model) (id : string) (row : Item)
  (u : User) :
  is_null (it_logs row) = true ->
  rehydrate um id row = Ret (Some u) ->
  GetAllActivity u = None
  /\ it_logs (item_of u) = "null"
  /\ forall (actionType desc ip : string) (w : World),
       AddActivityLog u actionType desc ip w = Panic.
Proof.
  intros N R.
  assert (logs u = None) as L.
  { unfold rehydrate in R.
    destruct (Unmarshal_User _ _) as [[u1|]|]; try discriminate.
    unfold Unmarshal_logs in R. apply parse_JNull in N. rewrite N in R.
    cbn in R. injection R as <-. reflexivity. }
  split; [exact L|]. split.
  - unfold item_of. cbn [it_logs]. rewrite L. reflexivity.
  - intros actionType desc ip w. unfold AddActivityLog. rewrite L. reflexivity.
Qed.

Lemma null_logs_break_AddActivityLog_witness :
  GetAllActivity ex_nil_user = None
  /\ it_logs (item_of ex_nil_user) = "null"
  /\ forall (actionType desc ip : string) (w : World),
       AddActivityLog ex_nil_user actionType desc ip w = Panic.
Proof.
  apply (null_logs_break_AddActivityLog ex_um "u" ex_null_logs ex_nil_user).
  - reflexivity.
  - reflexivity.
Defined.

(** ** The activity log in memory *)

(** X14.  Whether or not the write is accepted, [AddActivityLog] leaves the
    account with one line more at the end of the category named, stamped
    with the clock, and with every other category as it was; lines stay
    filed under their own type. *)
Theorem AddActivityLog_in_memory (us us' : User)
  (actionType desc ip : string) (ok : bool) (w w' : World) :
  AddActivityLog us actionType desc ip w = Ret ((us', ok), w') ->
  lines us' actionType
  = lines us actionType
    ++ [Some (mkLogLine (time.int64 (hd 0 (clock w))) ip actionType desc)]
  /\ (forall k : string, k <> actionType -> lines us' k = lines us k)
  /\ (exists m, GetAllActivity us' = Some m
                /\ dom m = {[ actionType ]} ∪ dom (default ∅ (logs us)))
  /\ (logs_keyed us -> logs_keyed us')
  /\ ok = negb (failing w).
Proof.
  intros E. destruct (logs us) as [m|] eqn:L.
  2:{ unfold AddActivityLog in E. rewrite L in E. discriminate E. }
  rewrite (AddActivityLog_eq us m) in E by exact L. cbv zeta in E.
  injection E as <- <- <-. unfold lines, appended, GetAllActivity, logs_keyed.
  rewrite L. cbn [logs set_logs LogType mbind option_bind default].
  split_and!.
  - rewrite lookup_insert_eq. reflexivity.
  - intros k Hk. rewrite lookup_insert_ne by congruence. reflexivity.
  - eexists. split; [reflexivity|]. apply dom_insert_L.
  - intros K. apply map_Forall_insert_2; [|exact K].
    apply Forall_app. split.
    + destruct (m !! actionType) as [l|] eqn:El; [exact (K _ _ El)|constructor].
    + constructor; [|constructor]. eexists. split; reflexivity.
  - reflexivity.
Qed.

Lemma AddActivityLog_in_memory_witness :
  lines ex_logged "shards"
  = lines ex_user "shards"
    ++ [Some (mkLogLine (time.int64 (hd 0 (clock ex_down))) "10.0.0.2" "shards"
                        "created shard")]
  /\ (forall k : string, k <> "shards" -> lines ex_logged k = lines ex_user k)
  /\ (exists m, GetAllActivity ex_logged = Some m
                /\ dom m = {[ "shards" ]} ∪ dom (default ∅ (logs ex_user)))
  /\ (logs_keyed ex_user -> logs_keyed ex_logged)
  /\ false = negb (failing ex_down).
Proof.
  apply (AddActivityLog_in_memory ex_user ex_logged "shards" "created shard"
           "10.0.0.2" false ex_down
           (mkWorld ∅ [] [])).
  vm_compute. reflexivity.
Defined.

(** ** What a write leaves alone *)

(** X15.  The methods of an account write its own item and no other. *)
Theorem writes_touch_one_row (us : User) (id : string) (w : World) :
  id <> uid us ->
  (forall r w', DisableUser us w = Ret (r, w') -> rows w' !! id = rows w !! id)
  /\ (forall r w', EnableUser us w = Ret (r, w') -> rows w' !! id = rows w !! id)
  /\ (forall password r w',
        UpdateUser us password w = Ret (r, w') -> rows w' !! id = rows w !! id)
  /\ (forall actionType desc ip r w',
        AddActivityLog us actionType desc ip w = Ret (r, w') ->
        rows w' !! id = rows w !! id).
Proof.
  intros Hne.
  assert (forall (u : User) b w', uid u = uid us -> persist u w = Ret (b, w') ->
            rows w' !! id = rows w !! id) as P.
  { intros u b w' Hu. rewrite persist_eq. intros [= _ <-]. cbn [rows].
    destruct (failing w); [reflexivity|].
    apply lookup_insert_ne. congruence. }
  split_and!.
  - intros r w'. unfold DisableUser, bind, ret.
    destruct (persist _ w) as [[b w0]|] eqn:E; [|discriminate].
    intros [= _ <-]. refine (P _ _ _ _ E). reflexivity.
  - intros r w'. unfold EnableUser, bind, ret.
    destruct (persist _ w) as [[b w0]|] eqn:E; [|discriminate].
    intros [= _ <-]. refine (P _ _ _ _ E). reflexivity.
  - intros password r w'. unfold UpdateUser, bind, ret.
    destruct (persist _ w) as [[b w0]|] eqn:E; [|discriminate].
    intros [= _ <-]. refine (P _ _ _ _ E). reflexivity.
  - intros actionType desc ip r w' E.
    destruct (logs us) as [m|] eqn:L.
    2:{ unfold AddActivityLog in E. rewrite L in E. discriminate E. }
    rewrite (AddActivityLog_eq us m) in E by exact L. cbv zeta in E.
    injection E as _ <-. cbn [rows].
    destruct (failing w); [reflexivity|].
    apply lookup_insert_ne. cbn. congruence.
Qed.

Lemma writes_touch_one_row_witness :
  (forall r w', DisableUser bad_user ex_first_world = Ret (r, w') ->
                rows w' !! "ab@x.com" = rows ex_first_world !! "ab@x.com")
  /\ (forall r w', EnableUser bad_user ex_first_world = Ret (r, w') ->
                   rows w' !! "ab@x.com" = rows ex_first_world !! "ab@x.com")
  /\ (forall password r w',
        UpdateUser bad_user password ex_first_world = Ret (r, w') ->
        rows w' !! "ab@x.com" = rows ex_first_world !! "ab@x.com")
  /\ (forall actionType desc ip r w',
        AddActivityLog bad_user actionType desc ip ex_first_world = Ret (r, w') ->
        rows w' !! "ab@x.com" = rows ex_first_world !! "ab@x.com").
Proof.
  apply (writes_touch_one_row bad_user "ab@x.com" ex_first_world).
  discriminate.
Defined.

(** ** Keys that are no digest *)

(** X16.  [RegisterUserPlainKey] stores the key it is given.  A digest has 44
    characters, so no password opens an account whose stored key has
    another length. *)
Theorem key_of_other_length_never_matches (um : Model) (id password : string)
  (w : World) (row : Item) :
  rows w !! id = Some row ->
  String.length (it_key row) <> 44%nat ->
  String.length (HashPassword um password) = 44%nat
  /\ forall (u : User) (w' : World),
       GetUserInfo um id password w <> Ret (Some u, w').
Proof.
  intros R Hlen. split; [apply HashPassword_length|]. intros u w' E.
  apply GetUserInfo_Some in E as (_ & _ & data & R' & _ & K & _).
  rewrite R in R'. injection R' as <-.
  apply Hlen. rewrite K. apply HashPassword_length.
Qed.

Lemma key_of_other_length_never_matches_witness :
  String.length (HashPassword ex_um "digest") = 44%nat
  /\ forall (u : User) (w' : World),
       GetUserInfo ex_um "ab@x.com" "digest" ex_first_world
       <> Ret (Some u, w').
Proof.
  apply (key_of_other_length_never_matches ex_um "ab@x.com" "digest"
           ex_first_world (item_of ex_first)).
  - reflexivity.
  - vm_compute. discriminate.
Defined.

(** ** Two copies of one account *)

(** X17.  [persist] writes the whole item from the copy in memory.  A write
    through a second copy of the account, taken before the account was
    disabled, stores that copy's flag again: the account that was disabled
    authenticates. *)
Theorem stale_copy_undoes_disable (a a1 b b1 : User)
  (password actionType desc ip : string) (w w1 w2 : World) :
  uid b = uid a ->
  User_wt b ->
  Enabled b <> "0" ->
  key b = HashPassword (md b) password ->
  DisableUser a w = Ret ((a1, true), w1) ->
  AddActivityLog b actionType desc ip w1 = Ret ((b1, true), w2) ->
  failing w2 = false ->
  rows w1 !! uid a = Some (item_of (set_Enabled "0" a))
  /\ rows w2 !! uid a = Some (item_of b1)
  /\ Enabled b1 = Enabled b
  /\ GetUserInfo (md b) (uid a) password w2
     = Ret (Some (reloaded (md b) b1), answered w2).
Proof.
  intros Hid W E K D A F.
  unfold DisableUser, bind, ret in D. rewrite persist_eq in D.
  destruct (failing w); [discriminate|]. injection D as <- <-.
  destruct (logs b) as [m|] eqn:L.
  2:{ unfold AddActivityLog in A. rewrite L in A. discriminate A. }
  rewrite (AddActivityLog_eq b m) in A by exact L. cbv zeta in A.
  set (line := mkLogLine _ ip actionType desc) in A.
  destruct (failing _) eqn:F1; [discriminate|]. injection A as <- <-.
  cbn [rows uid set_Enabled]. rewrite Hid.
  assert (User_wt (appended b m line)) as W'.
  { destruct W as [W1 W2]. split; [exact W1|].
    unfold appended. cbn [logs set_logs logs_wt LogType line].
    rewrite L in W2. cbn [logs_wt] in W2.
    apply map_Forall_insert_2; [|exact W2].
    apply Forall_app. split.
    - destruct (m !! actionType) as [l|] eqn:El; [exact (W2 _ _ El)|constructor].
    - constructor; [apply int64_range|constructor]. }
  split_and!.
  - apply lookup_insert_eq.
  - apply lookup_insert_eq.
  - reflexivity.
  - apply GetUserInfo_Some. split; [exact F|]. split; [reflexivity|].
    exists (item_of (appended b m line)). cbn [rows]. split_and!.
    + apply lookup_insert_eq.
    + rewrite <- Hid.
      exact (rehydrate_item_of (md b) (appended b m line) W').
    + exact K.
    + exact E.
Qed.

Lemma stale_copy_undoes_disable_witness :
  rows ex_off_again !! uid ex_pw_user
  = Some (item_of (set_Enabled "0" ex_pw_user))
  /\ rows ex_stale_world !! uid ex_pw_user = Some (item_of ex_stale)
  /\ Enabled ex_stale = Enabled ex_pw_user
  /\ GetUserInfo (md ex_pw_user) (uid ex_pw_user) "pw1" ex_stale_world
     = Ret (Some (reloaded (md ex_pw_user) ex_stale), answered ex_stale_world).
Proof.
  apply (stale_copy_undoes_disable ex_pw_user ex_off ex_pw_user ex_stale "pw1"
           "account" "logged in" "10.0.0.2"
           (mkWorld ∅ [] [1700000001; 1700000002])
           ex_off_again ex_stale_world).
  - reflexivity.
  - exact ex_pw_user_wt.
  - discriminate.
  - reflexivity.
  - reflexivity.
  - rewrite (AddActivityLog_eq ex_pw_user ∅) by reflexivity. reflexivity.
  - reflexivity.
Defined.

(** * Setting the table up *)

Lemma polls_S (n : nat) :
  polls (S n) = polls n ++ [CDescribeTable; CSleep].
Proof.
  unfold polls. induction n as [|n IH]; [reflexivity|].
  change (concat (replicate (S (S n)) [CDescribeTable; CSleep]))
    with ([CDescribeTable; CSleep]
          ++ concat (replicate (S n) [CDescribeTable; CSleep])).
  rewrite IH at 1. reflexivity.
Qed.

Lemma polls_cons (n : nat) :
  polls (S n) = [CDescribeTable; CSleep] ++ polls n.
Proof. reflexivity. Qed.

(** Waiting through replies that are pending up to one that is active. *)
Lemma waitActive_until_active (pre : list reply) :
  forall (status : string) (r : reply) (post : list reply) (calls : list call),
    status <> "ACTIVE" ->
    Forall pending pre -> active r ->
    waitActive (Some status) (pre ++ r :: post) calls
    = Returned (calls ++ polls (S (length pre))).
Proof.
  induction pre as [|p pre IH]; intros status r post calls Hs Hp Ha.
  - cbn [app waitActive]. rewrite decide_False by exact Hs.
    rewrite Ha. destruct post; cbn [waitActive];
      rewrite decide_True by reflexivity; reflexivity.
  - inversion Hp as [|? ? (st & Hd & Hst) Hp']; subst.
    cbn [app waitActive]. rewrite decide_False by exact Hs.
    rewrite Hd. rewrite (IH st r post _ Hst Hp' Ha).
    cbn [length]. rewrite (polls_cons (S (length pre))).
    rewrite <- app_assoc. reflexivity.
Qed.

(** Waiting through replies that are all pending does not end. *)
Lemma waitActive_all_pending (script : list reply) :
  forall (status : string) (calls : list call),
    status <> "ACTIVE" -> Forall pending script ->
    waitActive (Some status) script calls
    = Polling (calls ++ polls (length script)).
Proof.
  induction script as [|p script IH]; intros status calls Hs Hp.
  - cbn [waitActive]. rewrite decide_False by exact Hs.
    unfold polls. cbn. rewrite app_nil_r. reflexivity.
  - inversion Hp as [|? ? (st & Hd & Hst) Hp']; subst.
    cbn [waitActive]. rewrite decide_False by exact Hs.
    rewrite Hd. rewrite (IH st _ Hst Hp').
    cbn [length]. rewrite (polls_cons (length script)).
    rewrite <- app_assoc. reflexivity.
Qed.


(** The calls of the loop are describes and sleeps. *)
Lemma waitActive_calls (script : list reply) :
  forall (res : option string) (calls : list call),
    exists more : list call,
      calls_of (waitActive res script calls) = calls ++ more
      /\ CCreateTable ∉ more.
Proof.
  induction script as [|p script IH]; intros res calls.
  - exists []. rewrite app_nil_r. split; [|apply not_elem_of_nil].
    destruct res as [status|]; [|reflexivity]. cbn [waitActive].
    destruct (decide _); reflexivity.
  - destruct res as [status|].
    2:{ exists []. rewrite app_nil_r. split; [|apply not_elem_of_nil].
        destruct p; reflexivity. }
    cbn [waitActive]. destruct (decide (status = "ACTIVE")).
    { exists []. rewrite app_nil_r. split; [reflexivity|apply not_elem_of_nil]. }
    destruct (description p) as [st|].
    + destruct (IH (Some st) (calls ++ [CDescribeTable; CSleep])) as (more & -> & Hn).
      exists ([CDescribeTable; CSleep] ++ more). rewrite <- app_assoc.
      split; [reflexivity|].
      rewrite elem_of_app, !elem_of_cons, elem_of_nil.
      intros [[?|[?|[]]]|?]; [discriminate|discriminate|auto].
    + exists [CDescribeTable]. split; [reflexivity|].
      rewrite elem_of_cons, elem_of_nil. intros [?|[]]. discriminate.
Qed.

(** Waiting through pending replies up to a nil description. *)
Lemma waitActive_until_nil (pre : list reply) :
  forall (status : string) (r : reply) (post : list reply) (calls : list call),
    status <> "ACTIVE" ->
    Forall pending pre -> description r = None ->
    waitActive (Some status) (pre ++ r :: post) calls
    = Panicked (calls ++ polls (length pre) ++ [CDescribeTable]).
Proof.
  induction pre as [|p pre IH]; intros status r post calls Hs Hp Hn.
  - cbn [app waitActive]. rewrite decide_False by exact Hs.
    rewrite Hn. reflexivity.
  - inversion Hp as [|? ? (st & Hd & Hst) Hp']; subst.
    cbn [app waitActive]. rewrite decide_False by exact Hs.
    rewrite Hd. rewrite (IH st r post _ Hst Hp' Hn).
    cbn [length]. rewrite (polls_cons (length pre)).
    rewrite <- !app_assoc. reflexivity.
Qed.

(** X18.  [initTable] on a table that exists: it polls once a second while the
    status is not ACTIVE and returns after the first description that is
    ACTIVE, without creating a table and whatever the replies after that
    one would be. *)
Theorem initTable_waits_until_active (pre : list reply) (r : reply)
  (post : list reply) :
  failed (hd r pre) = false ->
  Forall pending pre ->
  active r ->
  initTable (pre ++ r :: post) = Returned (CDescribeTable :: polls (length pre)).
Proof.
  intros F Hp Ha. destruct pre as [|first pre].
  - cbn [app hd] in *. unfold initTable. rewrite F, Ha.
    destruct post; cbn [waitActive]; rewrite decide_True by reflexivity;
      reflexivity.
  - cbn [hd] in F. inversion Hp as [|? ? (st & Hd & Hst) Hp']; subst.
    cbn [app]. unfold initTable. rewrite F, Hd.
    rewrite (waitActive_until_active pre st r post _ Hst Hp' Ha). reflexivity.
Qed.

Lemma ex_creating_pending : pending ex_creating.
Proof. exists "CREATING". split; [reflexivity|discriminate]. Qed.

Lemma initTable_waits_until_active_witness :
  initTable ([ex_creating; ex_creating] ++ ex_active :: [ex_unreached])
  = Returned (CDescribeTable :: polls (length [ex_creating; ex_creating])).
Proof.
  apply (initTable_waits_until_active [ex_creating; ex_creating] ex_active
           [ex_unreached]).
  - reflexivity.
  - constructor; [exact ex_creating_pending|].
    constructor; [exact ex_creating_pending|constructor].
  - reflexivity.
Defined.

(** X19.  [CreateTable] is called when, and only when, the first
    [DescribeTable] returned an error, whatever the error; then it is
    called once, right after that describe. *)
Theorem initTable_creates_iff_describe_fails (script : list reply) :
  (CCreateTable ∈ calls_of (initTable script) <->
   exists first rest, script = first :: rest /\ failed first = true)
  /\ exists more : list call,
       (CCreateTable ∉ more)
       /\ (calls_of (initTable script) = more
           \/ calls_of (initTable script)
              = [CDescribeTable; CCreateTable] ++ more).
Proof.
  destruct script as [|first rest].
  - cbn. split.
    + split; [intros H; apply elem_of_nil in H; destruct H|].
      intros (? & ? & ? & _). discriminate.
    + exists []. split; [apply not_elem_of_nil|auto].
  - unfold initTable. destruct (failed first) eqn:F.
    + assert (exists more,
                calls_of match rest with
                         | [] => Polling [CDescribeTable; CCreateTable]
                         | r2 :: script =>
                           waitActive (description r2) script
                             [CDescribeTable; CCreateTable; CDescribeTable]
                         end
                = [CDescribeTable; CCreateTable] ++ more
                /\ CCreateTable ∉ more) as (more & E & Hn).
      { destruct rest as [|r2 rest].
        - exists []. split; [reflexivity|apply not_elem_of_nil].
        - destruct (waitActive_calls rest (description r2)
                      [CDescribeTable; CCreateTable; CDescribeTable])
            as (more & E & Hn).
          exists (CDescribeTable :: more). split; [exact E|].
          rewrite elem_of_cons. intros [?|?]; [discriminate|auto]. }
      split.
      * split; [eauto|]. intros _. rewrite E.
        apply list_elem_of_further, list_elem_of_here.
      * exists more. auto.
    + destruct (waitActive_calls rest (description first) [CDescribeTable])
        as (more & E & Hn).
      assert (CCreateTable ∉ calls_of (waitActive (description first) rest
                                         [CDescribeTable])) as Hno.
      { rewrite E. cbn. rewrite elem_of_cons. intros [?|?]; [discriminate|auto]. }
      split.
      * split; [intros H; destruct (Hno H)|].
        intros (f & r & [= <- <-] & F'). congruence.
      * eexists. split; [exact Hno|]. left. reflexivity.
Qed.



(** X21.  While every description is of a table in another state than ACTIVE,
    [initTable] goes on polling, one sleep after each describe: there is
    no bound on the number of polls and no other way out. *)
Theorem initTable_never_gives_up (first : reply) (script : list reply) :
  failed first = false ->
  Forall pending (first :: script) ->
  initTable (first :: script)
  = Polling (CDescribeTable :: polls (length script)).
Proof.
  intros F Hp. unfold initTable. rewrite F.
  inversion Hp as [|? ? (st & Hd & Hst) Hp']; subst.
  rewrite Hd. rewrite (waitActive_all_pending script st _ Hst Hp').
  reflexivity.
Qed.

Lemma initTable_never_gives_up_witness :
  initTable (ex_creating :: [ex_creating; ex_creating])
  = Polling (CDescribeTable :: polls (length [ex_creating; ex_creating])).
Proof.
  apply (initTable_never_gives_up ex_creating [ex_creating; ex_creating]).
  - reflexivity.
  - constructor; [exact ex_creating_pending|].
    constructor; [exact ex_creating_pending|].
    constructor; [exact ex_creating_pending|constructor].
Defined.

(** X22.  [initTable] reads [res.TableStatus] of whatever pointer the describe
    returned, so a describe that returns nil, as one that failed does,
    makes it panic: after the polls made so far when the table was there
    and not ready; at once when the first describe returns nil without an
    error; and after [CreateTable] when the first describe failed and the
    second returns nil. *)
Theorem initTable_panics_on_nil_description (first : reply)
  (pre : list reply) (r : reply) (post : list reply)
  (d : option string) (e : bool) :
  failed first = false ->
  Forall pending (first :: pre) ->
  description r = None ->
  initTable (first :: pre ++ r :: post)
  = Panicked (CDescribeTable :: polls (length pre) ++ [CDescribeTable])
  /\ initTable (mkReply None false :: post) = Panicked [CDescribeTable]
  /\ initTable (mkReply d true :: mkReply None e :: post)
     = Panicked [CDescribeTable; CCreateTable; CDescribeTable].
Proof.
  intros F Hp Hn. split_and!.
  - inversion Hp as [|? ? (st & Hd & Hst) Hp']; subst.
    unfold initTable. rewrite F, Hd.
    rewrite (waitActive_until_nil pre st r post _ Hst Hp' Hn). reflexivity.
  - destruct post; reflexivity.
  - destruct post; reflexivity.
Qed.

Lemma initTable_panics_on_nil_description_witness :
  initTable (ex_creating :: [ex_creating] ++ ex_unreached :: [ex_active])
  = Panicked (CDescribeTable :: polls (length [ex_creating])
              ++ [CDescribeTable])
  /\ initTable (mkReply None false :: [ex_active]) = Panicked [CDescribeTable]
  /\ initTable (mkReply None true :: mkReply None true :: [ex_active])
     = Panicked [CDescribeTable; CCreateTable; CDescribeTable].
Proof.
  apply (initTable_panics_on_nil_description ex_creating [ex_creating]
           ex_unreached [ex_active] None true).
  - reflexivity.
  - constructor; [exact ex_creating_pending|].
    constructor; [exact ex_creating_pending|constructor].
  - reflexivity.
Defined.

(** * What is read is valid UTF-8 *)

(** ** Encoded runes are valid *)

Lemma Valid_loop_fuel (n : nat) :
  forall (m : nat) (p : list ascii),
    (length p <= n)%nat -> (length p <= m)%nat ->
    utf8.Valid_loop n p = utf8.Valid_loop m p.
Proof.
  induction n as [|n IH]; intros m p Hn Hm.
  - destruct p; [|simpl in Hn; lia]. destruct m; reflexivity.
  - destruct p as [|c t]; [destruct m; reflexivity|].
    destruct m as [|m]; [simpl in Hm; lia|].
    cbn [utf8.Valid_loop]. simpl in Hn, Hm.
    destruct (b2z c <? utf8.RuneSelf); [apply IH; lia|].
    destruct (utf8.DecodeRune (c :: t)) as [r size] eqn:D.
    destruct ((r =? utf8.RuneError) && (size =? 1)%nat); [reflexivity|].
    pose proof (DecodeRune_size (c :: t) ltac:(discriminate)) as Sz.
    rewrite D in Sz. simpl in Sz.
    apply IH; rewrite length_drop; simpl; lia.
Qed.

Lemma Valid_loop_Valid (n : nat) (p : list ascii) :
  (length p <= n)%nat -> utf8.Valid_loop n p = utf8.Valid p.
Proof. intros H. apply Valid_loop_fuel; [exact H|lia]. Qed.

Lemma chunk_ascii (c : ascii) : b2z c < 0x80 -> chunk [c].
Proof.
  intros H rest. unfold utf8.Valid at 1. cbn [app length utf8.Valid_loop].
  unfold utf8.RuneSelf. destruct (Z.ltb_spec (b2z c) 128); [reflexivity|lia].
Qed.

Lemma chunk_decoded (e : list ascii) (c : ascii) (t : list ascii) (size : nat) :
  e = c :: t -> 0x80 <= b2z c -> size = length e -> (2 <= size)%nat ->
  (forall rest, (utf8.DecodeRune (e ++ rest)).2 = size) ->
  chunk e.
Proof.
  intros -> Hc -> Hsz Hd rest. unfold utf8.Valid at 1.
  cbn [app length utf8.Valid_loop]. unfold utf8.RuneSelf.
  destruct (Z.ltb_spec (b2z c) 128); [lia|].
  specialize (Hd rest). cbn [app] in Hd.
  destruct (utf8.DecodeRune (c :: t ++ rest)) as [r size] eqn:D.
  cbn [snd] in Hd. subst size.
  assert ((length (c :: t) =? 1)%nat = false) as ->
    by (apply Nat.eqb_neq; lia).
  rewrite andb_false_r.
  change (c :: t ++ rest) with ((c :: t) ++ rest).
  rewrite drop_app_length.
  apply Valid_loop_Valid. rewrite length_app. lia.
Qed.

Ltac first_case :=
  unfold utf8.first;
  repeat match goal with
         | |- context [?a <? ?b] => destruct (Z.ltb_spec a b); try lia
         | |- context [?a =? ?b] => destruct (Z.eqb_spec a b); try lia
         end.

Ltac bool_case :=
  repeat match goal with
         | |- context [?a <? ?b] => destruct (Z.ltb_spec a b); try lia
         | |- context [?a <=? ?b] => destruct (Z.leb_spec a b); try lia
         end.

Lemma DecodeRune_2 (c0 c1 : ascii) (rest : list ascii) :
  0xC2 <= b2z c0 < 0xE0 -> 0x80 <= b2z c1 <= 0xBF ->
  (utf8.DecodeRune (c0 :: c1 :: rest)).2 = 2%nat.
Proof.
  intros H0 H1. unfold utf8.DecodeRune.
  assert (utf8.first (b2z c0) = Some (2%nat, utf8.locb, utf8.hicb)) as ->
    by (first_case; reflexivity).
  unfold utf8.locb, utf8.hicb. bool_case. reflexivity.
Qed.

Lemma DecodeRune_3 (c0 c1 c2 : ascii) (rest : list ascii) :
  0xE0 <= b2z c0 < 0xF0 -> 0x80 <= b2z c1 <= 0xBF -> 0x80 <= b2z c2 <= 0xBF ->
  (b2z c0 = 0xE0 -> 0xA0 <= b2z c1) ->
  (b2z c0 = 0xED -> b2z c1 <= 0x9F) ->
  (utf8.DecodeRune (c0 :: c1 :: c2 :: rest)).2 = 3%nat.
Proof.
  intros H0 H1 H2 Ha Hb. unfold utf8.DecodeRune, utf8.cont.
  unfold utf8.first, utf8.locb, utf8.hicb.
  repeat match goal with
         | |- context [b2z c0 <? ?b] => destruct (Z.ltb_spec (b2z c0) b); try lia
         | |- context [b2z c0 =? ?b] => destruct (Z.eqb_spec (b2z c0) b); try lia
         end;
    bool_case; reflexivity.
Qed.

Lemma DecodeRune_4 (c0 c1 c2 c3 : ascii) (rest : list ascii) :
  0xF0 <= b2z c0 <= 0xF4 -> 0x80 <= b2z c1 <= 0xBF ->
  0x80 <= b2z c2 <= 0xBF -> 0x80 <= b2z c3 <= 0xBF ->
  (b2z c0 = 0xF0 -> 0x90 <= b2z c1) ->
  (b2z c0 = 0xF4 -> b2z c1 <= 0x8F) ->
  (utf8.DecodeRune (c0 :: c1 :: c2 :: c3 :: rest)).2 = 4%nat.
Proof.
  intros H0 H1 H2 H3 Ha Hb. unfold utf8.DecodeRune, utf8.cont.
  unfold utf8.first, utf8.locb, utf8.hicb.
  repeat match goal with
         | |- context [b2z c0 <? ?b] => destruct (Z.ltb_spec (b2z c0) b); try lia
         | |- context [b2z c0 =? ?b] => destruct (Z.eqb_spec (b2z c0) b); try lia
         end;
    bool_case; reflexivity.
Qed.

Lemma chunk_rune2 (r : Z) : 0x80 <= r <= 0x7FF -> chunk (utf8.EncodeRune r).
Proof.
  intros H. rewrite (enc2 r H).
  assert (0 <= 192 + r / 64 < 256 /\ 0 <= 128 + r mod 64 < 256) as [B0 B1]
    by (Z.div_mod_to_equations; lia).
  eapply chunk_decoded; [reflexivity| |reflexivity|simpl; lia|].
  - rewrite b2z_z2b by exact B0. Z.div_mod_to_equations; lia.
  - intros rest. cbn [app]. apply DecodeRune_2;
      rewrite b2z_z2b by assumption; Z.div_mod_to_equations; lia.
Qed.

Lemma chunk_rune3 (r : Z) :
  0x800 <= r <= 0xFFFF -> ~ (0xD800 <= r <= 0xDFFF) ->
  chunk (utf8.EncodeRune r).
Proof.
  intros H Hs. rewrite (enc3 r H Hs).
  assert (0 <= 224 + r / 4096 < 256 /\ 0 <= 128 + (r / 64) mod 64 < 256
          /\ 0 <= 128 + r mod 64 < 256) as (B0 & B1 & B2)
    by (Z.div_mod_to_equations; lia).
  eapply chunk_decoded; [reflexivity| |reflexivity|simpl; lia|].
  - rewrite b2z_z2b by exact B0. Z.div_mod_to_equations; lia.
  - intros rest. cbn [app]. apply DecodeRune_3;
      rewrite ?b2z_z2b by assumption; Z.div_mod_to_equations; lia.
Qed.

Lemma chunk_rune4 (r : Z) : 0x10000 <= r <= 0x10FFFF -> chunk (utf8.EncodeRune r).
Proof.
  intros H. rewrite (enc4 r H).
  assert (0 <= 240 + r / 262144 < 256 /\ 0 <= 128 + (r / 4096) mod 64 < 256
          /\ 0 <= 128 + (r / 64) mod 64 < 256
          /\ 0 <= 128 + r mod 64 < 256) as (B0 & B1 & B2 & B3)
    by (Z.div_mod_to_equations; lia).
  eapply chunk_decoded; [reflexivity| |reflexivity|simpl; lia|].
  - rewrite b2z_z2b by exact B0. Z.div_mod_to_equations; lia.
  - intros rest. cbn [app]. apply DecodeRune_4;
      rewrite ?b2z_z2b by assumption; Z.div_mod_to_equations; lia.
Qed.

(** Whatever the rune, what [EncodeRune] writes for it is valid. *)
Lemma chunk_EncodeRune (r : Z) : 0 <= r -> chunk (utf8.EncodeRune r).
Proof.
  intros H.
  destruct (Z.le_gt_cases r 0x7F) as [A|A].
  { assert (utf8.EncodeRune r = [z2b r]) as ->.
    { unfold utf8.EncodeRune. destruct (Z.leb_spec r 127); [reflexivity|lia]. }
    apply chunk_ascii. rewrite b2z_z2b by lia. lia. }
  destruct (Z.le_gt_cases r 0x7FF) as [B|B]; [apply chunk_rune2; lia|].
  destruct (decide (0x10FFFF < r \/ 0xD800 <= r <= 0xDFFF)) as [C|C].
  { assert (utf8.EncodeRune r = utf8.EncodeRune 0xFFFD) as ->.
    { unfold utf8.EncodeRune at 1.
      destruct (Z.leb_spec r 127); [lia|]. destruct (Z.leb_spec r 2047); [lia|].
      unfold utf8.MaxRune, utf8.surrogateMin, utf8.surrogateMax.
      assert ((1114111 <? r) || (55296 <=? r) && (r <=? 57343) = true) as ->.
      { apply orb_true_iff. destruct C as [C|C].
        - left. apply Z.ltb_lt. lia.
        - right. apply andb_true_iff. split; apply Z.leb_le; lia. }
      reflexivity. }
    apply chunk_rune3; lia. }
  destruct (Z.le_gt_cases r 0xFFFF) as [D|D]; [apply chunk_rune3; lia|].
  apply chunk_rune4. lia.
Qed.

(** ** Decoded strings are valid *)

Lemma DecodeRune_nonneg (p : list ascii) : 0 <= (utf8.DecodeRune p).1.
Proof.
  unfold utf8.DecodeRune.
  repeat case_match; cbn [fst]; unfold utf8.RuneError; try lia;
    try apply b2z_range;
    rewrite ?Z.lor_nonneg, ?Z.shiftl_nonneg, ?Z.land_nonneg;
    unfold utf8.maskx, utf8.mask2, utf8.mask3, utf8.mask4; intuition lia.
Qed.

Lemma utf16_DecodeRune_nonneg (r1 r2 : Z) : 0 <= utf16.DecodeRune r1 r2.
Proof.
  unfold utf16.DecodeRune, utf16.replacementChar, utf16.surrSelf.
  destruct (_ && _) eqn:E; [|lia].
  apply andb_true_iff in E as [E E4]. apply andb_true_iff in E as [E E3].
  apply andb_true_iff in E as [E1 E2].
  unfold utf16.surr1, utf16.surr2, utf16.surr3 in *.
  apply Z.leb_le in E1, E3.
  assert (0 <= Z.lor (Z.shiftl (r1 - 55296) 10) (r2 - 56320)); [|lia].
  rewrite Z.lor_nonneg, Z.shiftl_nonneg. lia.
Qed.

Lemma Valid_nil : utf8.Valid [] = true.
Proof. reflexivity. Qed.

Lemma coerce_loop_is_valid (n : nat) :
  forall s : list ascii, utf8.Valid (coerce_loop n s) = true.
Proof.
  induction n as [|n IH]; intros s; [reflexivity|].
  destruct s as [|c t]; [reflexivity|].
  cbn [coerce_loop coerce_step].
  destruct (b2z c <? utf8.RuneSelf) eqn:A.
  - rewrite (chunk_ascii c); [apply IH|].
    apply Z.ltb_lt in A. exact A.
  - destruct (utf8.DecodeRune (c :: t)) as [r size] eqn:D.
    rewrite (chunk_EncodeRune r); [apply IH|].
    pose proof (DecodeRune_nonneg (c :: t)) as H. rewrite D in H. exact H.
Qed.

(** What [Marshal] and [Unmarshal] make of a string is valid. *)
Lemma cs_is_valid (s : string) : utf8_ok (cs s).
Proof.
  unfold utf8_ok, utf8.ValidString, cs. rewrite bytes_str.
  apply coerce_loop_is_valid.
Qed.

Lemma unquote_step_chunk (s e s' : list ascii) :
  unquote_step s = Some (e, s') -> chunk e.
Proof.
  unfold unquote_step. destruct s as [|c t]; [discriminate|].
  destruct (c =? backslash)%char.
  - destruct t as [|x t']; [discriminate|].
    destruct ((x =? dquote) || (x =? backslash) || (x =? "/"))%char eqn:E1.
    { intros [= <- <-]. apply chunk_ascii.
      apply orb_true_iff in E1 as [E1|E1];
        [apply orb_true_iff in E1 as [E1|E1]|];
        apply Ascii.eqb_eq in E1; subst x; reflexivity. }
    repeat match goal with
           | |- (if (x =? ?k)%char then Some ([?k'], _) else _) = _ -> _ =>
             destruct (x =? k)%char;
               [intros [= <- <-]; apply chunk_ascii; reflexivity|]
           end.
    destruct (x =? "u")%char; [|discriminate].
    destruct (getu4 (c :: x :: t') <? 0) eqn:G; [discriminate|].
    apply Z.ltb_ge in G. cbv zeta.
    destruct (utf16.IsSurrogate _).
    + destruct (negb _); intros [= <- <-]; apply chunk_EncodeRune.
      * apply utf16_DecodeRune_nonneg.
      * unfold utf16.replacementChar. lia.
    + intros [= <- <-]. apply chunk_EncodeRune. exact G.
  - destruct ((c =? dquote)%char || (b2z c <? 32)); [discriminate|].
    destruct (b2z c <? utf8.RuneSelf) eqn:A.
    + intros [= <- <-]. apply chunk_ascii. apply Z.ltb_lt in A. exact A.
    + destruct (utf8.DecodeRune (c :: t)) as [r size] eqn:D.
      intros [= <- <-]. apply chunk_EncodeRune.
      pose proof (DecodeRune_nonneg (c :: t)) as H. rewrite D in H. exact H.
Qed.

Lemma unquote_is_valid (fuel : nat) :
  forall s w r : list ascii,
    unquote fuel s = Some (w, r) -> utf8.Valid w = true.
Proof.
  induction fuel as [|fuel IH]; intros s w r E; [discriminate|].
  cbn [unquote] in E. destruct s as [|c t]; [discriminate|].
  destruct (c =? dquote)%char; [injection E as <- <-; reflexivity|].
  destruct (unquote_step (c :: t)) as [[e s']|] eqn:St; [|discriminate].
  cbn [mbind option_bind] in E.
  destruct (unquote fuel s') as [[ws r']|] eqn:U; [|discriminate].
  cbn in E. injection E as <- <-.
  rewrite (unquote_step_chunk _ _ _ St). exact (IH _ _ _ U).
Qed.

Lemma parse_is_valid (n : nat) :
  (forall s v r, parse_value n s = Some (v, r) -> value_utf8 v)
  /\ (forall s l r, parse_elements n s = Some (l, r) -> elems_utf8 l)
  /\ (forall s l r, parse_members n s = Some (l, r) -> members_utf8 l).
Proof.
  induction n as [|n (IHv & IHe & IHm)]; [repeat split; discriminate|].
  split_and!.
  - intros s v r E. cbn [parse_value] in E.
    destruct s as [|c t]; [discriminate|].
    destruct (c =? "{")%char.
    { destruct (skipSpace t) as [|c' r0]; [discriminate|].
      destruct (c' =? "}")%char; [injection E as <- _; exact I|].
      destruct (parse_members n (c' :: r0)) as [[ms r']|] eqn:M; [|discriminate].
      cbn in E. injection E as <- _. exact (IHm _ _ _ M). }
    destruct (c =? "[")%char.
    { destruct (skipSpace t) as [|c' r0]; [discriminate|].
      destruct (c' =? "]")%char; [injection E as <- _; exact I|].
      destruct (parse_elements n (c' :: r0)) as [[es r']|] eqn:M; [|discriminate].
      cbn in E. injection E as <- _. exact (IHe _ _ _ M). }
    destruct (c =? dquote)%char.
    { destruct (unquote (length t) t) as [[w r0]|] eqn:U; [|discriminate].
      cbn in E. injection E as <- _. exact (unquote_is_valid _ _ _ _ U). }
    unfold literal in E.
    repeat match type of E with
           | (if ?b then _ else _) = _ => destruct b
           end; try discriminate; try (injection E as <- _; exact I).
    destruct (scan_number (c :: t)) as [[lit r0]|]; [|discriminate].
    cbn in E. injection E as <- _. exact I.
  - intros s l r E. cbn [parse_elements] in E.
    destruct (parse_value n s) as [[v r0]|] eqn:V; [|discriminate].
    cbn [mbind option_bind] in E.
    destruct (skipSpace r0) as [|c1 r1]; [discriminate|].
    destruct (c1 =? ",")%char.
    + destruct (parse_elements n (skipSpace r1)) as [[es r2]|] eqn:M;
        [|discriminate].
      cbn in E. injection E as <- _.
      split; [exact (IHv _ _ _ V)|exact (IHe _ _ _ M)].
    + destruct (c1 =? "]")%char; [|discriminate].
      injection E as <- _. split; [exact (IHv _ _ _ V)|exact I].
  - intros s l r E. cbn [parse_members] in E.
    destruct s as [|c t]; [discriminate|].
    destruct (c =? dquote)%char; [|discriminate].
    destruct (unquote (length t) t) as [[k r0]|] eqn:U; [|discriminate].
    cbn [mbind option_bind] in E.
    destruct (skipSpace r0) as [|c1 r1]; [discriminate|].
    destruct (c1 =? ":")%char; [|discriminate].
    destruct (parse_value n (skipSpace r1)) as [[v r2]|] eqn:V; [|discriminate].
    cbn [mbind option_bind] in E.
    destruct (skipSpace r2) as [|c3 r3]; [discriminate|].
    pose proof (unquote_is_valid _ _ _ _ U) as Hk.
    destruct (c3 =? ",")%char.
    + destruct (parse_members n (skipSpace r3)) as [[ms r4]|] eqn:M;
        [|discriminate].
      cbn in E. injection E as <- _.
      split; [split; [exact Hk|exact (IHv _ _ _ V)]|exact (IHm _ _ _ M)].
    + destruct (c3 =? "}")%char; [|discriminate].
      injection E as <- _. split; [split; [exact Hk|exact (IHv _ _ _ V)]|exact I].
Qed.

Lemma parse_valid (text : list ascii) (v : value) :
  parse text = Some v -> value_utf8 v.
Proof.
  unfold parse.
  destruct (parse_value _ _) as [[v' r]|] eqn:E; [|discriminate].
  cbn. destruct (skipSpace r); [|discriminate]. intros [= <-].
  exact (proj1 (parse_is_valid _) _ _ _ E).
Qed.

(** ** Accounts that were read *)

Lemma ParseInt_range (lit : list ascii) (z : Z) :
  ParseInt lit = Some z -> int64_ok z.
Proof.
  unfold ParseInt, int64_ok. destruct lit as [|c t]; [discriminate|].
  assert (forall n : Z,
            (if (minInt64 <=? n) && (n <=? maxInt64) then Some n else None)
            = Some z -> minInt64 <= z <= maxInt64) as H.
  { intros n. destruct (_ && _) eqn:E; [|discriminate]. intros [= <-].
    apply andb_true_iff in E as [E1 E2].
    apply Z.leb_le in E1, E2. lia. }
  repeat match goal with
         | |- (if ?b then _ else _) = _ -> _ => destruct b
         end;
    (destruct (ParseUint _) as [n|]; [|discriminate]); cbn; apply H.
Qed.

Lemma into_string_valid (v : value) (old s : string) :
  into_string v old = Some s -> value_utf8 v -> utf8_ok old -> utf8_ok s.
Proof.
  destruct v; try discriminate; intros [= <-] V O; [exact O|].
  unfold utf8_ok, utf8.ValidString. rewrite bytes_str. exact V.
Qed.

Lemma into_int64_range (v : value) (old z : Z) :
  into_int64 v old = Some z -> int64_ok old -> int64_ok z.
Proof.
  destruct v; try discriminate; cbn.
  - intros [= <-] O. exact O.
  - intros E _. exact (ParseInt_range _ _ E).
Qed.

Lemma LogLine_field_ok (l l' : LogLine) (k : list ascii) (v : value) :
  LogLine_field l k v = Some l' -> value_utf8 v -> line_ok l -> line_ok l'.
Proof.
  unfold LogLine_field, line_ok. cbn [ptr_utf8 ptr_wt].
  intros E V ((V1 & V2 & V3) & W).
  repeat match type of E with
         | (if ?b then _ else _) = _ => destruct b
         end.
  - destruct (into_int64 v (Ts l)) as [t|] eqn:I; [|discriminate].
    injection E as <-. cbn. split_and!; try assumption.
    exact (into_int64_range _ _ _ I W).
  - destruct (into_string v (Ip l)) as [s|] eqn:I; [|discriminate].
    injection E as <-. cbn. split_and!; try assumption.
    exact (into_string_valid _ _ _ I V V1).
  - destruct (into_string v (LogType l)) as [s|] eqn:I; [|discriminate].
    injection E as <-. cbn. split_and!; try assumption.
    exact (into_string_valid _ _ _ I V V2).
  - destruct (into_string v (Desc l)) as [s|] eqn:I; [|discriminate].
    injection E as <-. cbn. split_and!; try assumption.
    exact (into_string_valid _ _ _ I V V3).
  - injection E as <-. auto.
Qed.

Lemma into_struct_LogLine_ok (members : list (list ascii * value)) :
  forall l l' : LogLine,
    into_struct LogLine_field members l = Some l' ->
    members_utf8 members -> line_ok l -> line_ok l'.
Proof.
  induction members as [|[k v] ms IH]; intros l l' E V O.
  - injection E as <-. exact O.
  - cbn [into_struct] in E. destruct V as [[_ Vv] Vms].
    destruct (LogLine_field l k v) as [l1|] eqn:F; [|discriminate].
    cbn in E. apply (IH l1 l' E Vms).
    exact (LogLine_field_ok _ _ _ _ F Vv O).
Qed.

Lemma into_ptr_ok (v : value) (p : option LogLine) :
  into_ptr v = Some p -> value_utf8 v -> ptr_utf8 p /\ ptr_wt p.
Proof.
  destruct v; try discriminate; cbn [into_ptr].
  - intros [= <-] _. split; exact I.
  - destruct (into_struct _ _ _) as [l|] eqn:E; [|discriminate].
    intros [= <-] V.
    apply (into_struct_LogLine_ok _ _ _ E V).
    split; [repeat split|].
    unfold ptr_wt, int64_ok, minInt64, maxInt64. cbn. lia.
Qed.

Lemma into_slice_ok (v : value) (s : list (option LogLine)) :
  into_slice v = Some s -> value_utf8 v ->
  Forall ptr_utf8 s /\ Forall ptr_wt s.
Proof.
  destruct v; try discriminate; cbn [into_slice].
  - intros [= <-] _. split; constructor.
  - intros E V. apply mapM_Some in E.
    change (elems_utf8 elems) in V.
    induction E as [|x p l s Hx _ IH]; [split; constructor|].
    destruct V as [Vx Vl]. destruct (IH Vl) as [A B].
    destruct (into_ptr_ok _ _ Hx Vx) as [C D].
    split; constructor; assumption.
Qed.

Lemma into_map_ok (members : list (list ascii * value)) :
  forall m m' : gmap string (list (option LogLine)),
    into_map members m = Some m' ->
    members_utf8 members ->
    logs_utf8 (Some m) /\ logs_wt (Some m) ->
    logs_utf8 (Some m') /\ logs_wt (Some m').
Proof.
  induction members as [|[k v] ms IH]; intros m m' E V O.
  - injection E as <-. exact O.
  - cbn [into_map] in E. destruct V as [[Vk Vv] Vms].
    destruct (into_slice v) as [s|] eqn:S; [|discriminate].
    cbn in E. apply (IH _ _ E Vms).
    destruct (into_slice_ok _ _ S Vv) as [A B]. destruct O as [O1 O2].
    cbn [logs_utf8 logs_wt] in *. split.
    + apply map_Forall_insert_2; [|exact O1]. split; [|exact A].
      unfold utf8_ok, utf8.ValidString. rewrite bytes_str. exact Vk.
    + apply map_Forall_insert_2; [exact B|exact O2].
Qed.

Lemma into_struct_User_ok (members : list (list ascii * value)) :
  forall u u' : User,
    into_struct User_field members u = Some u' ->
    members_utf8 members ->
    utf8_ok (RegIp u) /\ int64_ok (RegTs u) ->
    utf8_ok (RegIp u') /\ int64_ok (RegTs u').
Proof.
  induction members as [|[k v] ms IH]; intros u u' E V O.
  - injection E as <-. exact O.
  - cbn [into_struct] in E. destruct V as [[_ Vv] Vms].
    destruct (User_field u k v) as [u1|] eqn:F; [|discriminate].
    cbn in E. apply (IH u1 u' E Vms). destruct O as [O1 O2].
    unfold User_field in F.
    repeat match type of F with
           | (if ?b then _ else _) = _ => destruct b
           end.
    + destruct (into_int64 v (RegTs u)) as [t|] eqn:I; [|discriminate].
      injection F as <-. cbn. split; [exact O1|].
      exact (into_int64_range _ _ _ I O2).
    + destruct (into_string v (RegIp u)) as [s|] eqn:I; [|discriminate].
      injection F as <-. cbn. split; [|exact O2].
      exact (into_string_valid _ _ _ I Vv O1).
    + injection F as <-. auto.
Qed.

(** The account a lookup makes of an item has valid strings and [int64]
    times, whatever the item holds. *)
Lemma rehydrate_ok (um : Model) (id : string) (row : Item) (u : User) :
  rehydrate um id row = Ret (Some u) -> User_wt u /\ User_utf8 u.
Proof.
  unfold rehydrate, Unmarshal_User, Unmarshal_logs.
  destruct (parse (bytes (it_info row))) as [v|] eqn:P1; [|discriminate].
  cbn [mbind option_bind].
  destruct v as [| | | | |members]; try discriminate.
  destruct (into_struct User_field members _) as [u1|] eqn:S1; [|discriminate].
  cbn [mbind option_bind].
  destruct (parse (bytes (it_logs row))) as [v2|] eqn:P2; [|discriminate].
  cbn [mbind option_bind].
  pose proof (parse_valid _ _ P1) as V1. pose proof (parse_valid _ _ P2) as V2.
  destruct (into_struct_User_ok _ _ _ S1 V1) as [A B].
  { cbn. split; [reflexivity|].
    unfold int64_ok, minInt64, maxInt64. lia. }
  pose proof (into_struct_User_fields _ _ _ S1) as (_ & _ & _ & L & _).
  cbn [logs] in L. rewrite L. cbn [default].
  destruct v2 as [| | | | |members2]; try discriminate.
  - intros [= <-]. unfold User_wt, User_utf8. cbn. auto.
  - destruct (into_map members2 _) as [m|] eqn:M; [|discriminate].
    cbn [mbind option_bind]. intros [= <-].
    change (into_map members2 ∅ = Some m) in M.
    destruct (into_map_ok _ _ _ M V2) as [C D].
    { split; apply map_Forall_empty. }
    unfold User_wt, User_utf8. cbn. auto.
Qed.

(** X23.  An account that a lookup returned is stable: written back as it is, it
    is read back as it is.  Its strings are valid UTF-8 and its times are
    [int64], whatever the item it was read from. *)
Theorem lookup_result_is_stable (um : Model) (id : string) (u : User)
  (w w1 w2 w3 : World) :
  AdminGetUserInfoByID um id w = Ret (Some u, w1) ->
  persist u w2 = Ret (true, w3) ->
  failing w3 = false ->
  AdminGetUserInfoByID um id w3 = Ret (Some u, answered w3)
  /\ uid u = id /\ md u = um /\ User_utf8 u /\ User_wt u.
Proof.
  intros A P F. rewrite AdminGetUserInfoByID_eq in A.
  destruct (failing w); [discriminate|].
  destruct (rows w !! id) as [row|]; [|discriminate].
  destruct (rehydrate um id row) as [[u'|]|] eqn:R; try discriminate.
  injection A as -> _.
  destruct (rehydrate_ok _ _ _ _ R) as [W V].
  destruct (rehydrate_fields _ _ _ _ R) as (Hid & _ & _ & Hmd).
  split_and!; try assumption.
  rewrite <- Hid, <- Hmd.
  rewrite AdminGetUserInfoByID_item_of;
    [|exact W|exact F|exact (persist_Ok _ _ _ P)].
  rewrite reloaded_valid by exact V. reflexivity.
Qed.

Lemma lookup_result_is_stable_witness :
  AdminGetUserInfoByID ex_um "u" ex_foreign_again
  = Ret (Some ex_foreign_user, answered ex_foreign_again)
  /\ uid ex_foreign_user = "u" /\ md ex_foreign_user = ex_um
  /\ User_utf8 ex_foreign_user /\ User_wt ex_foreign_user.
Proof.
  apply (lookup_result_is_stable ex_um "u" ex_foreign_user ex_foreign_world
           (answered ex_foreign_world) (answered ex_foreign_world)
           ex_foreign_again).
  - vm_compute. reflexivity.
  - reflexivity.
  - reflexivity.
Defined.

(** ** Requests *)

(** X24.  Whether it succeeds or fails, a registration leaves every item alone
    but the one under the stripped uid. *)
Theorem registration_touches_one_row (um : Model) (raw digest ip id : string)
  (r : result) (w w' : World) :
  id <> strings.Replace raw "+" "" (-1) ->
  RegisterUserPlainKey um raw digest ip w = Ret (r, w') ->
  rows w' !! id = rows w !! id.
Proof.
  intros Hne. rewrite RegisterUserPlainKey_eq. cbv zeta.
  destruct (AdminGetUserInfoByID um _ w) as [[[found|] w0]|] eqn:A;
    try discriminate; apply AdminGetUserInfoByID_world in A; subst w0.
  - intros [= _ <-]. reflexivity.
  - destruct (failing (answered w)); intros [= _ <-]; [reflexivity|].
    cbn [rows answered]. apply lookup_insert_ne. congruence.
Qed.

Lemma registration_touches_one_row_witness :
  rows ex_two_world !! "ab@x.com" = rows ex_first_world !! "ab@x.com".
Proof.
  apply (registration_touches_one_row ex_um "c+d@x.com" "other" "10.9.9.9"
           "ab@x.com" (Ok ex_second) ex_first_world ex_two_world).
  - vm_compute. discriminate.
  - vm_compute. reflexivity.
Defined.

(** X25.  Nothing is retried.  A method of an account sends one request, failed
    or not; a registration sends one when it finds the account and two
    otherwise; only a registration that gets to its write and
    [AddActivityLog] read the clock, once. *)
Theorem no_request_is_retried (us : User) (w : World) :
  logs us <> None ->
  (forall r w', DisableUser us w = Ret (r, w') ->
                faults w' = tl (faults w) /\ clock w' = clock w)
  /\ (forall r w', EnableUser us w = Ret (r, w') ->
                   faults w' = tl (faults w) /\ clock w' = clock w)
  /\ (forall password r w', UpdateUser us password w = Ret (r, w') ->
                            faults w' = tl (faults w) /\ clock w' = clock w)
  /\ (forall actionType desc ip,
        exists r w', AddActivityLog us actionType desc ip w = Ret (r, w')
                     /\ faults w' = tl (faults w) /\ clock w' = tl (clock w))
  /\ (forall um raw digest ip r w',
        RegisterUserPlainKey um raw digest ip w = Ret (r, w') ->
        match r with
        | Err "Existing user account" =>
          faults w' = tl (faults w) /\ clock w' = clock w
        | _ => faults w' = tl (tl (faults w)) /\ clock w' = tl (clock w)
        end).
Proof.
  intros L. split_and!.
  - intros r w'. unfold DisableUser, bind, ret. rewrite persist_eq.
    intros [= _ <-]. auto.
  - intros r w'. unfold EnableUser, bind, ret. rewrite persist_eq.
    intros [= _ <-]. auto.
  - intros password r w'. unfold UpdateUser, bind, ret. rewrite persist_eq.
    intros [= _ <-]. auto.
  - intros actionType desc ip. destruct (logs us) as [m|] eqn:Lm; [|congruence].
    rewrite (AddActivityLog_eq us m) by exact Lm. cbv zeta.
    eexists _, _. split; [reflexivity|]. auto.
  - intros um raw digest ip r w'. rewrite RegisterUserPlainKey_eq. cbv zeta.
    destruct (AdminGetUserInfoByID um _ w) as [[[found|] w0]|] eqn:A;
      try discriminate; apply AdminGetUserInfoByID_world in A; subst w0.
    + intros [= <- <-]. auto.
    + destruct (failing (answered w)); intros [= <- <-]; auto.
Qed.

Lemma no_request_is_retried_witness :
  (forall r w', DisableUser ex_first ex_down = Ret (r, w') ->
                faults w' = tl (faults ex_down) /\ clock w' = clock ex_down)
  /\ (forall r w', EnableUser ex_first ex_down = Ret (r, w') ->
                   faults w' = tl (faults ex_down) /\ clock w' = clock ex_down)
  /\ (forall password r w', UpdateUser ex_first password ex_down = Ret (r, w') ->
                            faults w' = tl (faults ex_down)
                            /\ clock w' = clock ex_down)
  /\ (forall actionType desc ip,
        exists r w', AddActivityLog ex_first actionType desc ip ex_down
                     = Ret (r, w')
                     /\ faults w' = tl (faults ex_down)
                     /\ clock w' = tl (clock ex_down))
  /\ (forall um raw digest ip r w',
        RegisterUserPlainKey um raw digest ip ex_down = Ret (r, w') ->
        match r with
        | Err "Existing user account" =>
          faults w' = tl (faults ex_down) /\ clock w' = clock ex_down
        | _ => faults w' = tl (tl (faults ex_down))
               /\ clock w' = tl (clock ex_down)
        end).
Proof.
  apply (no_request_is_retried ex_first ex_down). discriminate.
Defined.
